(** * Homomorphic-hash micropayment channel: a shallow embedding

    The Python sources embedded here are
    - [backend/src/crypto/pedersen.py]   (module [pedersen]),
    - [backend/src/crypto/signing.py]    (class [Ed25519], module [signing]),
    - [backend/src/protocol/channel.py]  (module [channel]),
    - [backend/src/protocol/ledger.py]   (module [ledger]).

    Python integers are [Z]; [bytes] are [list byte]; [str] is [string],
    read as the UTF-8 byte sequence of the text, so that [encode('utf-8')]
    is the conversion to [list byte]; a [dict] is an association list in
    insertion order; an exception is the [Raise] branch of [result]. *)

From Stdlib Require Import ZArith List String Ascii Lia Bool.
From Stdlib.Strings Require Import Byte.
From Stdlib Require Import Znumtheory Zcong Zpow_facts.
From Stdlib Require Import Permutation Sorted.
From Bignums Require Import BigN.
Import ListNotations.
Set Warnings "-register-all".
Local Open Scope string_scope.
Local Open Scope list_scope.
Local Open Scope Z_scope.

(* ===================================================================== *)
(** * Exceptions, results and the state-and-exception monad *)
(* ===================================================================== *)

(** The exception classes the four modules can raise.  The first group are
    Python builtins, the second the classes of [channel.py], the third the
    classes of [ledger.py].  [EntropyExhausted] does not exist in Python: it
    marks the end of the finite tape that stands for [secrets.randbelow]. *)
Inductive exn : Type :=
| ValueError
| ZeroDivisionError
| OverflowError
| TypeError
| KeyError (key : string)
| ChannelError (msg : string)
| InsufficientBalanceError (msg : string)
| InvalidParticipantError (pid : string)
| InvalidAmountError (msg : string)
| UnknownChannelError (channel_id : string)
| InvalidSettlementError (msg : string)
| EntropyExhausted.

Inductive result (A : Type) : Type :=
| Ok (a : A)
| Raise (e : exn).
Arguments Ok {A} a.
Arguments Raise {A} e.

(** A computation over a mutable store [S]: the store survives an
    exception, as a Python object survives a [raise]. *)
Definition M (S A : Type) : Type := S -> result A * S.

Definition ret {S A} (a : A) : M S A := fun s => (Ok a, s).
Definition throw {S A} (e : exn) : M S A := fun s => (Raise e, s).
Definition bind {S A B} (c : M S A) (k : A -> M S B) : M S B :=
  fun s => match c s with
           | (Ok a, s') => k a s'
           | (Raise e, s') => (Raise e, s')
           end.
Definition get {S} : M S S := fun s => (Ok s, s).
Definition put {S} (s : S) : M S unit := fun _ => (Ok tt, s).
Definition modify {S} (f : S -> S) : M S unit := fun s => (Ok tt, f s).

(** Pure fallible code: a value or an exception, no store. *)
Definition rbind {A B} (r : result A) (k : A -> result B) : result B :=
  match r with
  | Ok a => k a
  | Raise e => Raise e
  end.
Definition lift {S A} (r : result A) : M S A := fun s => (r, s).

Declare Scope py_scope.
Delimit Scope py_scope with py.
Notation "x <- c ;; k" := (bind c (fun x => k))
  (at level 61, c at next level, right associativity) : py_scope.
Notation "c ;; k" := (bind c (fun _ => k))
  (at level 61, right associativity) : py_scope.
Notation "' pat <- c ;; k" := (bind c (fun x => match x with pat => k end))
  (at level 61, pat pattern, c at next level, right associativity) : py_scope.
Notation "x <~ c ;; k" := (rbind c (fun x => k))
  (at level 61, c at next level, right associativity) : py_scope.
Local Open Scope py_scope.

(** [for x in xs: body x] over the store. *)
Fixpoint for_each {S A} (xs : list A) (body : A -> M S unit) : M S unit :=
  match xs with
  | [] => ret tt
  | x :: rest => body x ;; for_each rest body
  end.

(** The same loop for pure fallible bodies. *)
Fixpoint rfor_each {A} (xs : list A) (body : A -> result unit) : result unit :=
  match xs with
  | [] => Ok tt
  | x :: rest => _ <~ body x ;; rfor_each rest body
  end.

(* ===================================================================== *)
(** * Python dictionaries with string keys *)
(* ===================================================================== *)

Module dict.
(** Insertion-ordered, one binding per key. *)
Definition t (V : Type) : Type := list (string * V).

Fixpoint get {V} (d : t V) (k : string) : option V :=
  match d with
  | [] => None
  | (k', v) :: rest => if String.eqb k k' then Some v else get rest k
  end.

(** [d[k]] *)
Definition getitem {V} (d : t V) (k : string) : result V :=
  match get d k with
  | Some v => Ok v
  | None => Raise (KeyError k)
  end.

(** [k in d] *)
Definition contains {V} (d : t V) (k : string) : bool :=
  match get d k with Some _ => true | None => false end.

(** [d[k] = v]: an existing key keeps its position. *)
Fixpoint set {V} (d : t V) (k : string) (v : V) : t V :=
  match d with
  | [] => [(k, v)]
  | (k', v') :: rest =>
      if String.eqb k k' then (k', v) :: rest else (k', v') :: set rest k v
  end.

(** [d.update(other)] *)
Definition update {V} (d other : t V) : t V :=
  fold_left (fun acc kv => set acc (fst kv) (snd kv)) other d.

(** [{k: f(v) for k, v in d.items()}] *)
Definition map_values {V W} (f : V -> W) (d : t V) : t W :=
  List.map (fun kv => (fst kv, f (snd kv))) d.

Definition keys {V} (d : t V) : list string := List.map fst d.

(** A dict literal or comprehension from a sequence of pairs: later
    bindings of a key overwrite earlier ones. *)
Definition of_items {V} (items : list (string * V)) : t V :=
  update [] items.
End dict.

(* ===================================================================== *)
(** * Python builtins used by the sources *)
(* ===================================================================== *)

Module py.

(** [a % b] *)
Definition mod_ (a b : Z) : result Z :=
  if b =? 0 then Raise ZeroDivisionError else Ok (a mod b).

(** Square-and-multiply, reducing after every product. *)
Fixpoint pow_mod_pos (b : Z) (e : positive) (m : Z) : Z :=
  match e with
  | xH => b mod m
  | xO e' => let r := pow_mod_pos b e' m in (r * r) mod m
  | xI e' => let r := pow_mod_pos b e' m in ((r * r) mod m * b) mod m
  end.

Definition pow_mod (b e m : Z) : Z :=
  match e with
  | Zpos e' => pow_mod_pos b e' m
  | _ => 1 mod m
  end.

(** [pow(base, exponent, modulus)] on integers (CPython 3.8 and later):
    a zero modulus is a [ValueError]; a negative exponent inverts the
    base modulo [|modulus|] first and is a [ValueError] when the base is
    not invertible; the result carries the sign of the modulus. *)
Definition pow3 (base exponent modulus : Z) : result Z :=
  if modulus =? 0 then Raise ValueError
  else if 0 <=? exponent then Ok (pow_mod base exponent modulus)
  else if Z.gcd base modulus =? 1
       then Ok (pow_mod (Z.invmod base (Z.abs modulus)) (- exponent) modulus)
       else Raise ValueError.

(** [x.bit_length()] *)
Definition bit_length (x : Z) : Z :=
  if x =? 0 then 0 else Z.log2 (Z.abs x) + 1.

(** ** Hexadecimal and decimal text *)

Definition hex_digit (d : Z) : ascii :=
  if d <? 10 then ascii_of_N (Z.to_N (48 + d)) else ascii_of_N (Z.to_N (87 + d)).

Definition hex_value (c : ascii) : option Z :=
  let n := Z.of_N (N_of_ascii c) in
  if (48 <=? n) && (n <=? 57) then Some (n - 48)
  else if (97 <=? n) && (n <=? 102) then Some (n - 87)
  else if (65 <=? n) && (n <=? 70) then Some (n - 55)
  else None.

(** Digits of a positive number in base [2^k], most significant first;
    the recursion follows the binary representation, [fuel] bounds it. *)
Fixpoint digits_be (base : Z) (fuel : nat) (x : Z) (acc : list Z) : list Z :=
  match fuel with
  | O => acc
  | S fuel' =>
      if x <? base then x :: acc
      else digits_be base fuel' (x / base) (x mod base :: acc)
  end.

Definition digits (base x : Z) : list Z :=
  digits_be base (S (Z.to_nat (Z.log2 x))) x [].

Definition string_of_digits (ds : list Z) : string :=
  string_of_list_ascii (List.map hex_digit ds).

(** [format(x, "x")] *)
Definition format_x (x : Z) : string :=
  if x <? 0 then String "-" (string_of_digits (digits 16 (- x)))
  else string_of_digits (digits 16 x).

(** [str(x)] for an integer *)
Definition str (x : Z) : string :=
  if x <? 0 then String "-" (string_of_digits (digits 10 (- x)))
  else string_of_digits (digits 10 x).

(** ** Text read as a number: [int(s, 16)]

    CPython reads a text in two steps.  [PyLong_FromUnicodeObject] first
    brings the text to ASCII ([_PyUnicode_TransformDecimalAndSpaceToASCII]);
    [PyLong_FromString] then reads white space, a sign, the base prefix and
    the digits. *)

(** [Py_ISSPACE]: space and the five control characters tab, line feed,
    vertical tab, form feed and carriage return. *)
Definition isspace (c : ascii) : bool :=
  let n := Z.of_N (N_of_ascii c) in
  ((9 <=? n) && (n <=? 13)) || (n =? 32).

Definition is_ascii (c : ascii) : bool := Z.of_N (N_of_ascii c) <? 128.

(** The code points of a text, from its UTF-8 bytes.  A byte that starts
    no well-formed sequence (no text has one) counts as the replacement
    character U+FFFD. *)
Definition continuation (b : Z) : bool := (128 <=? b) && (b <=? 191).

Fixpoint code_points (bs : list Z) : list Z :=
  match bs with
  | [] => []
  | b0 :: rest =>
      let ill := 65533 :: code_points rest in
      if b0 <? 128 then b0 :: code_points rest
      else if b0 <? 194 then ill
      else if b0 <? 224 then
        match rest with
        | b1 :: rest1 =>
            if continuation b1
            then ((b0 - 192) * 64 + (b1 - 128)) :: code_points rest1
            else ill
        | _ => ill
        end
      else if b0 <? 240 then
        match rest with
        | b1 :: b2 :: rest2 =>
            let c := (b0 - 224) * 4096 + (b1 - 128) * 64 + (b2 - 128) in
            if continuation b1 && continuation b2 && (2048 <=? c)
               && negb ((55296 <=? c) && (c <=? 57343))
            then c :: code_points rest2
            else ill
        | _ => ill
        end
      else if b0 <? 245 then
        match rest with
        | b1 :: b2 :: b3 :: rest3 =>
            let c := (b0 - 240) * 262144 + (b1 - 128) * 4096
                     + (b2 - 128) * 64 + (b3 - 128) in
            if continuation b1 && continuation b2 && continuation b3
               && (65536 <=? c) && (c <=? 1114111)
            then c :: code_points rest3
            else ill
        | _ => ill
        end
      else ill
  end.

(** [Py_UNICODE_ISSPACE] above U+007F. *)
Definition unicode_isspace (c : Z) : bool :=
  (c =? 133) || (c =? 160) || (c =? 5760)
  || ((8192 <=? c) && (c <=? 8202))
  || (c =? 8232) || (c =? 8233) || (c =? 8239) || (c =? 8287) || (c =? 12288).

(** The characters with a decimal digit value come in runs of ten, zero
    to nine; these are the code points of the zeros (Unicode 14.0, the
    table of CPython 3.11). *)
Definition decimal_zeros : list Z :=
  [ 48; 1632; 1776; 1984; 2406; 2534; 2662; 2790; 2918; 3046; 3174; 3302;
    3430; 3558; 3664; 3792; 3872; 4160; 4240; 6112; 6160; 6470; 6608; 6784;
    6800; 6992; 7088; 7232; 7248; 42528; 43216; 43264; 43472; 43504; 43600;
    44016; 65296; 66720; 68912; 69734; 69872; 69942; 70096; 70384; 70736;
    70864; 71248; 71360; 71472; 71904; 72016; 72784; 73040; 73120; 92768;
    92864; 93008; 120782; 120792; 120802; 120812; 120822; 123200; 123632;
    125264; 130032 ].

(** [Py_UNICODE_TODECIMAL] *)
Definition unicode_todecimal (c : Z) : option Z :=
  match List.find (fun z => (z <=? c) && (c <? z + 10)) decimal_zeros with
  | Some z => Some (c - z)
  | None => None
  end.

Definition ascii_of_Z (n : Z) : ascii := ascii_of_N (Z.to_N n).

(** [_PyUnicode_TransformDecimalAndSpaceToASCII]: an ASCII text is kept as
    it is; in any other text a character outside ASCII becomes a space
    when it is white space, the ASCII digit of its value when it is a
    decimal digit, and a question mark otherwise (CPython cuts the text
    after the question mark; nothing reads past it). *)
Definition transform_decimal_and_space (s : string) : list ascii :=
  let cs := list_ascii_of_string s in
  if forallb is_ascii cs then cs
  else List.map
         (fun c =>
            if c <? 127 then ascii_of_Z c
            else if unicode_isspace c then " "%char
            else match unicode_todecimal c with
                 | Some d => ascii_of_Z (48 + d)
                 | None => "?"%char
                 end)
         (code_points (List.map (fun a => Z.of_N (N_of_ascii a)) cs)).

Fixpoint skip_spaces (cs : list ascii) : list ascii :=
  match cs with
  | c :: rest => if isspace c then skip_spaces rest else cs
  | [] => []
  end.

(** The digit loop of [long_from_binary_base]: digits and underscores are
    read as long as they last; two underscores in a row or an underscore
    at the end are an error.  The result is the number read and the text
    left over. *)
Fixpoint scan_hex (cs : list ascii) (prev_underscore : bool) (acc : Z)
    : option (Z * list ascii) :=
  match cs with
  | c :: rest =>
      if Ascii.eqb c "_" then
        if prev_underscore then None else scan_hex rest true acc
      else
        match hex_value c with
        | Some d => scan_hex rest false (16 * acc + d)
        | None => if prev_underscore then None else Some (acc, cs)
        end
  | [] => if prev_underscore then None else Some (acc, [])
  end.

(** [PyLong_FromString(str, &end, 16)] with the test that the whole text
    was read: white space, a sign, [0x] or [0X] with one underscore after
    it, the digits, white space.  The text may not start with an
    underscore and must hold a digit; a NUL character is no white space
    and no digit, so it ends no text here. *)
Definition long_from_string16 (cs : list ascii) : option Z :=
  let cs1 := skip_spaces cs in
  let negative :=
    match cs1 with c :: _ => Ascii.eqb c "-" | [] => false end in
  let cs2 :=
    match cs1 with
    | c :: rest => if Ascii.eqb c "+" || Ascii.eqb c "-" then rest else cs1
    | [] => cs1
    end in
  let cs3 :=
    match cs2 with
    | c0 :: c1 :: rest =>
        if Ascii.eqb c0 "0" && (Ascii.eqb c1 "x" || Ascii.eqb c1 "X") then
          match rest with
          | c2 :: rest' => if Ascii.eqb c2 "_" then rest' else rest
          | [] => rest
          end
        else cs2
    | _ => cs2
    end in
  match cs3 with
  | [] => None
  | c :: _ =>
      if Ascii.eqb c "_" then None
      else
        match hex_value c, scan_hex cs3 false 0 with
        | Some _, Some (v, rest) =>
            match skip_spaces rest with
            | [] => Some (if negative then - v else v)
            | _ :: _ => None
            end
        | _, _ => None
        end
  end.

(** [int(s, 16)] for a text [s] *)
Definition int16 (s : string) : result Z :=
  match long_from_string16 (transform_decimal_and_space s) with
  | Some v => Ok v
  | None => Raise ValueError
  end.

(** ** Bytes *)

Definition byte_of_Z (x : Z) : byte :=
  match Byte.of_N (Z.to_N (x mod 256)) with
  | Some b => b
  | None => x00
  end.

Definition Z_of_byte (b : byte) : Z := Z.of_N (Byte.to_N b).

(** [x.to_bytes(length, "big")], unsigned *)
Definition to_bytes (x : Z) (length : nat) : result (list byte) :=
  if (x <? 0) || (2 ^ (8 * Z.of_nat length) <=? x) then Raise OverflowError
  else Ok (List.map (fun i => byte_of_Z (Z.shiftr x (8 * Z.of_nat i)))
             (List.rev (List.seq 0 length))).

(** [int.from_bytes(bs, "big")] *)
Definition from_bytes (bs : list byte) : Z :=
  fold_left (fun acc b => 256 * acc + Z_of_byte b) bs 0.

(** [s.encode("utf-8")] and byte literals *)
Definition encode (s : string) : list byte := list_byte_of_string s.

(** [bs.hex()] *)
Definition hex (bs : list byte) : string :=
  string_of_list_ascii
    (List.flat_map (fun b => [hex_digit (Z_of_byte b / 16);
                              hex_digit (Z_of_byte b mod 16)]) bs).

(** The loop of [_PyBytes_FromHex]: white space is skipped before a pair
    of digits, never inside one. *)
Fixpoint fromhex_pairs (cs : list ascii) : option (list byte) :=
  match cs with
  | [] => Some []
  | c :: rest =>
      if isspace c then fromhex_pairs rest
      else
        match hex_value c, rest with
        | Some h, lo :: rest' =>
            match hex_value lo, fromhex_pairs rest' with
            | Some l, Some bs => Some (byte_of_Z (16 * h + l) :: bs)
            | _, _ => None
            end
        | _, _ => None
        end
  end.

(** [bytes.fromhex(s)] (CPython 3.7 and later): any other character,
    those outside ASCII included, is a [ValueError]. *)
Definition fromhex (s : string) : result (list byte) :=
  match fromhex_pairs (list_ascii_of_string s) with
  | Some bs => Ok bs
  | None => Raise ValueError
  end.

(** [sorted(keys)] for strings: insertion sort by code point order. *)
Fixpoint insert_sorted (k : string) (ks : list string) : list string :=
  match ks with
  | [] => [k]
  | k' :: rest =>
      if String.leb k k' then k :: ks else k' :: insert_sorted k rest
  end.

Definition sorted (ks : list string) : list string :=
  fold_right insert_sorted [] ks.

(** ["sep".join(pieces)] *)
Fixpoint join (sep : string) (pieces : list string) : string :=
  match pieces with
  | [] => ""
  | [x] => x
  | x :: rest => x ++ sep ++ join sep rest
  end.

End py.

(* ===================================================================== *)
(** * [hashlib.sha256] (FIPS 180-4) *)
(* ===================================================================== *)

Module hashlib.

Definition w32 (x : Z) : Z := x mod 2 ^ 32.

Definition rotr (n x : Z) : Z :=
  Z.lor (Z.shiftr x n) (w32 (Z.shiftl x (32 - n))).

Definition xor3 (a b c : Z) : Z := Z.lxor (Z.lxor a b) c.

Definition small_sigma0 (x : Z) : Z := xor3 (rotr 7 x) (rotr 18 x) (Z.shiftr x 3).
Definition small_sigma1 (x : Z) : Z := xor3 (rotr 17 x) (rotr 19 x) (Z.shiftr x 10).
Definition big_sigma0 (x : Z) : Z := xor3 (rotr 2 x) (rotr 13 x) (rotr 22 x).
Definition big_sigma1 (x : Z) : Z := xor3 (rotr 6 x) (rotr 11 x) (rotr 25 x).

Definition choose (x y z : Z) : Z :=
  Z.lxor (Z.land x y) (Z.land (Z.lxor x 0xffffffff) z).
Definition majority (x y z : Z) : Z :=
  xor3 (Z.land x y) (Z.land x z) (Z.land y z).

(** The primes below [n], by trial division. *)
Definition is_prime (n : Z) : bool :=
  List.forallb (fun d => negb (n mod Z.of_nat d =? 0))
    (List.seq 2 (Z.to_nat (Z.sqrt n) - 1)).

Definition primes_below (n : nat) : list Z :=
  List.filter is_prime (List.map Z.of_nat (List.seq 2 (n - 2))).

(** The integer cube root of [n < 2^(3k)], one bit at a time. *)
Fixpoint cube_root (k : nat) (n r : Z) : Z :=
  match k with
  | O => r
  | S k' =>
      let r' := r + 2 ^ Z.of_nat k' in
      cube_root k' n (if r' * r' * r' <=? n then r' else r)
  end.

(** The first 32 bits of the fractional parts of the cube roots of the
    first 64 primes. *)
Definition round_constants : list Z :=
  List.map (fun p => w32 (cube_root 36 (p * 2 ^ 96) 0)) (primes_below 312).

Record regs : Type := Regs {
  ra : Z; rb : Z; rc : Z; rd : Z; re : Z; rf : Z; rg : Z; rh : Z }.

(** The first 32 bits of the fractional part of the square root of [p]. *)
Definition sqrt_fraction (p : Z) : Z := w32 (Z.sqrt (p * 2 ^ 64)).

(** The initial hash value, from the first 8 primes. *)
Definition initial_hash : regs :=
  Regs (sqrt_fraction 2) (sqrt_fraction 3) (sqrt_fraction 5) (sqrt_fraction 7)
       (sqrt_fraction 11) (sqrt_fraction 13) (sqrt_fraction 17) (sqrt_fraction 19).

(** The message schedule, most recent word first. *)
Fixpoint schedule (n : nat) (ws : list Z) : list Z :=
  match n with
  | O => ws
  | S n' =>
      schedule n'
        (w32 (small_sigma1 (nth 1 ws 0) + nth 6 ws 0
              + small_sigma0 (nth 14 ws 0) + nth 15 ws 0) :: ws)
  end.

Definition round (s : regs) (kw : Z * Z) : regs :=
  let t1 := rh s + big_sigma1 (re s) + choose (re s) (rf s) (rg s)
            + fst kw + snd kw in
  let t2 := big_sigma0 (ra s) + majority (ra s) (rb s) (rc s) in
  Regs (w32 (t1 + t2)) (ra s) (rb s) (rc s)
       (w32 (rd s + t1)) (re s) (rf s) (rg s).

Definition add_regs (x y : regs) : regs :=
  Regs (w32 (ra x + ra y)) (w32 (rb x + rb y)) (w32 (rc x + rc y))
       (w32 (rd x + rd y)) (w32 (re x + re y)) (w32 (rf x + rf y))
       (w32 (rg x + rg y)) (w32 (rh x + rh y)).

(** Sixteen big-endian words of one 64-byte block. *)
Fixpoint words (n : nat) (bs : list Z) : list Z :=
  match n, bs with
  | S n', b0 :: b1 :: b2 :: b3 :: rest =>
      (((b0 * 256 + b1) * 256 + b2) * 256 + b3) :: words n' rest
  | _, _ => []
  end.

Definition compress (h : regs) (block : list Z) : regs :=
  let ws := List.rev (schedule 48 (List.rev (words 16 block))) in
  add_regs h (fold_left round (List.combine round_constants ws) h).

Fixpoint blocks (n : nat) (h : regs) (bs : list Z) : regs :=
  match n with
  | O => h
  | S n' => blocks n' (compress h (firstn 64 bs)) (skipn 64 bs)
  end.

Definition be_bytes (width : nat) (x : Z) : list Z :=
  List.map (fun i => Z.shiftr x (8 * Z.of_nat i) mod 256)
    (List.rev (List.seq 0 width)).

Definition pad (msg : list Z) : list Z :=
  let len := Z.of_nat (List.length msg) in
  msg ++ [128] ++ List.repeat 0 (Z.to_nat ((55 - len) mod 64))
      ++ be_bytes 8 (8 * len).

Definition digest_words (h : regs) : list Z :=
  [ra h; rb h; rc h; rd h; re h; rf h; rg h; rh h].

(** [sha256(data).digest()] *)
Definition sha256 (data : list byte) : list byte :=
  let padded := pad (List.map py.Z_of_byte data) in
  let h := blocks (Nat.div (List.length padded) 64) initial_hash padded in
  List.map py.byte_of_Z (List.flat_map (be_bytes 4) (digest_words h)).

End hashlib.

(* ===================================================================== *)
(** * Dynamically typed values and the entropy source *)
(* ===================================================================== *)

Module pyobj.
(** The JSON-like values a closing payload is made of. *)
Inductive object : Type :=
| NoneVal
| Bool (b : bool)
| Int (z : Z)
| Str (s : string)
| Dict (d : list (string * object)).

(** [d.get(k)]: [None] for a missing key. *)
Definition get (d : dict.t object) (k : string) : object :=
  match dict.get d k with
  | Some v => v
  | None => NoneVal
  end.

(** [isinstance(x, int)], with the integer it denotes: [bool] is a
    subclass of [int]. *)
Definition as_int (x : object) : option Z :=
  match x with
  | Int z => Some z
  | Bool b => Some (if b then 1 else 0)
  | _ => None
  end.

(** [isinstance(x, str)] *)
Definition as_str (x : object) : option string :=
  match x with Str s => Some s | _ => None end.

(** [isinstance(x, dict)] *)
Definition as_dict (x : object) : option (dict.t object) :=
  match x with Dict d => Some d | _ => None end.

(** [x is None] *)
Definition is_none (x : object) : bool :=
  match x with NoneVal => true | _ => false end.

(** [x != s] for a string [s] *)
Definition ne_str (x : object) (s : string) : bool :=
  match x with Str s' => negb (String.eqb s' s) | _ => true end.
End pyobj.

Module secrets.
(** The operating system's entropy, as the finite tape of integers the
    next draws are made from.  A draw from [range(n)] reduces the next
    entry modulo [n], so every tape yields legitimate draws and every
    sequence of legitimate draws comes from some tape. *)
Definition tape : Type := list Z.

(** [secrets.randbelow(n)] *)
Definition randbelow (n : Z) : M tape Z :=
  fun tp =>
    if n <=? 0 then (Raise ValueError, tp)
    else match tp with
         | [] => (Raise EntropyExhausted, tp)
         | k :: rest => (Ok (k mod n), rest)
         end.
End secrets.

(** [while True:] with a counter: run [body i], [body (i+1)], ... until one
    returns a value.  The binary [fuel] is an upper bound on the number of
    iterations; [inr j] reports that the bound was reached at counter [j]. *)
Fixpoint count_until {A} (fuel : positive) (body : Z -> result (option A))
    (i : Z) : result (A + Z) :=
  let step j :=
    r <~ body j ;;
    match r with
    | Some a => Ok (inl a)
    | None => Ok (inr (j + 1))
    end in
  let twice fuel' j :=
    r <~ count_until fuel' body j ;;
    match r with
    | inl a => Ok (inl a)
    | inr j' => count_until fuel' body j'
    end in
  match fuel with
  | xH => step i
  | xO fuel' => twice fuel' i
  | xI fuel' =>
      r <~ step i ;;
      match r with
      | inl a => Ok (inl a)
      | inr j => twice fuel' j
      end
  end.

(* ===================================================================== *)
(** * [crypto/pedersen.py] *)
(* ===================================================================== *)

Module pedersen.

(** The modulus constant of the source, four lines of 48 hexadecimal
    digits each. *)
Definition _P_HEX : string :=
  "FFFFFFFFFFFFFFFFC90FDAA22168C234C4C6628B80DC1CD1"
  ++ "29024E088A67CC74020BBEA63B139B22514A08798E3404DD"
  ++ "EF9519B3CD3A431B302B0A6DF25F14374FE1356D6D51C245"
  ++ "E485B576625E7EC6F44C42E9A63A3620FFFFFFFFFFFFFFFF".

Record CommitmentParameters : Type := {
  p : Z;
  q : Z;
  g : Z;
  h : Z }.

Record Commitment : Type := { value : Z }.

Record CommitmentOpening : Type := { randomness : Z }.

Record CommitmentProof : Type := {
  t : Z;
  response_m : Z;
  response_r : Z }.

Definition _PROOF_DOMAIN_SEPARATOR : list byte :=
  py.encode "pedersen/opening-proof/v1".

Definition _pow (base exponent modulus : Z) : result Z :=
  py.pow3 base exponent modulus.

(** The loop leaves at the first attempt whose digest is not a multiple
    of [q]; attempt [2^32] cannot be written on four bytes, which ends
    the loop with [OverflowError]. *)
Definition _hash_to_scalar (seed : list byte) (q : Z) : result Z :=
  let body attempt :=
    suffix <~ py.to_bytes attempt 4 ;;
    let digest := hashlib.sha256 (seed ++ suffix) in
    scalar <~ py.mod_ (py.from_bytes digest) q ;;
    Ok (if negb (scalar =? 0) then Some scalar else None) in
  r <~ count_until (2 ^ 32 + 1)%positive body 0 ;;
  match r with
  | inl scalar => Ok scalar
  | inr _ => Raise OverflowError
  end.

Definition default_parameters : result CommitmentParameters :=
  p <~ py.int16 _P_HEX ;;
  let q := (p - 1) / 2 in
  let g := 2 in
  s <~ _hash_to_scalar (py.encode "pedersen-h-generator") q ;;
  h <~ _pow g s p ;;
  Ok {| p := p; q := q; g := g; h := h |}.

Fixpoint random_scalar_loop (fuel : nat) (params : CommitmentParameters)
    : M secrets.tape Z :=
  match fuel with
  | O => throw EntropyExhausted
  | S fuel' =>
      k <- secrets.randbelow (q params) ;;
      if negb (k =? 0) then ret k else random_scalar_loop fuel' params
  end.

(** Every iteration consumes one tape entry, so the loop runs at most
    once more than the tape is long. *)
Definition random_scalar (params : CommitmentParameters) : M secrets.tape Z :=
  fun tp => random_scalar_loop (S (List.length tp)) params tp.

Definition commit (params : CommitmentParameters) (message : Z)
    (randomness : option Z) : M secrets.tape (Commitment * CommitmentOpening) :=
  r <- match randomness with
       | Some r => ret r
       | None => random_scalar params
       end ;;
  m <- lift (py.mod_ message (q params)) ;;
  gm <- lift (_pow (g params) m (p params)) ;;
  hr <- lift (_pow (h params) r (p params)) ;;
  value <- lift (py.mod_ (gm * hr) (p params)) ;;
  ret ({| value := value |}, {| randomness := r |}).

Definition verify (params : CommitmentParameters) (commitment : Commitment)
    (message : Z) (opening : CommitmentOpening) : result bool :=
  lhs <~ py.mod_ (value commitment) (p params) ;;
  m <~ py.mod_ message (q params) ;;
  gm <~ _pow (g params) m (p params) ;;
  hr <~ _pow (h params) (randomness opening) (p params) ;;
  rhs <~ py.mod_ (gm * hr) (p params) ;;
  Ok (lhs =? rhs).

Fixpoint add_commitments_from (params : CommitmentParameters) (acc : Z)
    (commitments : list Commitment) : result Z :=
  match commitments with
  | [] => Ok acc
  | commitment :: rest =>
      acc' <~ py.mod_ (acc * value commitment) (p params) ;;
      add_commitments_from params acc' rest
  end.

Definition add_commitments (params : CommitmentParameters)
    (commitments : list Commitment) : result Commitment :=
  acc <~ add_commitments_from params 1 commitments ;;
  Ok {| value := acc |}.

Fixpoint add_messages_from (params : CommitmentParameters) (total : Z)
    (messages : list Z) : result Z :=
  match messages with
  | [] => Ok total
  | message :: rest =>
      total' <~ py.mod_ (total + message) (q params) ;;
      add_messages_from params total' rest
  end.

Definition add_messages (params : CommitmentParameters) (messages : list Z)
    : result Z :=
  add_messages_from params 0 messages.

Fixpoint add_openings_from (params : CommitmentParameters) (total : Z)
    (openings : list CommitmentOpening) : result Z :=
  match openings with
  | [] => Ok total
  | opening :: rest =>
      total' <~ py.mod_ (total + randomness opening) (q params) ;;
      add_openings_from params total' rest
  end.

Definition add_openings (params : CommitmentParameters)
    (openings : list CommitmentOpening) : result CommitmentOpening :=
  total <~ add_openings_from params 0 openings ;;
  Ok {| randomness := total |}.

Definition negate_commitment (params : CommitmentParameters)
    (commitment : Commitment) : result Commitment :=
  inverse <~ _pow (value commitment) (p params - 2) (p params) ;;
  Ok {| value := inverse |}.

Definition commitment_difference (params : CommitmentParameters)
    (left right : Commitment) : result Commitment :=
  negated <~ negate_commitment params right ;;
  add_commitments params [left; negated].

Definition serialize_commitment (commitment : Commitment) : string :=
  py.format_x (value commitment).

Definition deserialize_commitment (hex_value : string) : result Commitment :=
  v <~ py.int16 hex_value ;; Ok {| value := v |}.

Definition serialize_opening (opening : CommitmentOpening) : string :=
  py.format_x (randomness opening).

Definition deserialize_opening (hex_value : string) : result CommitmentOpening :=
  v <~ py.int16 hex_value ;; Ok {| randomness := v |}.

Definition _int_to_bytes (value : Z) (length : Z) : result (list byte) :=
  py.to_bytes value (Z.to_nat length).

Definition _commitment_byte_length (params : CommitmentParameters) : Z :=
  (py.bit_length (p params) + 7) / 8.

(** The incremental hasher digests the concatenation of its updates. *)
Definition _compute_challenge (params : CommitmentParameters)
    (commitment : Commitment) (t_value : Z) (context : list byte) : result Z :=
  let byte_length := _commitment_byte_length params in
  c <~ py.mod_ (value commitment) (p params) ;;
  c_bytes <~ _int_to_bytes c byte_length ;;
  t_red <~ py.mod_ t_value (p params) ;;
  t_bytes <~ _int_to_bytes t_red byte_length ;;
  let digest :=
    hashlib.sha256 (_PROOF_DOMAIN_SEPARATOR ++ context ++ c_bytes ++ t_bytes) in
  challenge <~ py.mod_ (py.from_bytes digest) (q params) ;;
  if challenge =? 0 then Ok 1 else Ok challenge.

Definition prove_opening (params : CommitmentParameters) (message : Z)
    (opening : CommitmentOpening) (commitment : Commitment)
    (context : list byte) : M secrets.tape CommitmentProof :=
  w_m <- random_scalar params ;;
  w_r <- random_scalar params ;;
  gw <- lift (_pow (g params) w_m (p params)) ;;
  hw <- lift (_pow (h params) w_r (p params)) ;;
  t_value <- lift (py.mod_ (gw * hw) (p params)) ;;
  challenge <- lift (_compute_challenge params commitment t_value context) ;;
  m <- lift (py.mod_ message (q params)) ;;
  response_m <- lift (py.mod_ (w_m + challenge * m) (q params)) ;;
  response_r <- lift (py.mod_ (w_r + challenge * randomness opening) (q params)) ;;
  ret {| t := t_value; response_m := response_m; response_r := response_r |}.

Definition verify_opening_proof (params : CommitmentParameters)
    (commitment : Commitment) (proof : CommitmentProof)
    (context : list byte) : result bool :=
  challenge <~ _compute_challenge params commitment (t proof) context ;;
  gm <~ _pow (g params) (response_m proof) (p params) ;;
  hr <~ _pow (h params) (response_r proof) (p params) ;;
  left <~ py.mod_ (gm * hr) (p params) ;;
  c <~ py.mod_ (value commitment) (p params) ;;
  cc <~ _pow c challenge (p params) ;;
  right <~ py.mod_ (t proof * cc) (p params) ;;
  Ok (left =? right).

Definition serialize_proof (proof : CommitmentProof) : dict.t string :=
  [ ("t", py.format_x (t proof));
    ("response_m", py.format_x (response_m proof));
    ("response_r", py.format_x (response_r proof)) ].

(** [int(x, 16)] of a value that is not a string is a [TypeError]. *)
Definition int16_of (x : pyobj.object) : result Z :=
  match pyobj.as_str x with
  | Some s => py.int16 s
  | None => Raise TypeError
  end.

Definition deserialize_proof (data : dict.t pyobj.object) : result CommitmentProof :=
  t_obj <~ dict.getitem data "t" ;;
  t_val <~ int16_of t_obj ;;
  m_obj <~ dict.getitem data "response_m" ;;
  m_val <~ int16_of m_obj ;;
  r_obj <~ dict.getitem data "response_r" ;;
  r_val <~ int16_of r_obj ;;
  Ok {| t := t_val; response_m := m_val; response_r := r_val |}.

End pedersen.

(* ===================================================================== *)
(** * [crypto/signing.py] *)
(* ===================================================================== *)

(** PyNaCl's Ed25519 is outside the repository: it is an interface here.
    [nacl_sign] is the detached signature [SigningKey.sign(message).signature];
    [nacl_verify] is [crypto_sign_open] on a signature and a message:
    [true] when it returns and [false] when it raises
    [BadSignatureError]. *)
Class Ed25519 : Type := {
  nacl_signing_key : Type;
  nacl_verify_key : Type;
  nacl_public : nacl_signing_key -> nacl_verify_key;
  nacl_sign : nacl_signing_key -> list byte -> list byte;
  nacl_verify : nacl_verify_key -> list byte -> list byte -> bool }.

(** [nacl.bindings.crypto_sign_BYTES] *)
Definition crypto_sign_BYTES : nat := 64.

(** The laws of the interface the protocol relies on: a signature has
    [crypto_sign_BYTES] bytes and verifies under the public key. *)
Class Ed25519Correct (E : Ed25519) : Prop := {
  nacl_sign_length : forall sk message,
    List.length (nacl_sign sk message) = crypto_sign_BYTES;
  nacl_sign_verify : forall sk message,
    nacl_verify (nacl_public sk) message (nacl_sign sk message) = true }.

(** PyNaCl's [VerifyKey.verify(message, signature)] for a signature given
    as [bytes]: a signature that is not [crypto_sign_BYTES] long is
    [nacl.exceptions.ValueError], a subclass of the builtin [ValueError];
    otherwise the method returns ([Ok true]) or raises
    [BadSignatureError] ([Ok false]). *)
Definition nacl_VerifyKey_verify {E : Ed25519} (vk : nacl_verify_key)
    (message signature : list byte) : result bool :=
  if Nat.eqb (List.length signature) crypto_sign_BYTES
  then Ok (nacl_verify vk message signature)
  else Raise ValueError.

Module signing.
Section WithEd25519.
Context {E : Ed25519}.

Record Signature : Type := { value : list byte }.

Record VerifyKey : Type := { vk_key : nacl_verify_key }.

Record SigningKey : Type := { sk_key : nacl_signing_key }.

Definition verify_key (self : SigningKey) : VerifyKey :=
  {| vk_key := nacl_public (sk_key self) |}.

Definition SigningKey_sign (self : SigningKey) (message : list byte) : Signature :=
  {| value := nacl_sign (sk_key self) message |}.

(** [except BadSignatureError] turns that exception into [False]; the
    [ValueError] for a signature of another length is not caught. *)
Definition VerifyKey_verify (self : VerifyKey) (message : list byte)
    (signature : Signature) : result bool :=
  nacl_VerifyKey_verify (vk_key self) message (value signature).

Definition Signature_to_hex (self : Signature) : string :=
  py.hex (value self).

(** [bytes.fromhex] of a value that is not a string is a [TypeError]. *)
Definition Signature_from_hex (x : pyobj.object) : result Signature :=
  match pyobj.as_str x with
  | Some s => bs <~ py.fromhex s ;; Ok {| value := bs |}
  | None => Raise TypeError
  end.

Definition sign (message : list byte) (signing_key : SigningKey) : Signature :=
  SigningKey_sign signing_key message.

Definition verify (message : list byte) (signature : Signature)
    (verify_key : VerifyKey) : result bool :=
  VerifyKey_verify verify_key message signature.
End WithEd25519.
End signing.

(* ===================================================================== *)
(** * [protocol/channel.py] *)
(* ===================================================================== *)

(** Focus a computation on a component of the store. *)
Definition zoom {S T A} (proj : S -> T) (upd : T -> S -> S) (c : M T A) : M S A :=
  fun s => let (r, t') := c (proj s) in (r, upd t' s).

Module channel.
Section WithEd25519.
Context {E : Ed25519}.

Definition ParticipantId : Type := string.

Definition compute_state_digest (channel_id : string) (sequence : Z)
    (commitments : dict.t pedersen.Commitment) : list byte :=
  let pieces :=
    [channel_id; py.str sequence]
    ++ List.flat_map
         (fun participant_id =>
            match dict.get commitments participant_id with
            | Some c => [pedersen.serialize_commitment c]
            | None => []
            end)
         (py.sorted (dict.keys commitments)) in
  hashlib.sha256 (py.encode (py.join "|" pieces)).

Definition proof_context (channel_id : string) (sequence : Z)
    (participant_id : ParticipantId) : list byte :=
  py.encode (channel_id ++ "|" ++ py.str sequence ++ "|" ++ participant_id
             ++ "|opening-proof").

Record ChannelParticipant : Type := {
  participant_id : ParticipantId;
  signing_key : signing.SigningKey }.

Definition verify_key (self : ChannelParticipant) : signing.VerifyKey :=
  signing.verify_key (signing_key self).

Record ChannelState : Type := {
  sequence : Z;
  balances : dict.t Z;
  commitments : dict.t pedersen.Commitment;
  openings : dict.t pedersen.CommitmentOpening;
  proofs : dict.t pedersen.CommitmentProof;
  signatures : dict.t signing.Signature }.

Definition clone (self : ChannelState) : ChannelState :=
  {| sequence := sequence self;
     balances := dict.map_values (fun b => b) (balances self);
     commitments :=
       dict.map_values (fun c => {| pedersen.value := pedersen.value c |})
         (commitments self);
     openings :=
       dict.map_values
         (fun o => {| pedersen.randomness := pedersen.randomness o |})
         (openings self);
     proofs :=
       dict.map_values
         (fun pr => {| pedersen.t := pedersen.t pr;
                       pedersen.response_m := pedersen.response_m pr;
                       pedersen.response_r := pedersen.response_r pr |})
         (proofs self);
     signatures :=
       dict.map_values (fun sg => {| signing.value := signing.value sg |})
         (signatures self) |}.

Record Channel : Type := {
  channel_id : string;
  params : pedersen.CommitmentParameters;
  participants : dict.t ChannelParticipant;
  state : ChannelState;
  history : list ChannelState }.

(** The dataclass constructor followed by [__post_init__]. *)
Definition Channel_init (channel_id : string)
    (params : pedersen.CommitmentParameters)
    (participants : dict.t ChannelParticipant) (state : ChannelState)
    (history : list ChannelState) : Channel :=
  {| channel_id := channel_id; params := params;
     participants := participants; state := state;
     history := match history with
                | [] => [clone state]
                | _ => history
                end |}.

Definition _other (participant_id : ParticipantId) : result ParticipantId :=
  if String.eqb participant_id "alice" then Ok "bob"
  else if String.eqb participant_id "bob" then Ok "alice"
  else Raise (InvalidParticipantError participant_id).

(** What [Channel.open] draws from outside: the entropy behind
    [random_scalar], the keys [SigningKey.generate()] returns and the
    texts [str(uuid4())] returns. *)
Record world : Type := {
  entropy : secrets.tape;
  fresh_keys : list signing.SigningKey;
  fresh_uuids : list string }.

Definition set_entropy (tp : secrets.tape) (w : world) : world :=
  {| entropy := tp; fresh_keys := fresh_keys w; fresh_uuids := fresh_uuids w |}.

Definition with_entropy {A} (c : M secrets.tape A) : M world A :=
  zoom entropy set_entropy c.

Definition SigningKey_generate : M world signing.SigningKey :=
  fun w => match fresh_keys w with
           | [] => (Raise EntropyExhausted, w)
           | k :: rest =>
               (Ok k, {| entropy := entropy w; fresh_keys := rest;
                         fresh_uuids := fresh_uuids w |})
           end.

Definition uuid4_str : M world string :=
  fun w => match fresh_uuids w with
           | [] => (Raise EntropyExhausted, w)
           | u :: rest =>
               (Ok u, {| entropy := entropy w; fresh_keys := fresh_keys w;
                         fresh_uuids := rest |})
           end.

(** The three dictionaries the loop of [open] fills. *)
Definition opened : Type :=
  (dict.t pedersen.Commitment * dict.t pedersen.CommitmentOpening
   * dict.t pedersen.CommitmentProof)%type.

Fixpoint open_loop (params : pedersen.CommitmentParameters)
    (channel_id : string) (items : list (string * Z)) (acc : opened)
    : M world opened :=
  match items with
  | [] => ret acc
  | (pid, balance) :: rest =>
      let '(commitments, openings, proofs) := acc in
      co <- with_entropy (pedersen.commit params balance None) ;;
      let commitment := fst co in
      let opening := snd co in
      let commitments := dict.set commitments pid commitment in
      let openings := dict.set openings pid opening in
      let context := proof_context channel_id 0 pid in
      proof <- with_entropy
                 (pedersen.prove_opening params balance opening commitment context) ;;
      ok <- lift (pedersen.verify_opening_proof params commitment proof context) ;;
      if negb ok
      then throw (ChannelError
                    ("Initial proof generation failed for participant " ++ pid))
      else open_loop params channel_id rest
             (commitments, openings, dict.set proofs pid proof)
  end.

Definition open (deposit_alice deposit_bob : Z)
    (params : option pedersen.CommitmentParameters)
    (channel_id : option string)
    (signing_keys : option (dict.t signing.SigningKey)) : M world Channel :=
  if (deposit_alice <? 0) || (deposit_bob <? 0)
  then throw (InvalidAmountError "Deposits must be non-negative integers")
  else
    params <- match params with
              | Some ps => ret ps
              | None => lift pedersen.default_parameters
              end ;;
    channel_id <- match channel_id with
                  | Some (String c s) => ret (String c s)
                  | _ => uuid4_str
                  end ;;
    signing_keys <- match signing_keys with
                    | Some ks => ret ks
                    | None =>
                        ka <- SigningKey_generate ;;
                        kb <- SigningKey_generate ;;
                        ret (dict.of_items [("alice", ka); ("bob", kb)])
                    end ;;
    let participants :=
      dict.of_items
        (List.map (fun kv => (fst kv, {| participant_id := fst kv;
                                         signing_key := snd kv |}))
           signing_keys) in
    let balances := dict.of_items [("alice", deposit_alice); ("bob", deposit_bob)] in
    '(commitments, openings, proofs) <-
        open_loop params channel_id balances ([], [], []) ;;
    let state := {| sequence := 0; balances := balances;
                    commitments := commitments; openings := openings;
                    proofs := proofs; signatures := [] |} in
    ret (Channel_init channel_id params participants state []).

(** ** Methods: the store is the channel object and the world *)

Definition obj : Type := (Channel * world)%type.

Definition self : M obj Channel := fun s => (Ok (fst s), s).

Definition map_state (f : ChannelState -> ChannelState) (ch : Channel) : Channel :=
  {| channel_id := channel_id ch; params := params ch;
     participants := participants ch; state := f (state ch);
     history := history ch |}.

Definition map_history (f : list ChannelState -> list ChannelState)
    (ch : Channel) : Channel :=
  {| channel_id := channel_id ch; params := params ch;
     participants := participants ch; state := state ch;
     history := f (history ch) |}.

Definition set_state (f : ChannelState -> ChannelState) : M obj unit :=
  modify (fun s : obj => (map_state f (fst s), snd s)).

Definition set_history (f : list ChannelState -> list ChannelState) : M obj unit :=
  modify (fun s : obj => (map_history f (fst s), snd s)).

Definition draw {A} (c : M secrets.tape A) : M obj A :=
  zoom snd (fun w s => (fst s, w)) (with_entropy c).

Definition with_balances (b : dict.t Z) (st : ChannelState) : ChannelState :=
  {| sequence := sequence st; balances := b; commitments := commitments st;
     openings := openings st; proofs := proofs st;
     signatures := signatures st |}.

Definition with_sequence (n : Z) (st : ChannelState) : ChannelState :=
  {| sequence := n; balances := balances st; commitments := commitments st;
     openings := openings st; proofs := proofs st;
     signatures := signatures st |}.

Definition with_commitments (c : dict.t pedersen.Commitment)
    (st : ChannelState) : ChannelState :=
  {| sequence := sequence st; balances := balances st; commitments := c;
     openings := openings st; proofs := proofs st;
     signatures := signatures st |}.

Definition with_openings (o : dict.t pedersen.CommitmentOpening)
    (st : ChannelState) : ChannelState :=
  {| sequence := sequence st; balances := balances st;
     commitments := commitments st; openings := o; proofs := proofs st;
     signatures := signatures st |}.

Definition with_proofs (pr : dict.t pedersen.CommitmentProof)
    (st : ChannelState) : ChannelState :=
  {| sequence := sequence st; balances := balances st;
     commitments := commitments st; openings := openings st; proofs := pr;
     signatures := signatures st |}.

Definition with_signatures (sg : dict.t signing.Signature)
    (st : ChannelState) : ChannelState :=
  {| sequence := sequence st; balances := balances st;
     commitments := commitments st; openings := openings st;
     proofs := proofs st; signatures := sg |}.

Fixpoint _set_balances_loop (items : list (string * Z))
    (new_proofs : dict.t pedersen.CommitmentProof)
    : M obj (dict.t pedersen.CommitmentProof) :=
  match items with
  | [] => ret new_proofs
  | (pid, balance) :: rest =>
      ch <- self ;;
      co <- draw (pedersen.commit (params ch) balance None) ;;
      let commitment := fst co in
      let opening := snd co in
      set_state (fun st => with_commitments
                             (dict.set (commitments st) pid commitment) st) ;;
      set_state (fun st => with_openings
                             (dict.set (openings st) pid opening) st) ;;
      ch <- self ;;
      let context := proof_context (channel_id ch) (sequence (state ch)) pid in
      proof <- draw (pedersen.prove_opening (params ch) balance opening
                       commitment context) ;;
      ok <- lift (pedersen.verify_opening_proof (params ch) commitment proof
                    context) ;;
      if negb ok
      then throw (ChannelError
                    ("Failed to verify commitment proof for participant " ++ pid))
      else _set_balances_loop rest (dict.set new_proofs pid proof)
  end.

Definition _set_balances (balances' : dict.t Z) : M obj unit :=
  set_state (fun st => with_balances (dict.update (balances st) balances') st) ;;
  new_proofs <- _set_balances_loop balances' [] ;;
  set_state (with_proofs new_proofs) ;;
  set_state (with_signatures []).

Definition apply_payment (payer : ParticipantId) (amount : Z) : M obj ChannelState :=
  ch <- self ;;
  if negb (dict.contains (participants ch) payer)
  then throw (InvalidParticipantError payer)
  else if amount <=? 0
  then throw (InvalidAmountError "Transfer amount must be positive")
  else
    payer_balance <- lift (dict.getitem (balances (state ch)) payer) ;;
    if amount >? payer_balance
    then throw (InsufficientBalanceError
                  (payer ++ " balance " ++ py.str payer_balance
                   ++ " insufficient for transfer " ++ py.str amount))
    else
      payee <- lift (_other payer) ;;
      let balances := balances (state ch) in
      from_balance <- lift (dict.getitem balances payer) ;;
      let balances := dict.set balances payer (from_balance - amount) in
      to_balance <- lift (dict.getitem balances payee) ;;
      let balances := dict.set balances payee (to_balance + amount) in
      set_state (fun st => with_sequence (sequence st + 1) st) ;;
      _set_balances balances ;;
      ch <- self ;;
      set_history (fun hs => hs ++ [clone (state ch)]) ;;
      ch <- self ;;
      ret (state ch).

Definition state_digest (ch : Channel) : list byte :=
  compute_state_digest (channel_id ch) (sequence (state ch))
    (commitments (state ch)).

Definition sign_state (participant_id : ParticipantId) : M obj signing.Signature :=
  ch <- self ;;
  match dict.get (participants ch) participant_id with
  | None => throw (InvalidParticipantError participant_id)
  | Some participant =>
      let signature :=
        signing.SigningKey_sign (signing_key participant) (state_digest ch) in
      set_state (fun st => with_signatures
                             (dict.set (signatures st) participant_id signature) st) ;;
      ret signature
  end.

Definition is_fully_signed (ch : Channel) : bool :=
  List.forallb (fun pid => dict.contains (signatures (state ch)) pid)
    (dict.keys (participants ch)).

Fixpoint verify_signatures_loop (digest : list byte)
    (sigs : dict.t signing.Signature)
    (items : list (string * ChannelParticipant)) : result bool :=
  match items with
  | [] => Ok true
  | (pid, participant) :: rest =>
      match dict.get sigs pid with
      | None => Ok false
      | Some signature =>
          valid <~ signing.VerifyKey_verify (verify_key participant) digest signature ;;
          if negb valid
          then Ok false
          else verify_signatures_loop digest sigs rest
      end
  end.

Definition verify_signatures (ch : Channel) : result bool :=
  verify_signatures_loop (state_digest ch) (signatures (state ch))
    (participants ch).

Definition proof_object (pr : pedersen.CommitmentProof) : pyobj.object :=
  pyobj.Dict (dict.map_values pyobj.Str (pedersen.serialize_proof pr)).

Definition history_snapshots (ch : Channel) : list (dict.t pyobj.object) :=
  List.map
    (fun record =>
       [ ("sequence", pyobj.Int (sequence record));
         ("commitments",
           pyobj.Dict (dict.map_values
                         (fun c => pyobj.Str (pedersen.serialize_commitment c))
                         (commitments record)));
         ("proofs", pyobj.Dict (dict.map_values proof_object (proofs record)));
         ("signatures",
           pyobj.Dict (dict.map_values
                         (fun sg => pyobj.Str (signing.Signature_to_hex sg))
                         (signatures record))) ])
    (history ch).

Definition closing_payload (ch : Channel) : dict.t pyobj.object :=
  [ ("channel_id", pyobj.Str (channel_id ch));
    ("sequence", pyobj.Int (sequence (state ch)));
    ("balances", pyobj.Dict (dict.map_values pyobj.Int (balances (state ch))));
    ("commitments",
      pyobj.Dict (dict.map_values
                    (fun c => pyobj.Str (pedersen.serialize_commitment c))
                    (commitments (state ch))));
    ("openings",
      pyobj.Dict (dict.map_values
                    (fun o => pyobj.Str (pedersen.serialize_opening o))
                    (openings (state ch))));
    ("proofs", pyobj.Dict (dict.map_values proof_object (proofs (state ch))));
    ("signatures",
      pyobj.Dict (dict.map_values
                    (fun sg => pyobj.Str (signing.Signature_to_hex sg))
                    (signatures (state ch)))) ].

End WithEd25519.
End channel.

(* ===================================================================== *)
(** * [protocol/ledger.py] *)
(* ===================================================================== *)

Module ledger.
Section WithEd25519.
Context {E : Ed25519}.

Record LedgerRecord : Type := {
  channel_id : string;
  sequence : Z;
  commitments : dict.t pedersen.Commitment;
  verify_keys : dict.t signing.VerifyKey;
  closed : bool }.

Definition clone_commitments (self : LedgerRecord) : dict.t pedersen.Commitment :=
  dict.map_values (fun c => {| pedersen.value := pedersen.value c |})
    (commitments self).

Record SimulatedLedger : Type := {
  params : pedersen.CommitmentParameters;
  _records : dict.t LedgerRecord }.

(** [SimulatedLedger(params)] *)
Definition SimulatedLedger_init (params : option pedersen.CommitmentParameters)
    : result SimulatedLedger :=
  ps <~ match params with
        | Some ps => Ok ps
        | None => pedersen.default_parameters
        end ;;
  Ok {| params := ps; _records := [] |}.

(** [record.sequence = n; record.commitments = c] *)
Definition with_tracked_state (n : Z) (c : dict.t pedersen.Commitment)
    (record : LedgerRecord) : LedgerRecord :=
  {| channel_id := channel_id record; sequence := n; commitments := c;
     verify_keys := verify_keys record; closed := closed record |}.

(** [record.closed = b] *)
Definition with_closed (b : bool) (record : LedgerRecord) : LedgerRecord :=
  {| channel_id := channel_id record; sequence := sequence record;
     commitments := commitments record; verify_keys := verify_keys record;
     closed := b |}.

Definition set_records (f : dict.t LedgerRecord -> dict.t LedgerRecord)
    : M SimulatedLedger unit :=
  modify (fun l => {| params := params l; _records := f (_records l) |}).

Definition _require_record (channel_id : string) : M SimulatedLedger LedgerRecord :=
  l <- get ;;
  if negb (dict.contains (_records l) channel_id)
  then throw (UnknownChannelError channel_id)
  else lift (dict.getitem (_records l) channel_id).

Definition register_channel (ch : channel.Channel) : M SimulatedLedger unit :=
  set_records (fun rs =>
    dict.set rs (channel.channel_id ch)
      {| channel_id := channel.channel_id ch;
         sequence := channel.sequence (channel.state ch);
         commitments :=
           dict.map_values (fun c => {| pedersen.value := pedersen.value c |})
             (channel.commitments (channel.state ch));
         verify_keys :=
           dict.map_values channel.verify_key (channel.participants ch);
         closed := false |}).

(** The record is an object held by the dictionary: assigning to its
    fields rewrites the binding in place. *)
Definition update_state (ch : channel.Channel) : M SimulatedLedger unit :=
  record <- _require_record (channel.channel_id ch) ;;
  if channel.sequence (channel.state ch) <? sequence record
  then throw (InvalidSettlementError
                "Channel sequence regressed; refusing to update")
  else
    set_records (fun rs =>
      dict.set rs (channel.channel_id ch)
        (with_tracked_state
           (channel.sequence (channel.state ch))
           (dict.map_values (fun c => {| pedersen.value := pedersen.value c |})
              (channel.commitments (channel.state ch)))
           record)).

Definition check_commitments (record : LedgerRecord)
    (commitments_hex : dict.t pyobj.object) : result unit :=
  rfor_each (commitments record)
    (fun item =>
       let serialized := pedersen.serialize_commitment (snd item) in
       if pyobj.ne_str (pyobj.get commitments_hex (fst item)) serialized
       then Raise (InvalidSettlementError
                     ("Commitment mismatch for participant " ++ fst item))
       else Ok tt).

Definition check_participant (ps : pedersen.CommitmentParameters)
    (channel_id : string) (record : LedgerRecord) (digest : list byte)
    (openings_hex balances signatures_hex proofs_hex : dict.t pyobj.object)
    (item : string * signing.VerifyKey) : result unit :=
  let pid := fst item in
  let verify_key := snd item in
  let signature_hex := pyobj.get signatures_hex pid in
  if pyobj.is_none signature_hex
  then Raise (InvalidSettlementError ("Missing signature for participant " ++ pid))
  else
    signature <~ signing.Signature_from_hex signature_hex ;;
    valid <~ signing.VerifyKey_verify verify_key digest signature ;;
    if negb valid
    then Raise (InvalidSettlementError ("Invalid signature for participant " ++ pid))
    else
      let opening_hex := pyobj.get openings_hex pid in
      match pyobj.is_none opening_hex, pyobj.as_int (pyobj.get balances pid) with
      | false, Some balance =>
          opening <~ (v <~ pedersen.int16_of opening_hex ;;
                      Ok {| pedersen.randomness := v |}) ;;
          commitment <~ dict.getitem (commitments record) pid ;;
          opens <~ pedersen.verify ps commitment balance opening ;;
          if negb opens
          then Raise (InvalidSettlementError
                        ("Opening does not match commitment for participant " ++ pid))
          else
            match pyobj.as_dict (pyobj.get proofs_hex pid) with
            | None =>
                Raise (InvalidSettlementError
                         ("Missing proof for participant " ++ pid))
            | Some proof_blob =>
                proof <~ pedersen.deserialize_proof proof_blob ;;
                let context :=
                  channel.proof_context channel_id (sequence record) pid in
                valid <~ pedersen.verify_opening_proof ps commitment proof context ;;
                if negb valid
                then Raise (InvalidSettlementError
                              ("Invalid commitment proof for participant " ++ pid))
                else Ok tt
            end
      | _, _ =>
          Raise (InvalidSettlementError
                   ("Missing opening or balance for participant " ++ pid))
      end.

Definition cooperative_close (payload : dict.t pyobj.object)
    : M SimulatedLedger (dict.t pyobj.object) :=
  match pyobj.as_str (pyobj.get payload "channel_id") with
  | None => throw (InvalidSettlementError "Missing channel_id in close payload")
  | Some channel_id =>
      record <- _require_record channel_id ;;
      if closed record
      then throw (InvalidSettlementError "Channel already settled")
      else
        match pyobj.as_int (pyobj.get payload "sequence") with
        | None => throw (InvalidSettlementError "Sequence mismatch during settlement")
        | Some sequence' =>
            if negb (sequence' =? sequence record)
            then throw (InvalidSettlementError "Sequence mismatch during settlement")
            else
              let balances := pyobj.get payload "balances" in
              match pyobj.as_dict (pyobj.get payload "commitments"),
                    pyobj.as_dict (pyobj.get payload "openings"),
                    pyobj.as_dict balances with
              | Some commitments_hex, Some openings_hex, Some balances_dict =>
                  match pyobj.as_dict (pyobj.get payload "signatures") with
                  | None => throw (InvalidSettlementError
                                     "Missing signatures in close payload")
                  | Some signatures_hex =>
                      match pyobj.as_dict (pyobj.get payload "proofs") with
                      | None => throw (InvalidSettlementError
                                         "Missing proofs in close payload")
                      | Some proofs_hex =>
                          lift (check_commitments record commitments_hex) ;;
                          let digest :=
                            channel.compute_state_digest channel_id
                              (sequence record) (commitments record) in
                          l <- get ;;
                          lift (rfor_each (verify_keys record)
                                  (check_participant (params l) channel_id record
                                     digest openings_hex balances_dict
                                     signatures_hex proofs_hex)) ;;
                          set_records (fun rs =>
                            dict.set rs channel_id (with_closed true record)) ;;
                          ret [ ("channel_id", pyobj.Str channel_id);
                                ("sequence", pyobj.Int (sequence record));
                                ("settled_balances", balances);
                                ("verified", pyobj.Bool true) ]
                      end
                  end
              | _, _, _ => throw (InvalidSettlementError "Malformed close payload")
              end
        end
  end.

End WithEd25519.
End ledger.


(* ===================================================================== *)
(** * Vocabulary of the statements *)
(* ===================================================================== *)

(** [pow_mod_pos] on machine-word trees: the same recursion, used to
    evaluate the 768-bit exponentiations of the default parameters. *)
Fixpoint big_pow_mod_pos (b : bigN) (e : positive) (m : bigN) : bigN :=
  match e with
  | xH => BigN.modulo b m
  | xO e' =>
      let r := big_pow_mod_pos b e' m in BigN.modulo (BigN.mul r r) m
  | xI e' =>
      let r := big_pow_mod_pos b e' m in
      BigN.modulo (BigN.mul (BigN.modulo (BigN.mul r r) m) b) m
  end.

(** The value [int(_P_HEX, 16)]. *)
Definition default_p : Z :=
  Eval vm_compute in
    match py.int16 pedersen._P_HEX with Ok v => v | Raise _ => 0 end.

Definition default_q : Z := Eval vm_compute in (default_p - 1) / 2.

(** The scalar [_hash_to_scalar(b"pedersen-h-generator", q)]. *)
Definition default_s : Z :=
  Eval vm_compute in
    match pedersen._hash_to_scalar (py.encode "pedersen-h-generator") default_q with
    | Ok v => v
    | Raise _ => 0
    end.

Definition default_h : Z :=
  Eval vm_compute in
    BigN.to_Z (big_pow_mod_pos (BigN.of_pos 2) (Z.to_pos default_s)
                 (BigN.of_pos (Z.to_pos default_p))).

(** The record [default_parameters()] returns, see [default_parameters_eq]. *)
Definition default_params : pedersen.CommitmentParameters :=
  {| pedersen.p := default_p; pedersen.q := default_q;
     pedersen.g := 2; pedersen.h := default_h |}.

(** The power of a subgroup element with the exponent read modulo [q]. *)
Definition gexp (params : pedersen.CommitmentParameters) (b e : Z) : Z :=
  b ^ (e mod pedersen.q params) mod pedersen.p params.

(** Both generators lie in a subgroup of [Z_p^*] whose order divides [q]. *)
Record subgroup_params (params : pedersen.CommitmentParameters) : Prop := {
  modulus_gt_1 : 1 < pedersen.p params;
  order_pos : 0 < pedersen.q params;
  g_order : pedersen.g params ^ pedersen.q params mod pedersen.p params = 1;
  h_order : pedersen.h params ^ pedersen.q params mod pedersen.p params = 1 }.

(** A subgroup of prime order [q] with a generator [g] that is not the
    identity: then [g] has order exactly [q]. *)
Record prime_order_params (params : pedersen.CommitmentParameters) : Prop := {
  is_subgroup : subgroup_params params;
  order_prime : Z.prime (pedersen.q params);
  g_nontrivial : pedersen.g params mod pedersen.p params <> 1 }.

(** A small group of the same shape: [23 = 2 * 11 + 1], and [2] and [3]
    have order [11] modulo [23]. *)
Definition toy_params : pedersen.CommitmentParameters :=
  {| pedersen.p := 23; pedersen.q := 11; pedersen.g := 2; pedersen.h := 3 |}.

Fixpoint bytes_eqb (a b : list byte) : bool :=
  match a, b with
  | [], [] => true
  | x :: a', y :: b' => Byte.eqb x y && bytes_eqb a' b'
  | _, _ => false
  end.

(** A keyed tag in place of Ed25519, enough to run the protocol on: the
    public key is the successor of the secret key and a signature is the
    first 64 bytes of the message behind the public key's low byte, filled
    up with zeros. *)
Definition toy_tag (vk : Z) (message : list byte) : list byte :=
  List.firstn crypto_sign_BYTES
    (py.byte_of_Z vk :: message ++ List.repeat x00 crypto_sign_BYTES).

Definition toy_ed25519 : Ed25519 :=
  {| nacl_signing_key := Z;
     nacl_verify_key := Z;
     nacl_public := fun sk => sk + 1;
     nacl_sign := fun sk message => toy_tag (sk + 1) message;
     nacl_verify := fun vk message signature =>
       bytes_eqb signature (toy_tag vk message) |}.

(** The commitment value [g^m * h^r mod p], exponents read modulo [q]. *)
Definition cval (params : pedersen.CommitmentParameters) (m r : Z) : Z :=
  (gexp params (pedersen.g params) m * gexp params (pedersen.h params) r)
  mod pedersen.p params.

(** The Fiat-Shamir challenge, [1] where [_compute_challenge] raises. *)
Definition challenge (params : pedersen.CommitmentParameters)
    (commitment : pedersen.Commitment) (t_value : Z) (context : list byte) : Z :=
  match pedersen._compute_challenge params commitment t_value context with
  | Ok c => c
  | Raise _ => 1
  end.

(** The proof [prove_opening] builds from the nonces [w_m] and [w_r]. *)
Definition proof_for (params : pedersen.CommitmentParameters) (message : Z)
    (opening : pedersen.CommitmentOpening) (commitment : pedersen.Commitment)
    (context : list byte) (w_m w_r : Z) : pedersen.CommitmentProof :=
  let t_value := cval params w_m w_r in
  let c := challenge params commitment t_value context in
  {| pedersen.t := t_value;
     pedersen.response_m :=
       (w_m + c * (message mod pedersen.q params)) mod pedersen.q params;
     pedersen.response_r :=
       (w_r + c * pedersen.randomness opening) mod pedersen.q params |}.

(** The tape holds at least [n] entries that are not multiples of [q],
    that is, [random_scalar] can return [n] times. *)
Fixpoint usable (q : Z) (n : nat) (tp : secrets.tape) {struct tp} : bool :=
  match n, tp with
  | O, _ => true
  | S _, [] => false
  | S n', k :: rest =>
      if k mod q =? 0 then usable q n rest else usable q n' rest
  end.

(** ** Relational frames and the channel vocabulary *)

(** Every run of [c] relates the store before to the store after. *)
Definition preserves {S A} (R : S -> S -> Prop) (c : M S A) : Prop :=
  forall s r s', c s = (r, s') -> R s s'.

Section ChannelVocabulary.
Context {E : Ed25519}.

(** What the proving loop of [_set_balances] leaves alone: everything but
    the commitments, the openings and the world. *)
Definition crypto_frame (s s' : channel.obj) : Prop :=
  channel.channel_id (fst s') = channel.channel_id (fst s)
  /\ channel.params (fst s') = channel.params (fst s)
  /\ channel.participants (fst s') = channel.participants (fst s)
  /\ channel.history (fst s') = channel.history (fst s)
  /\ channel.sequence (channel.state (fst s'))
     = channel.sequence (channel.state (fst s))
  /\ channel.balances (channel.state (fst s'))
     = channel.balances (channel.state (fst s))
  /\ channel.proofs (channel.state (fst s'))
     = channel.proofs (channel.state (fst s))
  /\ channel.signatures (channel.state (fst s'))
     = channel.signatures (channel.state (fst s)).

(** The balances are held under the two fixed roles and add up to [total]. *)
Definition conserved (total : Z) (ch : channel.Channel) : Prop :=
  exists a b,
    channel.balances (channel.state ch) = [("alice", a); ("bob", b)]
    /\ a + b = total.

(** [apply_payment] once per entry, in order; an exception ends the run. *)
Definition apply_payments (calls : list (string * Z)) : M channel.obj unit :=
  for_each calls (fun call => channel.apply_payment (fst call) (snd call) ;; ret tt).

(** The participants are the two fixed roles. *)
Definition standard_participants (ch : channel.Channel) : Prop :=
  forall pid, dict.contains (channel.participants ch) pid = true
              <-> pid = "alice" \/ pid = "bob".
End ChannelVocabulary.

Section RunVocabulary.
Context {E : Ed25519}.

(** The channel after one round of [_set_balances]' loop. *)
Definition recommitted (pid : string) (c : pedersen.Commitment)
    (o : pedersen.CommitmentOpening) (ch : channel.Channel) : channel.Channel :=
  channel.map_state
    (fun st => channel.with_openings (dict.set (channel.openings st) pid o) st)
    (channel.map_state
       (fun st => channel.with_commitments
                    (dict.set (channel.commitments st) pid c) st) ch).

Definition slot_commitment (ps : pedersen.CommitmentParameters) (balance r : Z)
    : pedersen.Commitment :=
  {| pedersen.value := cval ps balance r |}.

Definition slot_opening (r : Z) : pedersen.CommitmentOpening :=
  {| pedersen.randomness := r |}.

Definition slot_proof (ps : pedersen.CommitmentParameters) (cid : string)
    (seq : Z) (pid : string) (balance r w_m w_r : Z) : pedersen.CommitmentProof :=
  proof_for ps balance (slot_opening r) (slot_commitment ps balance r)
    (channel.proof_context cid seq pid) w_m w_r.

(** The three scalars drawn for one participant: the opening and the two
    nonces of the proof. *)
Definition draws : Type := (Z * Z * Z)%type.

(** The state in which both balances are committed to and proved under
    the given draws. *)
Definition proven_state (ps : pedersen.CommitmentParameters) (cid : string)
    (seq a b : Z) (da db : draws) (sigs : dict.t signing.Signature)
    : channel.ChannelState :=
  let '(r1, m1, s1) := da in
  let '(r2, m2, s2) := db in
  {| channel.sequence := seq;
     channel.balances := [("alice", a); ("bob", b)];
     channel.commitments :=
       [("alice", slot_commitment ps a r1); ("bob", slot_commitment ps b r2)];
     channel.openings := [("alice", slot_opening r1); ("bob", slot_opening r2)];
     channel.proofs :=
       [("alice", slot_proof ps cid seq "alice" a r1 m1 s1);
        ("bob", slot_proof ps cid seq "bob" b r2 m2 s2)];
     channel.signatures := sigs |}.

Definition in_range (ps : pedersen.CommitmentParameters) (d : draws) : Prop :=
  0 < fst (fst d) < pedersen.q ps.

(** The three dictionaries of the state hold the two roles, in order. *)
Definition shaped (st : channel.ChannelState) : Prop :=
  (exists a b, channel.balances st = [("alice", a); ("bob", b)])
  /\ (exists c1 c2, channel.commitments st = [("alice", c1); ("bob", c2)])
  /\ (exists o1 o2, channel.openings st = [("alice", o1); ("bob", o2)]).

(** The channels this development speaks about: opened by [Channel.open]
    with the two standard signing keys (its own or supplied) on parameters
    that form a subgroup (the default ones or supplied), and every channel
    a successful [apply_payment] or [sign_state] leads to from there. *)
Inductive reachable : channel.Channel -> Prop :=
| reach_open dA dB popt cid keys w ch w' :
    match popt with Some ps => subgroup_params ps | None => True end ->
    match keys with
    | Some ks => dict.keys ks = ["alice"; "bob"]
    | None => True
    end ->
    channel.open dA dB popt cid keys w = (Ok ch, w') ->
    reachable ch
| reach_pay ch w payer amount st ch' w' :
    reachable ch ->
    channel.apply_payment payer amount (ch, w) = (Ok st, (ch', w')) ->
    reachable ch'
| reach_sign ch w pid sg ch' w' :
    reachable ch ->
    channel.sign_state pid (ch, w) = (Ok sg, (ch', w')) ->
    reachable ch'.


(** The participants built from a dictionary of signing keys. *)
Definition participants_of (ks : dict.t signing.SigningKey)
    : dict.t channel.ChannelParticipant :=
  dict.of_items
    (List.map (fun kv => (fst kv, {| channel.participant_id := fst kv;
                                     channel.signing_key := snd kv |})) ks).

(** The balances after [payer] paid [amount]. *)
Definition paid (payer : string) (amount a b : Z) : Z * Z :=
  if String.eqb payer "alice" then (a - amount, b + amount)
  else (a + amount, b - amount).
End RunVocabulary.

Arguments cval : simpl never.
Arguments gexp : simpl never.
Arguments challenge : simpl never.
Arguments proof_for : simpl never.
Arguments slot_commitment : simpl never.
Arguments slot_opening : simpl never.
Arguments slot_proof : simpl never.
Arguments hashlib.sha256 : simpl never.
Arguments py.format_x : simpl never.
Arguments py.str : simpl never.
Arguments py.hex : simpl never.
Arguments py.int16 : simpl never.
Arguments py.fromhex : simpl never.
Arguments py.encode : simpl never.
Arguments channel.compute_state_digest : simpl never.
Arguments channel.proof_context : simpl never.
Arguments pedersen.verify : simpl never.
Arguments pedersen.verify_opening_proof : simpl never.
Arguments pedersen.commit : simpl never.
Arguments pedersen.prove_opening : simpl never.
Arguments pedersen.random_scalar : simpl never.

Section LedgerVocabulary.
Context {E : Ed25519}.

(** The record the validator holds for a standard channel. *)
Definition tracked_record (ps : pedersen.CommitmentParameters) (cid : string)
    (seq a b : Z) (da db : draws) (ka kb : signing.SigningKey) (closed : bool)
    : ledger.LedgerRecord :=
  {| ledger.channel_id := cid;
     ledger.sequence := seq;
     ledger.commitments :=
       [("alice", slot_commitment ps a (fst (fst da)));
        ("bob", slot_commitment ps b (fst (fst db)))];
     ledger.verify_keys :=
       [("alice", signing.verify_key ka); ("bob", signing.verify_key kb)];
     ledger.closed := closed |}.

(** The two signatures over the digest of a standard state. *)
Definition cosignatures (ps : pedersen.CommitmentParameters) (cid : string)
    (seq a b : Z) (da db : draws) (ka kb : signing.SigningKey)
    : dict.t signing.Signature :=
  let digest :=
    channel.compute_state_digest cid seq
      [("alice", slot_commitment ps a (fst (fst da)));
       ("bob", slot_commitment ps b (fst (fst db)))] in
  [("alice", signing.SigningKey_sign ka digest);
   ("bob", signing.SigningKey_sign kb digest)].
End LedgerVocabulary.

Arguments signing.SigningKey_sign : simpl never.
Arguments signing.VerifyKey_verify : simpl never.
Arguments signing.Signature_to_hex : simpl never.
Arguments signing.Signature_from_hex : simpl never.
Arguments pedersen.serialize_commitment : simpl never.
Arguments pedersen.serialize_opening : simpl never.
Arguments pedersen.deserialize_proof : simpl never.
Arguments pedersen.int16_of : simpl never.

(** ** A concrete run on the small group *)

Definition toy_world : @channel.world toy_ed25519 :=
  {| channel.entropy := [17; 0; 5; 22; 9; 3; 11; 14; 8; 2; 33; 6; 4; 7; 19; 21;
                         13; 1; 12; 16; 10; 15; 18; 20; 23; 24; 25; 26];
     channel.fresh_keys := [ {| signing.sk_key := (5 : @nacl_signing_key toy_ed25519) |};
                             {| signing.sk_key := (9 : @nacl_signing_key toy_ed25519) |} ];
     channel.fresh_uuids := ["6f1c2a9e-toy"] |}.

Definition empty_state : channel.ChannelState :=
  {| channel.sequence := 0; channel.balances := []; channel.commitments := [];
     channel.openings := []; channel.proofs := []; channel.signatures := [] |}.

Definition empty_channel : @channel.Channel toy_ed25519 :=
  channel.Channel_init "" toy_params [] empty_state [].

(** The channel of a run, [empty_channel] if it raised. *)
Definition channel_of {A} (run : result A * @channel.obj toy_ed25519)
    : @channel.Channel toy_ed25519 :=
  match run with
  | (Ok _, (ch, _)) => ch
  | (Raise _, _) => empty_channel
  end.

Definition world_of {A} (run : result A * @channel.obj toy_ed25519)
    : @channel.world toy_ed25519 :=
  snd (snd run).

(** [Channel.open(200, 50, params=toy_params)] *)
Definition toy_opened : result (@channel.Channel toy_ed25519) * @channel.world toy_ed25519 :=
  Eval vm_compute in channel.open 200 50 (Some toy_params) None None toy_world.

Definition toy_channel : @channel.Channel toy_ed25519 :=
  Eval vm_compute in
    match toy_opened with (Ok ch, _) => ch | (Raise _, _) => empty_channel end.

Definition toy_world1 : @channel.world toy_ed25519 :=
  Eval vm_compute in snd toy_opened.

(** Both participants sign the opening state. *)
Definition toy_signed : @channel.Channel toy_ed25519 :=
  Eval vm_compute in
    channel_of (channel.sign_state "bob"
                  (channel_of (channel.sign_state "alice" (toy_channel, toy_world1)),
                   toy_world1)).

(** Alice pays 25. *)
Definition toy_paid : @channel.Channel toy_ed25519 :=
  Eval vm_compute in
    channel_of (channel.apply_payment "alice" 25 (toy_signed, toy_world1)).

Definition toy_world2 : @channel.world toy_ed25519 :=
  Eval vm_compute in
    world_of (channel.apply_payment "alice" 25 (toy_signed, toy_world1)).

(** Then bob pays 10. *)
Definition toy_paid_twice : @channel.Channel toy_ed25519 :=
  Eval vm_compute in
    channel_of (channel.apply_payment "bob" 10 (toy_paid, toy_world2)).

Definition toy_world3 : @channel.world toy_ed25519 :=
  Eval vm_compute in
    world_of (channel.apply_payment "bob" 10 (toy_paid, toy_world2)).

(** The validator after registering the toy channel at sequence 0 and
    updating it to the state after alice's payment, at sequence 1. *)
Definition toy_ledger : @ledger.SimulatedLedger toy_ed25519 :=
  Eval vm_compute in
    snd (ledger.update_state toy_paid
           (snd (ledger.register_channel toy_channel
                   {| ledger.params := toy_params; ledger._records := [] |}))).

Definition empty_record : @ledger.LedgerRecord toy_ed25519 :=
  {| ledger.channel_id := ""; ledger.sequence := 0; ledger.commitments := [];
     ledger.verify_keys := []; ledger.closed := false |}.

Definition toy_record : @ledger.LedgerRecord toy_ed25519 :=
  Eval vm_compute in
    match dict.get (ledger._records toy_ledger) "6f1c2a9e-toy" with
    | Some record => record
    | None => empty_record
    end.

(** The four facts of [subgroup_params], as hypotheses. *)
Ltac subgroup_facts G :=
  pose proof (modulus_gt_1 _ G) as HP;
  pose proof (order_pos _ G) as HQ;
  pose proof (g_order _ G) as Hg;
  pose proof (h_order _ G) as Hh.

(* ===================================================================== *)
(** * Further vocabulary: invariants of reachable channels *)
(* ===================================================================== *)

(** [signing.generate_keypair()]: the signing key comes from the world. *)
Definition generate_keypair {E : Ed25519}
    : M channel.world (signing.SigningKey * signing.VerifyKey) :=
  sk <- channel.SigningKey_generate ;;
  ret (sk, signing.verify_key sk).

Section InvariantVocabulary.
Context {E : Ed25519}.

(** The two fixed roles under their signing keys. *)
Definition two_party (ka kb : signing.SigningKey)
    : dict.t channel.ChannelParticipant :=
  [("alice", {| channel.participant_id := "alice"; channel.signing_key := ka |});
   ("bob", {| channel.participant_id := "bob"; channel.signing_key := kb |})].

(** The form of a channel that [Channel.open], [apply_payment] and
    [sign_state] maintain: both balances are non-negative, committed to and
    proved at the current sequence number; the history holds one unsigned
    state per sequence number and ends with the current one; every stored
    signature is the participant's signature of the current digest. *)
Definition coherent (ch : channel.Channel) : Prop :=
  exists seq a b da db sigs ka kb,
    subgroup_params (channel.params ch)
    /\ channel.participants ch = two_party ka kb
    /\ channel.state ch
       = proven_state (channel.params ch) (channel.channel_id ch) seq a b da db sigs
    /\ in_range (channel.params ch) da /\ in_range (channel.params ch) db
    /\ 0 <= a /\ 0 <= b /\ 0 <= seq
    /\ List.length (channel.history ch) = S (Z.to_nat seq)
    /\ (forall i st,
          nth_error (channel.history ch) i = Some st ->
          exists a' b' da' db',
            st = proven_state (channel.params ch) (channel.channel_id ch)
                   (Z.of_nat i) a' b' da' db' [])
    /\ nth_error (channel.history ch) (Z.to_nat seq)
       = Some (proven_state (channel.params ch) (channel.channel_id ch)
                 seq a b da db [])
    /\ (forall pid sg,
          dict.get sigs pid = Some sg ->
          exists participant,
            dict.get (two_party ka kb) pid = Some participant
            /\ sg = signing.SigningKey_sign (channel.signing_key participant)
                      (channel.state_digest ch)).
End InvariantVocabulary.

Section LedgerInvariantVocabulary.
Context {E : Ed25519}.

(** The ledger holds an open record of the channel's current state: its
    sequence number, its commitments and the participants' verify keys,
    on the channel's parameters. *)
Definition tracks (l : ledger.SimulatedLedger) (ch : channel.Channel) : Prop :=
  ledger.params l = channel.params ch
  /\ exists record,
       dict.get (ledger._records l) (channel.channel_id ch) = Some record
       /\ ledger.sequence record = channel.sequence (channel.state ch)
       /\ ledger.commitments record = channel.commitments (channel.state ch)
       /\ ledger.verify_keys record
          = dict.map_values channel.verify_key (channel.participants ch)
       /\ ledger.closed record = false.
End LedgerInvariantVocabulary.

(** ** More of the run on the small group *)

(** Both participants sign the state after alice's payment. *)
Definition toy_cosigned : @channel.Channel toy_ed25519 :=
  Eval vm_compute in
    channel_of (channel.sign_state "bob"
                  (channel_of (channel.sign_state "alice" (toy_paid, toy_world2)),
                   toy_world2)).

(** The validator after settling that state. *)
Definition toy_ledger_closed : @ledger.SimulatedLedger toy_ed25519 :=
  Eval vm_compute in
    snd (ledger.cooperative_close (channel.closing_payload toy_cosigned)
           toy_ledger).

(** The closing payload of that state in another spelling: an opening
    with the base prefix, one with white space, a sign and an underscore,
    proof fields in the digits of the Arabic script (U+0669 is nine), with
    a capital prefix and as minus zero, and white space between the bytes
    of a signature.  [int(s, 16)] and [bytes.fromhex] read from it the
    numbers and bytes of [closing_payload]. *)
Definition toy_payload_respelled : dict.t pyobj.object :=
  [ ("channel_id", pyobj.Str "6f1c2a9e-toy");
    ("sequence", pyobj.Int 1);
    ("balances", pyobj.Dict [("alice", pyobj.Int 175); ("bob", pyobj.Int 75)]);
    ("commitments", pyobj.Dict [("alice", pyobj.Str "10"); ("bob", pyobj.Str "c")]);
    ("openings", pyobj.Dict [("alice", pyobj.Str "0x2"); ("bob", pyobj.Str " +0_7 ")]);
    ("proofs",
      pyobj.Dict
        [ ("alice",
            pyobj.Dict
              [ ("t", pyobj.Str (String "217"%char (String "169"%char "")));
                ("response_m", pyobj.Str "0X8");
                ("response_r", pyobj.Str "-0") ]);
          ("bob",
            pyobj.Dict
              [ ("t", pyobj.Str "1"); ("response_m", pyobj.Str "5");
                ("response_r", pyobj.Str "4") ]) ]);
    ("signatures",
      pyobj.Dict
        [ ("alice",
            pyobj.Str
              (" 06 2A b4 1a5429420e16a5154c42774b1622a505916d13eab5c5940916802c0f6675"
               ++ " 00000000000000000000000000000000"
               ++ " 000000000000000000000000000000 "));
          ("bob",
            pyobj.Str
              ("0a2ab41a5429420e16a5154c42774b1622a505916d13eab5c5940916802c0f6675"
               ++ "00000000000000000000000000000000"
               ++ "000000000000000000000000000000")) ]) ].

(* ===================================================================== *)
(** * Modular exponentiation *)
(* ===================================================================== *)

Lemma pow_mod_pos_spec b e m : py.pow_mod_pos b e m = b ^ Zpos e mod m.
Proof.
  induction e as [e IH | e IH |]; cbn [py.pow_mod_pos].
  - rewrite IH, Pos2Z.inj_xI.
    replace (2 * Z.pos e + 1) with (Z.pos e + Z.pos e + 1) by lia.
    rewrite !Z.pow_add_r, Z.pow_1_r by lia.
    rewrite <- Zmult_mod, Zmult_mod_idemp_l. reflexivity.
  - rewrite IH, Pos2Z.inj_xO.
    replace (2 * Z.pos e) with (Z.pos e + Z.pos e) by lia.
    rewrite Z.pow_add_r by lia.
    rewrite <- Zmult_mod. reflexivity.
  - rewrite Z.pow_1_r. reflexivity.
Qed.

Lemma pow_mod_spec b e m : 0 <= e -> py.pow_mod b e m = b ^ e mod m.
Proof.
  destruct e as [| e | e]; intros He; cbn [py.pow_mod].
  - reflexivity.
  - apply pow_mod_pos_spec.
  - lia.
Qed.

Lemma big_pow_mod_pos_spec b e m :
  BigN.to_Z (big_pow_mod_pos b e m)
  = py.pow_mod_pos (BigN.to_Z b) e (BigN.to_Z m).
Proof.
  induction e as [e IH | e IH |]; cbn [big_pow_mod_pos py.pow_mod_pos].
  - rewrite !BigN.spec_modulo, !BigN.spec_mul, !BigN.spec_modulo, !BigN.spec_mul, IH.
    reflexivity.
  - rewrite !BigN.spec_modulo, !BigN.spec_mul, IH. reflexivity.
  - apply BigN.spec_modulo.
Qed.

(** Evaluation of [b ^ e mod m] on positive literals through [bigN]. *)
Lemma pow_mod_by_bigN (b e m : positive) (r : Z) :
  BigN.to_Z (big_pow_mod_pos (BigN.of_pos b) e (BigN.of_pos m)) = r ->
  Z.pos b ^ Z.pos e mod Z.pos m = r.
Proof.
  intros H. rewrite <- pow_mod_pos_spec, <- H, big_pow_mod_pos_spec.
  rewrite !BigN.spec_of_pos. reflexivity.
Qed.

Lemma pow_mod_base a e n : 0 < n -> (a mod n) ^ e mod n = a ^ e mod n.
Proof. intros Hn. symmetry. apply Zpower_mod. lia. Qed.

Section Order.
Variables (P Q b : Z).
Hypothesis HP : 1 < P.
Hypothesis HQ : 0 < Q.
Hypothesis Hb : b ^ Q mod P = 1.

Lemma pow_order_mul k : 0 <= k -> b ^ (Q * k) mod P = 1.
Proof.
  intros Hk. rewrite Z.pow_mul_r by lia.
  rewrite <- pow_mod_base, Hb, Z.pow_1_l by lia.
  apply Z.mod_1_l. exact HP.
Qed.

Lemma pow_reduce u : 0 <= u -> b ^ u mod P = b ^ (u mod Q) mod P.
Proof.
  intros Hu.
  assert (Hdiv : 0 <= u / Q) by (apply Z.div_pos; lia).
  assert (Hmod : 0 <= u mod Q < Q) by (apply Z.mod_pos_bound; lia).
  rewrite (Z.div_mod u Q) at 1 by lia.
  rewrite Z.pow_add_r by nia.
  rewrite Zmult_mod, pow_order_mul by lia.
  rewrite Z.mul_1_l, Zmod_mod. reflexivity.
Qed.

Lemma pow_congr u v : 0 <= u -> 0 <= v -> u mod Q = v mod Q ->
  b ^ u mod P = b ^ v mod P.
Proof. intros Hu Hv E. rewrite (pow_reduce u), (pow_reduce v), E; auto. Qed.

Lemma base_coprime : Z.gcd b P = 1.
Proof.
  apply Z.coprime_Bezout.
  assert (HQ1 : 0 <= Q - 1) by lia.
  assert (E : b ^ Q = b * b ^ (Q - 1)).
  { rewrite <- (Z.pow_succ_r b (Q - 1)) by lia. f_equal. lia. }
  exists (b ^ (Q - 1)), (- (b ^ Q / P)).
  pose proof (Z.div_mod (b ^ Q) P ltac:(lia)) as D.
  rewrite Hb in D. rewrite E in D at 1. lia.
Qed.

Lemma invmod_is_power : Z.invmod b P mod P = b ^ (Q - 1) mod P.
Proof.
  pose proof (Z.invmod_coprime b P ltac:(lia) base_coprime) as Hi.
  assert (E : b ^ Q = b * b ^ (Q - 1)).
  { rewrite <- (Z.pow_succ_r b (Q - 1)) by lia. f_equal. lia. }
  transitivity ((Z.invmod b P * b * b ^ (Q - 1)) mod P).
  - rewrite <- Z.mul_assoc, <- E, <- Zmult_mod_idemp_r, Hb, Z.mul_1_r.
    reflexivity.
  - rewrite <- Zmult_mod_idemp_l, Hi, Z.mul_1_l. reflexivity.
Qed.

(** Every exponent, negative ones included, acts through its residue
    modulo the order. *)
Lemma pow3_canonical e : py.pow3 b e P = Ok (b ^ (e mod Q) mod P).
Proof.
  unfold py.pow3.
  destruct (Z.eqb_spec P 0) as [|_]; [lia|].
  destruct (Z.leb_spec 0 e) as [He | He].
  - rewrite pow_mod_spec, pow_reduce by lia. reflexivity.
  - rewrite base_coprime, Z.eqb_refl, Z.abs_eq by lia.
    rewrite pow_mod_spec by lia.
    rewrite <- pow_mod_base, invmod_is_power, pow_mod_base by lia.
    rewrite <- Z.pow_mul_r by lia.
    f_equal. rewrite pow_reduce by nia. f_equal. f_equal.
    replace ((Q - 1) * - e) with (e + Q * (- e)) by lia.
    rewrite Z.mul_comm, Z_mod_plus_full. reflexivity.
Qed.
End Order.

(* ===================================================================== *)
(** * The commitment scheme in a subgroup of order dividing [q] *)
(* ===================================================================== *)

Lemma bind_eq {S A B} (c : M S A) (k : A -> M S B) s :
  bind c k s = match c s with
               | (Ok a, s') => k a s'
               | (Raise e, s') => (Raise e, s')
               end.
Proof. reflexivity. Qed.

Lemma bind_ok {S A B} (c : M S A) (k : A -> M S B) s a s' :
  c s = (Ok a, s') -> bind c k s = k a s'.
Proof. intros H. unfold bind. rewrite H. reflexivity. Qed.

Lemma bind_raise {S A B} (c : M S A) (k : A -> M S B) s e s' :
  c s = (Raise e, s') -> bind c k s = (Raise e, s').
Proof. intros H. unfold bind. rewrite H. reflexivity. Qed.

Lemma mod_ok a n : n <> 0 -> py.mod_ a n = Ok (a mod n).
Proof.
  intros Hn. unfold py.mod_. destruct (Z.eqb_spec n 0); [contradiction|reflexivity].
Qed.

Lemma bit_length_bound x : 0 < x -> x < 2 ^ (8 * ((py.bit_length x + 7) / 8)).
Proof.
  intros Hx. unfold py.bit_length.
  destruct (Z.eqb_spec x 0); [lia|].
  rewrite Z.abs_eq by lia.
  pose proof (Z.log2_spec x Hx) as [_ Hlt].
  pose proof (Z.log2_nonneg x) as Hl.
  replace (Z.succ (Z.log2 x)) with (Z.log2 x + 1) in Hlt by lia.
  eapply Z.lt_le_trans; [exact Hlt|].
  apply Z.pow_le_mono_r; [lia|].
  pose proof (Z.div_mod (Z.log2 x + 1 + 7) 8 ltac:(lia)) as D.
  pose proof (Z.mod_pos_bound (Z.log2 x + 1 + 7) 8 ltac:(lia)) as B.
  lia.
Qed.

Lemma to_bytes_ok x n :
  0 <= x < 2 ^ (8 * Z.of_nat n) -> exists bs, py.to_bytes x n = Ok bs.
Proof.
  intros [H0 H1]. unfold py.to_bytes.
  destruct (Z.ltb_spec x 0); [lia|].
  destruct (Z.leb_spec (2 ^ (8 * Z.of_nat n)) x); [lia|].
  cbn [orb]. eexists. reflexivity.
Qed.

Section Subgroup.
Variable params : pedersen.CommitmentParameters.
Hypothesis G : subgroup_params params.


Lemma mod_p a : py.mod_ a (pedersen.p params) = Ok (a mod (pedersen.p params)).
Proof.
  subgroup_facts G.
  apply mod_ok. lia.
Qed.

Lemma mod_q a : py.mod_ a (pedersen.q params) = Ok (a mod (pedersen.q params)).
Proof.
  subgroup_facts G.
  apply mod_ok. lia.
Qed.

Lemma pow_g e :
  pedersen._pow (pedersen.g params) e (pedersen.p params)
  = Ok (gexp params (pedersen.g params) e).
Proof.
  subgroup_facts G.
  apply pow3_canonical; assumption.
Qed.

Lemma pow_h e :
  pedersen._pow (pedersen.h params) e (pedersen.p params)
  = Ok (gexp params (pedersen.h params) e).
Proof.
  subgroup_facts G.
  apply pow3_canonical; assumption.
Qed.

Lemma gexp_mod b e : gexp params b (e mod (pedersen.q params)) = gexp params b e.
Proof. unfold gexp. rewrite Zmod_mod. reflexivity. Qed.

Lemma gexp_congr b e e' :
  e mod (pedersen.q params) = e' mod (pedersen.q params) ->
  gexp params b e = gexp params b e'.
Proof. unfold gexp. intros ->. reflexivity. Qed.

Lemma gexp_add b x y : b ^ (pedersen.q params) mod (pedersen.p params) = 1 ->
  (gexp params b x * gexp params b y) mod (pedersen.p params) = gexp params b (x + y).
Proof.
  subgroup_facts G.
  intros Hb. unfold gexp.
  pose proof (Z.mod_pos_bound x (pedersen.q params) HQ).
  pose proof (Z.mod_pos_bound y (pedersen.q params) HQ).
  rewrite <- Zmult_mod, <- Z.pow_add_r by lia.
  rewrite (pow_reduce (pedersen.p params) (pedersen.q params) b HP HQ Hb) by lia.
  rewrite <- Zplus_mod. reflexivity.
Qed.

Lemma gexp_pow b x c : b ^ (pedersen.q params) mod (pedersen.p params) = 1 -> 0 <= c ->
  gexp params b x ^ c mod (pedersen.p params) = gexp params b (c * x).
Proof.
  subgroup_facts G.
  intros Hb Hc. unfold gexp.
  pose proof (Z.mod_pos_bound x (pedersen.q params) HQ).
  rewrite pow_mod_base by lia.
  rewrite <- Z.pow_mul_r by lia.
  rewrite (pow_reduce (pedersen.p params) (pedersen.q params) b HP HQ Hb) by nia.
  rewrite Z.mul_comm, Zmult_mod_idemp_r. reflexivity.
Qed.

Lemma cval_range m r : 0 <= cval params m r < (pedersen.p params).
Proof.
  subgroup_facts G.
  unfold cval. apply Z.mod_pos_bound. lia.
Qed.

Lemma cval_mod m r : cval params m r mod (pedersen.p params) = cval params m r.
Proof. unfold cval. apply Zmod_mod. Qed.

Lemma cval_congr m m' r r' :
  m mod (pedersen.q params) = m' mod (pedersen.q params) ->
  r mod (pedersen.q params) = r' mod (pedersen.q params) ->
  cval params m r = cval params m' r'.
Proof.
  intros Em Er. unfold cval.
  rewrite (gexp_congr (pedersen.g params) m m' Em).
  rewrite (gexp_congr (pedersen.h params) r r' Er). reflexivity.
Qed.

Lemma cval_mul m1 r1 m2 r2 :
  (cval params m1 r1 * cval params m2 r2) mod (pedersen.p params)
  = cval params (m1 + m2) (r1 + r2).
Proof.
  subgroup_facts G.
  unfold cval. rewrite <- Zmult_mod.
  replace (gexp params (pedersen.g params) m1 * gexp params (pedersen.h params) r1
           * (gexp params (pedersen.g params) m2 * gexp params (pedersen.h params) r2))
    with (gexp params (pedersen.g params) m1 * gexp params (pedersen.g params) m2
          * (gexp params (pedersen.h params) r1 * gexp params (pedersen.h params) r2)) by ring.
  rewrite Zmult_mod, !gexp_add by assumption. reflexivity.
Qed.

Lemma cval_pow m r c : 0 <= c ->
  cval params m r ^ c mod (pedersen.p params) = cval params (c * m) (c * r).
Proof.
  subgroup_facts G.
  intros Hc. unfold cval.
  rewrite pow_mod_base, Z.pow_mul_l by lia.
  rewrite Zmult_mod, !gexp_pow by assumption. reflexivity.
Qed.

Lemma cval_zero : cval params 0 0 = 1.
Proof.
  subgroup_facts G.
  unfold cval, gexp. rewrite Zmod_0_l, !Z.pow_0_r.
  rewrite !Z.mod_1_l by lia. reflexivity.
Qed.

(** ** What the functions compute *)

Lemma commit_some m r tp :
  pedersen.commit params m (Some r) tp
  = (Ok ({| pedersen.value := cval params m r |},
         {| pedersen.randomness := r |}), tp).
Proof.
  subgroup_facts G.
  unfold pedersen.commit, bind, lift, ret.
  rewrite mod_q, pow_g, pow_h, mod_p, gexp_mod. reflexivity.
Qed.

Lemma verify_eq c m o :
  pedersen.verify params c m o
  = Ok (pedersen.value c mod (pedersen.p params) =? cval params m (pedersen.randomness o)).
Proof.
  subgroup_facts G.
  unfold pedersen.verify, rbind.
  rewrite mod_p, mod_q, pow_g, pow_h, mod_p, gexp_mod. reflexivity.
Qed.

Lemma verify_cval m r m' r' :
  pedersen.verify params {| pedersen.value := cval params m r |} m'
    {| pedersen.randomness := r' |}
  = Ok (cval params m r =? cval params m' r').
Proof.
  subgroup_facts G.
  rewrite verify_eq. cbn [pedersen.value pedersen.randomness].
  rewrite cval_mod. reflexivity.
Qed.

Lemma int_to_bytes_ok x :
  exists bs, pedersen._int_to_bytes (x mod (pedersen.p params))
               (pedersen._commitment_byte_length params) = Ok bs.
Proof.
  subgroup_facts G.
  unfold pedersen._int_to_bytes, pedersen._commitment_byte_length.
  apply to_bytes_ok.
  pose proof (Z.mod_pos_bound x (pedersen.p params) ltac:(lia)) as B.
  pose proof (bit_length_bound (pedersen.p params) ltac:(lia)) as L.
  assert (0 <= (py.bit_length (pedersen.p params) + 7) / 8).
  { apply Z.div_pos; [|lia]. unfold py.bit_length.
    destruct ((pedersen.p params) =? 0); [lia|].
    pose proof (Z.log2_nonneg (Z.abs (pedersen.p params))). lia. }
  rewrite Z2Nat.id by assumption. lia.
Qed.

Lemma compute_challenge_ok c t_value context :
  exists ch, pedersen._compute_challenge params c t_value context = Ok ch
             /\ 0 < ch.
Proof.
  subgroup_facts G.
  unfold pedersen._compute_challenge, rbind.
  rewrite mod_p.
  destruct (int_to_bytes_ok (pedersen.value c)) as [cb ->].
  rewrite mod_p.
  destruct (int_to_bytes_ok t_value) as [tb ->].
  rewrite mod_q.
  match goal with |- context [?x mod (pedersen.q params) =? 0] =>
    pose proof (Z.mod_pos_bound x (pedersen.q params) HQ) as B;
    destruct (Z.eqb_spec (x mod (pedersen.q params)) 0) as [E|E] end.
  - exists 1. split; [reflexivity|lia].
  - eexists. split; [reflexivity|lia].
Qed.

Lemma challenge_spec c t_value context :
  pedersen._compute_challenge params c t_value context
  = Ok (challenge params c t_value context)
  /\ 0 < challenge params c t_value context.
Proof.
  subgroup_facts G.
  unfold challenge.
  destruct (compute_challenge_ok c t_value context) as [ch [-> Hch]].
  split; [reflexivity|exact Hch].
Qed.

Lemma compute_challenge_mod_t c t_value context :
  pedersen._compute_challenge params c (t_value mod (pedersen.p params)) context
  = pedersen._compute_challenge params c t_value context.
Proof.
  subgroup_facts G.
  unfold pedersen._compute_challenge, rbind.
  rewrite !mod_p, Zmod_mod. reflexivity.
Qed.

Lemma verify_opening_proof_eq c proof context :
  pedersen.verify_opening_proof params c proof context
  = Ok (cval params (pedersen.response_m proof) (pedersen.response_r proof)
        =? (pedersen.t proof
            * ((pedersen.value c mod (pedersen.p params))
               ^ challenge params c (pedersen.t proof) context mod (pedersen.p params)))
           mod (pedersen.p params)).
Proof.
  subgroup_facts G.
  unfold pedersen.verify_opening_proof, rbind.
  destruct (challenge_spec c (pedersen.t proof) context) as [-> Hch].
  rewrite pow_g, pow_h, !mod_p.
  unfold pedersen._pow, py.pow3.
  destruct (Z.eqb_spec (pedersen.p params) 0); [lia|].
  destruct (Z.leb_spec 0 (challenge params c (pedersen.t proof) context)); [|lia].
  rewrite pow_mod_spec, mod_p by lia. reflexivity.
Qed.

(** Completeness of the Fiat-Shamir proof. *)
Lemma proof_for_accepted m r context w_m w_r :
  let c := {| pedersen.value := cval params m r |} in
  let o := {| pedersen.randomness := r |} in
  pedersen.verify_opening_proof params c (proof_for params m o c context w_m w_r)
    context = Ok true.
Proof.
  subgroup_facts G.
  intros c o. rewrite verify_opening_proof_eq.
  unfold proof_for. cbn [pedersen.t pedersen.response_m pedersen.response_r].
  set (ch := challenge params c (cval params w_m w_r) context).
  assert (Hch : 0 < ch) by apply challenge_spec.
  subst c o. cbn [pedersen.value pedersen.randomness].
  rewrite cval_mod, cval_pow by lia.
  rewrite cval_mul.
  rewrite (cval_congr _ (w_m + ch * m) _ (w_r + ch * r)).
  - rewrite Z.eqb_refl. reflexivity.
  - rewrite Zmod_mod, <- Zplus_mod_idemp_r, Zmult_mod_idemp_r, Zplus_mod_idemp_r.
    reflexivity.
  - rewrite Zmod_mod. reflexivity.
Qed.

(** ** Drawing scalars *)

Lemma random_scalar_loop_usable fuel n tp :
  (List.length tp < fuel)%nat -> usable (pedersen.q params) (S n) tp = true ->
  exists k tp',
    pedersen.random_scalar_loop fuel params tp = (Ok k, tp')
    /\ usable (pedersen.q params) n tp' = true /\ 0 < k < (pedersen.q params).
Proof.
  subgroup_facts G.
  revert fuel. induction tp as [|x tp IH]; intros fuel Hf Hu.
  - cbn in Hu. discriminate.
  - destruct fuel as [|fuel]; [cbn in Hf; lia|].
    cbn [pedersen.random_scalar_loop]. unfold bind, secrets.randbelow.
    destruct (Z.leb_spec (pedersen.q params) 0); [lia|].
    cbn [usable] in Hu.
    pose proof (Z.mod_pos_bound x (pedersen.q params) HQ) as B.
    destruct (Z.eqb_spec (x mod (pedersen.q params)) 0) as [E|E]; cbn [negb].
    + apply IH; [cbn in Hf; lia|exact Hu].
    + exists (x mod (pedersen.q params)), tp. unfold ret.
      split; [reflexivity|]. split; [exact Hu|lia].
Qed.

Lemma random_scalar_usable n tp :
  usable (pedersen.q params) (S n) tp = true ->
  exists k tp',
    pedersen.random_scalar params tp = (Ok k, tp')
    /\ usable (pedersen.q params) n tp' = true /\ 0 < k < (pedersen.q params).
Proof.
  subgroup_facts G.
  intros Hu. unfold pedersen.random_scalar.
  apply random_scalar_loop_usable; [lia|exact Hu].
Qed.

Lemma random_scalar_loop_range fuel tp k tp' :
  pedersen.random_scalar_loop fuel params tp = (Ok k, tp') -> 0 < k < (pedersen.q params).
Proof.
  subgroup_facts G.
  revert tp. induction fuel as [|fuel IH]; intros tp H.
  - cbn in H. discriminate.
  - cbn [pedersen.random_scalar_loop] in H. unfold bind, secrets.randbelow in H.
    destruct (Z.leb_spec (pedersen.q params) 0); [lia|].
    destruct tp as [|x tp]; [discriminate|].
    pose proof (Z.mod_pos_bound x (pedersen.q params) HQ) as B.
    destruct (Z.eqb_spec (x mod (pedersen.q params)) 0) as [E|E]; cbn [negb] in H.
    + eapply IH. exact H.
    + unfold ret in H. injection H as <- _. lia.
Qed.

Lemma random_scalar_range tp k tp' :
  pedersen.random_scalar params tp = (Ok k, tp') -> 0 < k < (pedersen.q params).
Proof.
  subgroup_facts G.
  apply random_scalar_loop_range.
Qed.

Lemma random_scalar_head w rest :
  0 < w < (pedersen.q params) -> pedersen.random_scalar params (w :: rest) = (Ok w, rest).
Proof.
  subgroup_facts G.
  intros Hw. unfold pedersen.random_scalar.
  cbn [List.length pedersen.random_scalar_loop]. unfold bind, secrets.randbelow.
  destruct (Z.leb_spec (pedersen.q params) 0); [lia|].
  rewrite Z.mod_small by lia.
  destruct (Z.eqb_spec w 0); [lia|]. reflexivity.
Qed.

Lemma commit_none m tp :
  pedersen.commit params m None tp
  = match pedersen.random_scalar params tp with
    | (Ok r, tp') =>
        (Ok ({| pedersen.value := cval params m r |},
             {| pedersen.randomness := r |}), tp')
    | (Raise e, tp') => (Raise e, tp')
    end.
Proof.
  subgroup_facts G.
  unfold pedersen.commit. rewrite bind_eq.
  destruct (pedersen.random_scalar params tp) as [[r|e] tp']; [|reflexivity].
  unfold bind, lift, ret.
  rewrite mod_q, pow_g, pow_h, mod_p, gexp_mod. reflexivity.
Qed.

Lemma prove_opening_eq m o c context tp :
  pedersen.prove_opening params m o c context tp
  = match pedersen.random_scalar params tp with
    | (Ok w_m, tp1) =>
        match pedersen.random_scalar params tp1 with
        | (Ok w_r, tp2) => (Ok (proof_for params m o c context w_m w_r), tp2)
        | (Raise e, tp2) => (Raise e, tp2)
        end
    | (Raise e, tp1) => (Raise e, tp1)
    end.
Proof.
  subgroup_facts G.
  unfold pedersen.prove_opening. rewrite bind_eq.
  destruct (pedersen.random_scalar params tp) as [[w_m|e] tp1]; [|reflexivity].
  rewrite bind_eq.
  destruct (pedersen.random_scalar params tp1) as [[w_r|e] tp2]; [|reflexivity].
  unfold bind, lift, ret.
  rewrite pow_g, pow_h, mod_p.
  fold (cval params w_m w_r).
  destruct (challenge_spec c (cval params w_m w_r) context) as [-> _].
  rewrite !mod_q. reflexivity.
Qed.
End Subgroup.

(* ===================================================================== *)
(** * The default parameters *)
(* ===================================================================== *)

(** Two test vectors of FIPS 180-4 for the model of [hashlib.sha256]. *)
Lemma sha256_abc :
  py.hex (hashlib.sha256 (py.encode "abc"))
  = "ba7816bf8f01cfea414140de5dae2223b00361a396177a9cb410ff61f20015ad".
Proof. vm_compute. reflexivity. Qed.

Lemma sha256_two_blocks :
  py.hex (hashlib.sha256
            (py.encode "abcdbcdecdefdefgefghfghighijhijkijkljklmklmnlmnomnopnopq"))
  = "248d6a61d20638b8e5c026930c3e6039a33ce45964ff2167f6ecedd419db06c1".
Proof. vm_compute. reflexivity. Qed.

Lemma int16_P_HEX : py.int16 pedersen._P_HEX = Ok default_p.
Proof. vm_compute. reflexivity. Qed.

Lemma hash_to_scalar_default :
  pedersen._hash_to_scalar (py.encode "pedersen-h-generator") default_q
  = Ok default_s.
Proof. vm_compute. reflexivity. Qed.

Lemma default_h_eq : 2 ^ default_s mod default_p = default_h.
Proof.
  unfold default_s, default_p.
  apply pow_mod_by_bigN. vm_compute. reflexivity.
Qed.

Lemma default_parameters_eq : pedersen.default_parameters = Ok default_params.
Proof.
  unfold pedersen.default_parameters.
  rewrite int16_P_HEX. cbn [rbind].
  change ((default_p - 1) / 2) with default_q.
  rewrite hash_to_scalar_default. cbn [rbind].
  unfold pedersen._pow, py.pow3.
  replace (default_p =? 0) with false by reflexivity.
  replace (0 <=? default_s) with true by reflexivity.
  rewrite pow_mod_spec by (unfold default_s; lia).
  rewrite default_h_eq. reflexivity.
Qed.

Lemma default_subgroup : subgroup_params default_params.
Proof.
  constructor; cbn [pedersen.p pedersen.q pedersen.g pedersen.h default_params].
  - reflexivity.
  - reflexivity.
  - unfold default_q, default_p. apply pow_mod_by_bigN. vm_compute. reflexivity.
  - unfold default_h, default_q, default_p. apply pow_mod_by_bigN.
    vm_compute. reflexivity.
Qed.

Lemma default_parameters_inv ps :
  pedersen.default_parameters = Ok ps -> ps = default_params.
Proof. rewrite default_parameters_eq. intros H. injection H as <-. reflexivity. Qed.

(* ===================================================================== *)
(** * Claims about the commitment scheme *)
(* ===================================================================== *)

Lemma toy_subgroup : subgroup_params toy_params.
Proof. constructor; reflexivity. Qed.

Lemma prime_11 : Z.prime 11.
Proof.
  split; [lia|]. intros n Hn [k Hk].
  assert (C : n = 2 \/ n = 3 \/ n = 4 \/ n = 5 \/ n = 6 \/ n = 7 \/ n = 8
              \/ n = 9 \/ n = 10) by lia.
  repeat (destruct C as [-> | C]; [lia|]). subst n. lia.
Qed.

Lemma toy_prime_order : prime_order_params toy_params.
Proof.
  constructor; [exact toy_subgroup | exact prime_11 |].
  cbn. discriminate.
Qed.

Lemma mod_sub_zero a b n : (a - b) mod n = 0 -> a mod n = b mod n.
Proof.
  intros H. destruct (Z.eq_dec n 0) as [-> | Hn].
  - rewrite !Z.mod_0_r in *. lia.
  - apply Z.mod_divide in H; [|exact Hn]. destruct H as [k Hk].
    replace a with (b + k * n) by lia. apply Z_mod_plus_full.
Qed.

Section PrimeOrder.
Variable params : pedersen.CommitmentParameters.
Hypothesis G : prime_order_params params.


(** A generator of prime order separates the residues modulo [q]. *)
Lemma cval_injective m m' r :
  cval params m r = cval params m' r ->
  m mod (pedersen.q params) = m' mod (pedersen.q params).
Proof.
  intros E.
  pose proof (is_subgroup params G) as S0.
  pose proof (modulus_gt_1 params S0) as HP.
  pose proof (order_pos params S0) as HQ.
  pose proof (order_prime params G) as Hprime.
  assert (HQ2 : 1 < (pedersen.q params)) by (destruct Hprime; assumption).
  apply mod_sub_zero.
  destruct (Z.eq_dec ((m - m') mod (pedersen.q params)) 0) as [Hz | Hnz]; [exact Hz|].
  exfalso. set (d := (m - m') mod (pedersen.q params)) in *.
  assert (Hd : 0 <= d < (pedersen.q params)) by (apply Z.mod_pos_bound; exact HQ).
  assert (D1 : cval params d 0 = 1).
  { rewrite (cval_congr params d (m + - m') 0 (r + - r)).
    - rewrite <- (cval_mul params S0), E, (cval_mul params S0).
      replace (m' + - m') with 0 by lia. replace (r + - r) with 0 by lia.
      apply (cval_zero params S0).
    - subst d. rewrite Zmod_mod. f_equal; lia.
    - f_equal; lia. }
  set (u := Z.invmod d (pedersen.q params)).
  assert (Hu : 0 <= u).
  { subst u. rewrite <- Z.mod_invmod. apply Z.mod_pos_bound. exact HQ. }
  assert (Hud : (u * d) mod (pedersen.q params) = 1).
  { subst u. apply Z.invmod_prime; [exact Hprime|].
    rewrite Z.mod_small by lia. exact Hnz. }
  pose proof (cval_pow params S0 d 0 u Hu) as Hp.
  rewrite D1, Z.pow_1_l, Z.mod_1_l in Hp by lia.
  rewrite (cval_congr params (u * d) 1 (u * 0) 0) in Hp.
  - apply (g_nontrivial params G).
    unfold cval, gexp in Hp.
    rewrite Zmod_0_l, Z.pow_0_r, (Z.mod_small 1 (pedersen.q params)), Z.pow_1_r in Hp by lia.
    rewrite (Z.mod_1_l (pedersen.p params)), Z.mul_1_r, Zmod_mod in Hp by lia.
    symmetry. exact Hp.
  - rewrite Hud. symmetry. apply Z.mod_small. lia.
  - f_equal; lia.
Qed.

Lemma commit_verify_binding_aux m r tp :
  exists c o,
    pedersen.commit params m (Some r) tp = (Ok (c, o), tp)
    /\ pedersen.verify params c m o = Ok true
    /\ forall m', m' mod (pedersen.q params) <> m mod (pedersen.q params) ->
                  pedersen.verify params c m' o = Ok false.
Proof.
  pose proof (is_subgroup params G) as S0.
  eexists. eexists. split; [apply (commit_some params S0)|]. split.
  - rewrite (verify_cval params S0), Z.eqb_refl. reflexivity.
  - intros m' Hm. rewrite (verify_cval params S0). f_equal.
    apply Z.eqb_neq. intros E. apply Hm. symmetry.
    apply (cval_injective m m' r). exact E.
Qed.
End PrimeOrder.

(** X30: in a group of prime order [q] whose generator [g] is not the
    identity, a commitment made by [commit] from a message [m] and an
    opening scalar [r] verifies against [m], and fails to verify against
    every [m'] that is not congruent to [m] modulo [q] under the same
    opening. *)
Theorem commit_verify_binding params m r tp :
  prime_order_params params ->
  exists c o,
    pedersen.commit params m (Some r) tp = (Ok (c, o), tp)
    /\ pedersen.verify params c m o = Ok true
    /\ forall m', m' mod pedersen.q params <> m mod pedersen.q params ->
         pedersen.verify params c m' o = Ok false.
Proof. intros G. apply commit_verify_binding_aux. exact G. Qed.

Lemma commit_verify_binding_witness :
  exists c o,
    pedersen.commit toy_params 123 (Some 7) [] = (Ok (c, o), [])
    /\ pedersen.verify toy_params c 123 o = Ok true
    /\ forall m', m' mod pedersen.q toy_params <> 123 mod pedersen.q toy_params ->
         pedersen.verify toy_params c m' o = Ok false.
Proof. apply (commit_verify_binding toy_params 123 7 []). exact toy_prime_order. Defined.

(** The default parameters form a subgroup whose order divides [q]; the
    order is [q] itself as soon as [q] is prime. *)
Lemma default_prime_order : Z.prime default_q -> prime_order_params default_params.
Proof.
  intros Hq. constructor; [exact default_subgroup | exact Hq |].
  cbn [pedersen.g pedersen.p default_params]. unfold default_p.
  rewrite Z.mod_small by lia. discriminate.
Qed.

(** The commitment made on the default parameters verifies, whatever the
    message and the opening scalar; it is binding when [q] is prime. *)
Lemma default_commit_verify ps m r tp :
  pedersen.default_parameters = Ok ps ->
  exists c o,
    pedersen.commit ps m (Some r) tp = (Ok (c, o), tp)
    /\ pedersen.verify ps c m o = Ok true
    /\ (Z.prime (pedersen.q ps) ->
        forall m', m' mod pedersen.q ps <> m mod pedersen.q ps ->
          pedersen.verify ps c m' o = Ok false).
Proof.
  intros H. apply default_parameters_inv in H. subst ps.
  eexists. eexists. split; [apply (commit_some _ default_subgroup)|]. split.
  - rewrite (verify_cval _ default_subgroup), Z.eqb_refl. reflexivity.
  - intros Hq m' Hm. rewrite (verify_cval _ default_subgroup). f_equal.
    apply Z.eqb_neq. intros E. apply Hm. symmetry.
    apply (cval_injective _ (default_prime_order Hq) m m' r). exact E.
Qed.

Section SubgroupClaims.
Variable params : pedersen.CommitmentParameters.
Hypothesis G : subgroup_params params.

Lemma add_commitments_pair c1 c2 :
  pedersen.add_commitments params [c1; c2]
  = Ok {| pedersen.value :=
            ((1 * pedersen.value c1) mod (pedersen.p params)
             * pedersen.value c2) mod (pedersen.p params) |}.
Proof.
  unfold pedersen.add_commitments. cbn [pedersen.add_commitments_from].
  rewrite (mod_p params G). cbn [rbind]. rewrite (mod_p params G). reflexivity.
Qed.

Lemma add_openings_pair o1 o2 :
  pedersen.add_openings params [o1; o2]
  = Ok {| pedersen.randomness :=
            ((0 + pedersen.randomness o1) mod (pedersen.q params)
             + pedersen.randomness o2) mod (pedersen.q params) |}.
Proof.
  unfold pedersen.add_openings. cbn [pedersen.add_openings_from].
  rewrite (mod_q params G). cbn [rbind]. rewrite (mod_q params G). reflexivity.
Qed.

Lemma homomorphism_subgroup m1 m2 r1 r2 tp :
  exists c1 o1 c2 o2 c o,
    pedersen.commit params m1 (Some r1) tp = (Ok (c1, o1), tp)
    /\ pedersen.commit params m2 (Some r2) tp = (Ok (c2, o2), tp)
    /\ pedersen.add_commitments params [c1; c2] = Ok c
    /\ pedersen.add_openings params [o1; o2] = Ok o
    /\ pedersen.verify params c ((m1 + m2) mod (pedersen.q params)) o = Ok true.
Proof.
  pose proof (modulus_gt_1 params G) as HP.
  do 6 eexists.
  split; [apply (commit_some params G)|].
  split; [apply (commit_some params G)|].
  split; [apply add_commitments_pair|].
  split; [apply add_openings_pair|].
  rewrite (verify_eq params G).
  cbn [pedersen.value pedersen.randomness].
  rewrite Z.mul_1_l, (cval_mod params), Zmod_mod, (cval_mul params G).
  rewrite (cval_congr params ((m1 + m2) mod (pedersen.q params)) (m1 + m2) _ (r1 + r2)).
  - rewrite Z.eqb_refl. reflexivity.
  - apply Zmod_mod.
  - rewrite Zmod_mod, Z.add_0_l, Zplus_mod_idemp_l. reflexivity.
Qed.

Lemma opening_proof_complete_subgroup m r context w_m w_r rest tp c o tp' :
  0 < w_m < (pedersen.q params) -> 0 < w_r < (pedersen.q params) ->
  pedersen.commit params m r tp = (Ok (c, o), tp') ->
  exists proof,
    pedersen.prove_opening params m o c context (w_m :: w_r :: rest)
    = (Ok proof, rest)
    /\ pedersen.verify_opening_proof params c proof context = Ok true.
Proof.
  intros Hm Hr Hc.
  assert (Hco : exists r', c = {| pedersen.value := cval params m r' |}
                           /\ o = {| pedersen.randomness := r' |}).
  { destruct r as [r|].
    - rewrite (commit_some params G) in Hc. injection Hc as <- <- _. eauto.
    - rewrite (commit_none params G) in Hc.
      destruct (pedersen.random_scalar params tp) as [[r'|e] tp1]; [|discriminate].
      injection Hc as <- <- _. eauto. }
  destruct Hco as [r' [-> ->]].
  eexists. split.
  - rewrite (prove_opening_eq params G).
    rewrite (random_scalar_head params G w_m) by assumption.
    rewrite (random_scalar_head params G w_r) by assumption.
    reflexivity.
  - apply (proof_for_accepted params G).
Qed.
End SubgroupClaims.

(** C3: on the parameters [default_parameters()] returns, the product of
    the commitments to [m1] and [m2] opens, through [verify], to
    [(m1 + m2) mod q] under the sum of the two openings. *)
Theorem additive_homomorphism ps m1 m2 r1 r2 tp :
  pedersen.default_parameters = Ok ps ->
  exists c1 o1 c2 o2 c o,
    pedersen.commit ps m1 (Some r1) tp = (Ok (c1, o1), tp)
    /\ pedersen.commit ps m2 (Some r2) tp = (Ok (c2, o2), tp)
    /\ pedersen.add_commitments ps [c1; c2] = Ok c
    /\ pedersen.add_openings ps [o1; o2] = Ok o
    /\ pedersen.verify ps c ((m1 + m2) mod pedersen.q ps) o = Ok true.
Proof.
  intros H. apply default_parameters_inv in H. subst ps.
  apply homomorphism_subgroup. exact default_subgroup.
Qed.

Lemma additive_homomorphism_witness :
  exists c1 o1 c2 o2 c o,
    pedersen.commit default_params 40 (Some 11) [] = (Ok (c1, o1), [])
    /\ pedersen.commit default_params 60 (Some 29) [] = (Ok (c2, o2), [])
    /\ pedersen.add_commitments default_params [c1; c2] = Ok c
    /\ pedersen.add_openings default_params [o1; o2] = Ok o
    /\ pedersen.verify default_params c
         ((40 + 60) mod pedersen.q default_params) o = Ok true.
Proof.
  apply (additive_homomorphism default_params 40 60 11 29 []).
  exact default_parameters_eq.
Defined.

(* ===================================================================== *)
(** * Stepping through the monad *)
(* ===================================================================== *)

Lemma bind_inv_ok {S A B} (c : M S A) (k : A -> M S B) s b s2 :
  bind c k s = (Ok b, s2) ->
  exists a s1, c s = (Ok a, s1) /\ k a s1 = (Ok b, s2).
Proof.
  unfold bind. destruct (c s) as [[a|e] s1]; intros H.
  - exists a, s1. split; [reflexivity|exact H].
  - discriminate.
Qed.

Lemma bind_inv {S A B} (c : M S A) (k : A -> M S B) s r s2 :
  bind c k s = (r, s2) ->
  (exists a s1, c s = (Ok a, s1) /\ k a s1 = (r, s2))
  \/ (exists e, c s = (Raise e, s2) /\ r = Raise e).
Proof.
  unfold bind. destruct (c s) as [[a|e] s1]; intros H.
  - left. exists a, s1. split; [reflexivity|exact H].
  - right. injection H as <- <-. exists e. split; reflexivity.
Qed.

Lemma preserves_bind {S A B} (R : S -> S -> Prop) (c : M S A) (k : A -> M S B) :
  (forall x y z, R x y -> R y z -> R x z) ->
  preserves R c -> (forall a, preserves R (k a)) -> preserves R (bind c k).
Proof.
  intros T Hc Hk s r s' H. apply bind_inv in H.
  destruct H as [(a & s1 & H1 & H2) | (e & H1 & _)].
  - eapply T; [eapply Hc; exact H1 | eapply Hk; exact H2].
  - eapply Hc; exact H1.
Qed.

Lemma preserves_pure {S A} (R : S -> S -> Prop) (r : result A) :
  (forall x, R x x) -> preserves R (lift r).
Proof. intros Rf s r' s' H. injection H as _ <-. apply Rf. Qed.

Lemma preserves_ret {S A} (R : S -> S -> Prop) (a : A) :
  (forall x, R x x) -> preserves R (ret a).
Proof. intros Rf s r' s' H. injection H as _ <-. apply Rf. Qed.

Lemma preserves_throw {S A} (R : S -> S -> Prop) e :
  (forall x, R x x) -> preserves R (@throw S A e).
Proof. intros Rf s r' s' H. injection H as _ <-. apply Rf. Qed.

Section ChannelFrames.
Context {E : Ed25519}.

Lemma crypto_frame_refl s : crypto_frame s s.
Proof. unfold crypto_frame. repeat split. Qed.

Lemma crypto_frame_trans x y z : crypto_frame x y -> crypto_frame y z -> crypto_frame x z.
Proof.
  unfold crypto_frame. intros H1 H2.
  decompose [and] H1. decompose [and] H2.
  repeat split; etransitivity; eassumption.
Qed.

Lemma preserves_self : preserves crypto_frame channel.self.
Proof.
  intros s r s' H. cbv [channel.self] in H. injection H as _ <-.
  apply crypto_frame_refl.
Qed.

Lemma preserves_draw {A} (c : M secrets.tape A) : preserves crypto_frame (channel.draw c).
Proof.
  intros [ch w] r s' H.
  cbv beta iota delta [channel.draw zoom channel.with_entropy fst snd] in H.
  destruct (c (channel.entropy w)) as [r0 tp]. injection H as _ <-.
  unfold crypto_frame. cbn [fst]. repeat split.
Qed.

Lemma preserves_set_commitments f :
  preserves crypto_frame
    (channel.set_state (fun st => channel.with_commitments (f st) st)).
Proof.
  intros [ch w] r s' H. cbv [channel.set_state modify] in H.
  injection H as _ <-.
  unfold crypto_frame. cbn. repeat split.
Qed.

Lemma preserves_set_openings f :
  preserves crypto_frame
    (channel.set_state (fun st => channel.with_openings (f st) st)).
Proof.
  intros [ch w] r s' H. cbv [channel.set_state modify] in H.
  injection H as _ <-.
  unfold crypto_frame. cbn. repeat split.
Qed.

Lemma set_balances_loop_frame items acc :
  preserves crypto_frame (channel._set_balances_loop items acc).
Proof.
  revert acc. induction items as [|[pid balance] rest IH]; intros acc.
  - apply preserves_ret, crypto_frame_refl.
  - cbn [channel._set_balances_loop].
    apply preserves_bind; [exact crypto_frame_trans|exact preserves_self|intros ch].
    apply preserves_bind; [exact crypto_frame_trans|apply preserves_draw|intros co].
    apply preserves_bind; [exact crypto_frame_trans|apply preserves_set_commitments|intros _].
    apply preserves_bind; [exact crypto_frame_trans|apply preserves_set_openings|intros _].
    apply preserves_bind; [exact crypto_frame_trans|exact preserves_self|intros ch'].
    apply preserves_bind; [exact crypto_frame_trans|apply preserves_draw|intros proof].
    apply preserves_bind;
      [exact crypto_frame_trans|apply preserves_pure, crypto_frame_refl|intros ok].
    destruct (negb ok).
    + apply preserves_throw, crypto_frame_refl.
    + apply IH.
Qed.

(** A successful [_set_balances] installs the balances and clears the
    signatures; it leaves the sequence number, the history and the
    participants alone. *)
Lemma set_balances_ok bal ch w u ch' w' :
  channel._set_balances bal (ch, w) = (Ok u, (ch', w')) ->
  channel.balances (channel.state ch')
  = dict.update (channel.balances (channel.state ch)) bal
  /\ channel.signatures (channel.state ch') = []
  /\ channel.sequence (channel.state ch') = channel.sequence (channel.state ch)
  /\ channel.history ch' = channel.history ch
  /\ channel.participants ch' = channel.participants ch
  /\ channel.params ch' = channel.params ch
  /\ channel.channel_id ch' = channel.channel_id ch.
Proof.
  unfold channel._set_balances. intros H.
  apply bind_inv_ok in H. destruct H as (u1 & s1 & H1 & H).
  injection H1 as _ <-.
  apply bind_inv_ok in H. destruct H as (np & [ch2 w2] & H2 & H).
  apply set_balances_loop_frame in H2.
  apply bind_inv_ok in H. destruct H as (u3 & s3 & H3 & H).
  injection H3 as _ <-. injection H as _ <- <-.
  unfold crypto_frame in H2. cbn in H2. decompose [and] H2. cbn.
  repeat split; assumption.
Qed.

(** What a successful [apply_payment] did. *)
Lemma apply_payment_ok payer amount ch w st ch' w' :
  channel.apply_payment payer amount (ch, w) = (Ok st, (ch', w')) ->
  exists payee x y,
    dict.contains (channel.participants ch) payer = true
    /\ 0 < amount <= x
    /\ channel._other payer = Ok payee
    /\ dict.get (channel.balances (channel.state ch)) payer = Some x
    /\ dict.get (dict.set (channel.balances (channel.state ch)) payer (x - amount))
         payee = Some y
    /\ channel.balances (channel.state ch')
       = dict.update (channel.balances (channel.state ch))
           (dict.set (dict.set (channel.balances (channel.state ch)) payer
                        (x - amount)) payee (y + amount))
    /\ channel.signatures (channel.state ch') = []
    /\ channel.sequence (channel.state ch')
       = channel.sequence (channel.state ch) + 1
    /\ channel.history ch' = channel.history ch ++ [channel.clone (channel.state ch')]
    /\ channel.participants ch' = channel.participants ch
    /\ channel.params ch' = channel.params ch
    /\ channel.channel_id ch' = channel.channel_id ch
    /\ st = channel.state ch'.
Proof.
  unfold channel.apply_payment. intros H.
  apply bind_inv_ok in H. destruct H as (ch0 & s0 & H0 & H).
  injection H0 as <- <-. cbn [fst] in H.
  destruct (dict.contains (channel.participants ch) payer) eqn:Hin;
    cbn [negb] in H; [|discriminate].
  destruct (Z.leb_spec amount 0) as [Ha|Ha]; [discriminate|].
  apply bind_inv_ok in H. destruct H as (x & s1 & H1 & H).
  unfold lift in H1. injection H1 as H1 <-.
  unfold dict.getitem in H1.
  destruct (dict.get (channel.balances (channel.state ch)) payer) as [x'|] eqn:Hx;
    [|discriminate].
  injection H1 as ->.
  destruct (Z.gtb_spec amount x) as [Hgt|Hle]; [discriminate|].
  apply bind_inv_ok in H. destruct H as (payee & s2 & H2 & H).
  unfold lift in H2. injection H2 as H2 <-.
  apply bind_inv_ok in H. destruct H as (x2 & s3 & H3 & H).
  unfold lift in H3. injection H3 as H3 <-.
  unfold dict.getitem in H3. rewrite Hx in H3. injection H3 as <-.
  apply bind_inv_ok in H. destruct H as (y & s4 & H4 & H).
  unfold lift in H4. injection H4 as H4 <-.
  unfold dict.getitem in H4.
  destruct (dict.get (dict.set (channel.balances (channel.state ch)) payer
                        (x - amount)) payee) as [y'|] eqn:Hy; [|discriminate].
  injection H4 as ->.
  apply bind_inv_ok in H. destruct H as (u5 & s5 & H5 & H).
  injection H5 as _ <-.
  apply bind_inv_ok in H. destruct H as (u6 & [ch6 w6] & H6 & H).
  apply set_balances_ok in H6. cbn in H6.
  apply bind_inv_ok in H. destruct H as (ch7 & s7 & H7 & H).
  injection H7 as <- <-. cbn [fst] in H.
  apply bind_inv_ok in H. destruct H as (u8 & s8 & H8 & H).
  injection H8 as _ <-.
  apply bind_inv_ok in H. destruct H as (ch9 & s9 & H9 & H).
  injection H9 as <- <-. injection H as <- <- <-.
  decompose [and] H6. cbn.
  exists payee, x, y. repeat split; try assumption; try lia.
  congruence.
Qed.
End ChannelFrames.

(* ===================================================================== *)
(** * The proving loops in a subgroup *)
(* ===================================================================== *)

Section ChannelRuns.
Context {E : Ed25519}.

Lemma draw_eq {A} (c : M secrets.tape A) ch w :
  channel.draw c (ch, w)
  = let (r, tp) := c (channel.entropy w) in (r, (ch, channel.set_entropy tp w)).
Proof.
  cbv beta iota delta [channel.draw zoom channel.with_entropy fst snd].
  destruct (c (channel.entropy w)) as [r tp]. reflexivity.
Qed.

Lemma with_entropy_eq {A} (c : M secrets.tape A) w :
  channel.with_entropy c w
  = let (r, tp) := c (channel.entropy w) in (r, channel.set_entropy tp w).
Proof. reflexivity. Qed.

Lemma set_balances_loop_step pid balance rest acc ch w :
  subgroup_params (channel.params ch) ->
  let ps := channel.params ch in
  channel._set_balances_loop ((pid, balance) :: rest) acc (ch, w)
  = match pedersen.random_scalar ps (channel.entropy w) with
    | (Raise e, tp1) => (Raise e, (ch, channel.set_entropy tp1 w))
    | (Ok r, tp1) =>
        let c := {| pedersen.value := cval ps balance r |} in
        let o := {| pedersen.randomness := r |} in
        let ch1 := recommitted pid c o ch in
        match pedersen.random_scalar ps tp1 with
        | (Raise e, tp2) => (Raise e, (ch1, channel.set_entropy tp2 w))
        | (Ok w_m, tp2) =>
            match pedersen.random_scalar ps tp2 with
            | (Raise e, tp3) => (Raise e, (ch1, channel.set_entropy tp3 w))
            | (Ok w_r, tp3) =>
                channel._set_balances_loop rest
                  (dict.set acc pid
                     (proof_for ps balance o c
                        (channel.proof_context (channel.channel_id ch)
                           (channel.sequence (channel.state ch)) pid) w_m w_r))
                  (ch1, channel.set_entropy tp3 w)
            end
        end
    end.
Proof.
  intros G ps. cbn [channel._set_balances_loop].
  rewrite bind_eq. cbv beta iota delta [channel.self fst].
  rewrite bind_eq, draw_eq, (commit_none ps G).
  destruct (pedersen.random_scalar ps (channel.entropy w)) as [[r|e] tp1];
    [|reflexivity].
  rewrite bind_eq. cbv beta iota delta [channel.set_state modify fst snd].
  rewrite bind_eq. cbv beta iota.
  rewrite bind_eq. cbv beta iota delta [channel.self fst snd].
  rewrite bind_eq, draw_eq. cbn [channel.entropy channel.set_entropy].
  cbn [channel.params channel.map_state].
  rewrite (prove_opening_eq ps G).
  destruct (pedersen.random_scalar ps tp1) as [[w_m|e] tp2]; [|reflexivity].
  destruct (pedersen.random_scalar ps tp2) as [[w_r|e] tp3]; [|reflexivity].
  rewrite bind_eq. unfold lift.
  cbn [channel.channel_id channel.map_state channel.state channel.sequence
       channel.with_openings channel.with_commitments fst snd].
  rewrite (proof_for_accepted ps G). cbn [negb].
  reflexivity.
Qed.
End ChannelRuns.

Section ChannelRuns2.
Context {E : Ed25519}.

Lemma open_loop_step ps cid pid balance rest cs os prs w :
  subgroup_params ps ->
  channel.open_loop ps cid ((pid, balance) :: rest) (cs, os, prs) w
  = match pedersen.random_scalar ps (channel.entropy w) with
    | (Raise e, tp1) => (Raise e, channel.set_entropy tp1 w)
    | (Ok r, tp1) =>
        let c := {| pedersen.value := cval ps balance r |} in
        let o := {| pedersen.randomness := r |} in
        match pedersen.random_scalar ps tp1 with
        | (Raise e, tp2) => (Raise e, channel.set_entropy tp2 w)
        | (Ok w_m, tp2) =>
            match pedersen.random_scalar ps tp2 with
            | (Raise e, tp3) => (Raise e, channel.set_entropy tp3 w)
            | (Ok w_r, tp3) =>
                channel.open_loop ps cid rest
                  (dict.set cs pid c, dict.set os pid o,
                   dict.set prs pid
                     (proof_for ps balance o c
                        (channel.proof_context cid 0 pid) w_m w_r))
                  (channel.set_entropy tp3 w)
            end
        end
    end.
Proof.
  intros G. cbn [channel.open_loop].
  rewrite bind_eq, with_entropy_eq, (commit_none ps G).
  destruct (pedersen.random_scalar ps (channel.entropy w)) as [[r|e] tp1];
    [|reflexivity].
  cbn [fst snd].
  rewrite bind_eq, with_entropy_eq. cbn [channel.entropy channel.set_entropy].
  rewrite (prove_opening_eq ps G).
  destruct (pedersen.random_scalar ps tp1) as [[w_m|e] tp2]; [|reflexivity].
  destruct (pedersen.random_scalar ps tp2) as [[w_r|e] tp3]; [|reflexivity].
  rewrite bind_eq. unfold lift.
  rewrite (proof_for_accepted ps G). cbn [negb].
  reflexivity.
Qed.

Lemma random_scalar_loop_error ps fuel tp e tp' :
  0 < pedersen.q ps ->
  pedersen.random_scalar_loop fuel ps tp = (Raise e, tp') -> e = EntropyExhausted.
Proof.
  intros HQ. revert tp. induction fuel as [|fuel IH]; intros tp H.
  - cbn in H. injection H as <- _. reflexivity.
  - cbn [pedersen.random_scalar_loop] in H. unfold bind, secrets.randbelow in H.
    destruct (Z.leb_spec (pedersen.q ps) 0); [lia|].
    destruct tp as [|x tp].
    + injection H as <- _. reflexivity.
    + destruct (negb (x mod pedersen.q ps =? 0)).
      * discriminate.
      * eapply IH. exact H.
Qed.

Lemma random_scalar_error ps tp e tp' :
  0 < pedersen.q ps ->
  pedersen.random_scalar ps tp = (Raise e, tp') -> e = EntropyExhausted.
Proof. intros HQ. apply random_scalar_loop_error. exact HQ. Qed.

(** In a subgroup the self-check of the proving loops never fails: the
    only exception either loop can end with is the end of the tape. *)
Lemma set_balances_loop_error items acc ch w e s' :
  subgroup_params (channel.params ch) ->
  channel._set_balances_loop items acc (ch, w) = (Raise e, s') ->
  e = EntropyExhausted.
Proof.
  intros G. pose proof (order_pos _ G) as HQ.
  revert acc ch w G HQ. induction items as [|[pid balance] rest IH];
    intros acc ch w G HQ H.
  - discriminate.
  - rewrite (set_balances_loop_step pid balance rest acc ch w G) in H.
    cbv zeta in H.
    destruct (pedersen.random_scalar (channel.params ch) (channel.entropy w))
      as [[r|e1] tp1] eqn:R1.
    2:{ injection H as <- _. eapply random_scalar_error; eassumption. }
    destruct (pedersen.random_scalar (channel.params ch) tp1)
      as [[w_m|e2] tp2] eqn:R2.
    2:{ injection H as <- _. eapply random_scalar_error; eassumption. }
    destruct (pedersen.random_scalar (channel.params ch) tp2)
      as [[w_r|e3] tp3] eqn:R3.
    2:{ injection H as <- _. eapply random_scalar_error; eassumption. }
    eapply IH; [| |exact H]; assumption.
Qed.

Lemma open_loop_error ps cid items acc w e w' :
  subgroup_params ps ->
  channel.open_loop ps cid items acc w = (Raise e, w') -> e = EntropyExhausted.
Proof.
  intros G. pose proof (order_pos _ G) as HQ.
  revert acc w. induction items as [|[pid balance] rest IH]; intros [[cs os] prs] w H.
  - discriminate.
  - rewrite (open_loop_step ps cid pid balance rest cs os prs w G) in H.
    cbv zeta in H.
    destruct (pedersen.random_scalar ps (channel.entropy w)) as [[r|e1] tp1] eqn:R1.
    2:{ injection H as <- _. eapply random_scalar_error; eassumption. }
    destruct (pedersen.random_scalar ps tp1) as [[w_m|e2] tp2] eqn:R2.
    2:{ injection H as <- _. eapply random_scalar_error; eassumption. }
    destruct (pedersen.random_scalar ps tp2) as [[w_r|e3] tp3] eqn:R3.
    2:{ injection H as <- _. eapply random_scalar_error; eassumption. }
    eapply IH. exact H.
Qed.

Lemma set_balances_error bal ch w e s' :
  subgroup_params (channel.params ch) ->
  channel._set_balances bal (ch, w) = (Raise e, s') -> e = EntropyExhausted.
Proof.
  intros G H. unfold channel._set_balances in H.
  apply bind_inv in H. destruct H as [(u1 & s1 & H1 & H) | (e1 & H1 & _)];
    [|discriminate].
  cbv [channel.set_state modify] in H1. injection H1 as _ <-.
  apply bind_inv in H. destruct H as [(np & s2 & H2 & H) | (e2 & H2 & He)].
  - apply bind_inv in H. destruct H as [(u3 & s3 & H3 & H) | (e3 & H3 & _)];
      discriminate.
  - injection He as ->. eapply set_balances_loop_error; [|exact H2]. exact G.
Qed.

Lemma open_error dA dB popt cid keys w e w' :
  match popt with Some ps => subgroup_params ps | None => True end ->
  channel.open dA dB popt cid keys w = (Raise e, w') ->
  e = EntropyExhausted
  \/ e = InvalidAmountError "Deposits must be non-negative integers".
Proof.
  intros G H. unfold channel.open in H.
  destruct ((dA <? 0) || (dB <? 0)).
  { injection H as <- _. right. reflexivity. }
  apply bind_inv in H. destruct H as [(ps & w1 & H1 & H) | (e1 & H1 & He)].
  2:{ destruct popt as [ps|]; [discriminate|].
      unfold lift in H1. rewrite default_parameters_eq in H1. discriminate. }
  assert (Gps : subgroup_params ps).
  { destruct popt as [ps'|].
    - injection H1 as <- _. exact G.
    - unfold lift in H1. rewrite default_parameters_eq in H1.
      injection H1 as <- _. exact default_subgroup. }
  apply bind_inv in H. destruct H as [(cid' & w2 & H2 & H) | (e2 & H2 & He)].
  2:{ injection He as ->. left.
      destruct cid as [[|c s]|]; try discriminate;
        unfold channel.uuid4_str in H2;
        destruct (channel.fresh_uuids w1); try discriminate;
        injection H2 as <- _; reflexivity. }
  apply bind_inv in H. destruct H as [(ks & w3 & H3 & H) | (e3 & H3 & He)].
  2:{ injection He as ->. left.
      destruct keys as [ks|]; [discriminate|].
      apply bind_inv in H3. destruct H3 as [(ka & w4 & H4 & H3) | (e4 & H4 & He)].
      - apply bind_inv in H3. destruct H3 as [(kb & w5 & H5 & H3) | (e5 & H5 & He)].
        + discriminate.
        + injection He as ->. unfold channel.SigningKey_generate in H5.
          destruct (channel.fresh_keys w4); [|discriminate].
          injection H5 as <- _. reflexivity.
      - injection He as ->. unfold channel.SigningKey_generate in H4.
        destruct (channel.fresh_keys w2); [|discriminate].
        injection H4 as <- _. reflexivity. }
  apply bind_inv in H. destruct H as [(tr & w4 & H4 & H) | (e4 & H4 & He)].
  - destruct tr as [[cs os] prs]. discriminate.
  - injection He as ->. left. eapply open_loop_error; [exact Gps|exact H4].
Qed.
End ChannelRuns2.

(* ===================================================================== *)
(** * Hexadecimal text read back *)
(* ===================================================================== *)

Lemma hex_value_digit d : 0 <= d < 16 -> py.hex_value (py.hex_digit d) = Some d.
Proof.
  intros Hd.
  assert (C : d = 0 \/ d = 1 \/ d = 2 \/ d = 3 \/ d = 4 \/ d = 5 \/ d = 6 \/ d = 7
              \/ d = 8 \/ d = 9 \/ d = 10 \/ d = 11 \/ d = 12 \/ d = 13
              \/ d = 14 \/ d = 15) by lia.
  repeat (destruct C as [-> | C]; [reflexivity|]). subst d. reflexivity.
Qed.

Lemma digits_be_app base fuel x acc :
  py.digits_be base fuel x acc = py.digits_be base fuel x [] ++ acc.
Proof.
  revert x acc. induction fuel as [|fuel IH]; intros x acc; cbn [py.digits_be].
  - reflexivity.
  - destruct (x <? base); [reflexivity|].
    rewrite (IH (x / base) (x mod base :: acc)), (IH (x / base) [x mod base]).
    rewrite <- app_assoc. reflexivity.
Qed.

Lemma digits_be_range fuel x :
  0 <= x -> Forall (fun d => 0 <= d < 16) (py.digits_be 16 fuel x []).
Proof.
  revert x. induction fuel as [|fuel IH]; intros x Hx; cbn [py.digits_be].
  - constructor.
  - destruct (Z.ltb_spec x 16).
    + constructor; [lia|constructor].
    + rewrite digits_be_app. apply Forall_app. split.
      * apply IH. apply Z.div_pos; lia.
      * constructor; [apply Z.mod_pos_bound; lia|constructor].
Qed.

Lemma digits_be_value fuel x :
  0 <= x < 2 ^ Z.of_nat fuel ->
  fold_left (fun a d => 16 * a + d) (py.digits_be 16 fuel x []) 0 = x.
Proof.
  revert x. induction fuel as [|fuel IH]; intros x Hx.
  - cbn in Hx. cbn. lia.
  - cbn [py.digits_be]. destruct (Z.ltb_spec x 16).
    + cbn [fold_left]. lia.
    + rewrite digits_be_app, fold_left_app, IH.
      * cbn [fold_left]. pose proof (Z.div_mod x 16 ltac:(lia)). lia.
      * split; [apply Z.div_pos; lia|].
        rewrite Nat2Z.inj_succ, Z.pow_succ_r in Hx by lia.
        pose proof (Z.pow_nonneg 2 (Z.of_nat fuel) ltac:(lia)).
        apply Z.div_lt_upper_bound; lia.
Qed.

Lemma digits_be_nonempty fuel x : py.digits_be 16 (S fuel) x [] <> [].
Proof.
  cbn [py.digits_be]. destruct (x <? 16); [discriminate|].
  rewrite digits_be_app. intros H. apply app_eq_nil in H. destruct H. discriminate.
Qed.

(** The digits [format(x, "x")] writes are plain: no white space, no
    sign, no underscore, no base prefix, all ASCII. *)
Lemma hex_digit_plain d :
  0 <= d < 16 ->
  py.isspace (py.hex_digit d) = false
  /\ py.is_ascii (py.hex_digit d) = true
  /\ Ascii.eqb (py.hex_digit d) "_" = false
  /\ Ascii.eqb (py.hex_digit d) "+" = false
  /\ Ascii.eqb (py.hex_digit d) "-" = false
  /\ Ascii.eqb (py.hex_digit d) "x" = false
  /\ Ascii.eqb (py.hex_digit d) "X" = false.
Proof.
  intros Hd.
  assert (C : d = 0 \/ d = 1 \/ d = 2 \/ d = 3 \/ d = 4 \/ d = 5 \/ d = 6 \/ d = 7
              \/ d = 8 \/ d = 9 \/ d = 10 \/ d = 11 \/ d = 12 \/ d = 13
              \/ d = 14 \/ d = 15) by lia.
  repeat (destruct C as [-> | C]; [repeat split; reflexivity|]).
  subst d. repeat split; reflexivity.
Qed.

Lemma scan_hex_digits ds a :
  Forall (fun d => 0 <= d < 16) ds ->
  py.scan_hex (List.map py.hex_digit ds) false a
  = Some (fold_left (fun a d => 16 * a + d) ds a, []).
Proof.
  intros H. revert a. induction H as [|d ds Hd _ IH]; intros a;
    cbn [List.map py.scan_hex fold_left].
  - reflexivity.
  - destruct (hex_digit_plain d Hd) as (_ & _ & -> & _).
    rewrite (hex_value_digit d Hd). apply IH.
Qed.

Lemma digits_ascii ds :
  Forall (fun d => 0 <= d < 16) ds ->
  forallb py.is_ascii (List.map py.hex_digit ds) = true.
Proof.
  induction 1 as [|d ds Hd _ IH]; cbn [List.map forallb]; [reflexivity|].
  destruct (hex_digit_plain d Hd) as (_ & -> & _). exact IH.
Qed.

(** Reading back a run of digits, bare or after a minus sign. *)
Lemma long_from_string16_digits d ds :
  Forall (fun d => 0 <= d < 16) (d :: ds) ->
  py.long_from_string16 (List.map py.hex_digit (d :: ds))
  = Some (fold_left (fun a d => 16 * a + d) (d :: ds) 0)
  /\ py.long_from_string16 ("-"%char :: List.map py.hex_digit (d :: ds))
     = Some (- fold_left (fun a d => 16 * a + d) (d :: ds) 0).
Proof.
  intros H. pose proof (scan_hex_digits (d :: ds) 0 H) as Hs.
  inversion H as [|? ? Hd Hds]; subst.
  destruct (hex_digit_plain d Hd) as (Sp & _ & Us & Pl & Mi & _ & _).
  assert (Px : match List.map py.hex_digit (d :: ds) with
               | c0 :: c1 :: rest =>
                   if Ascii.eqb c0 "0" && (Ascii.eqb c1 "x" || Ascii.eqb c1 "X")
                   then match rest with
                        | c2 :: rest' => if Ascii.eqb c2 "_" then rest' else rest
                        | [] => rest
                        end
                   else List.map py.hex_digit (d :: ds)
               | _ => List.map py.hex_digit (d :: ds)
               end = List.map py.hex_digit (d :: ds)).
  { destruct ds as [|d1 ds1]; [reflexivity|].
    inversion Hds as [|? ? Hd1 _]; subst.
    destruct (hex_digit_plain d1 Hd1) as (_ & _ & _ & _ & _ & Ex & EX).
    cbn [List.map]. rewrite Ex, EX, Bool.andb_false_r. reflexivity. }
  split; unfold py.long_from_string16.
  - cbn [List.map py.skip_spaces] in *. rewrite Sp, Pl, Mi. cbn [orb].
    rewrite Px, Us, (hex_value_digit d Hd), Hs. reflexivity.
  - change (py.skip_spaces ("-"%char :: List.map py.hex_digit (d :: ds)))
      with ("-"%char :: List.map py.hex_digit (d :: ds)).
    cbn [Ascii.eqb Bool.eqb orb andb].
    cbn [List.map] in *. rewrite Px, Us, (hex_value_digit d Hd), Hs. reflexivity.
Qed.

(** The digits of a natural number: at least one, each below 16, and
    their value is the number. *)
Lemma digits_16 x :
  0 <= x ->
  exists d ds,
    py.digits 16 x = d :: ds
    /\ Forall (fun d => 0 <= d < 16) (d :: ds)
    /\ fold_left (fun a d => 16 * a + d) (d :: ds) 0 = x.
Proof.
  intros Hx. unfold py.digits.
  pose proof (digits_be_nonempty (Z.to_nat (Z.log2 x)) x) as Hne.
  pose proof (digits_be_range (S (Z.to_nat (Z.log2 x))) x Hx) as Hr.
  assert (Hv : fold_left (fun a d => 16 * a + d)
                 (py.digits_be 16 (S (Z.to_nat (Z.log2 x))) x []) 0 = x).
  { apply digits_be_value. split; [lia|].
    rewrite Nat2Z.inj_succ, Z2Nat.id by apply Z.log2_nonneg.
    destruct (Z.eq_dec x 0) as [->|]; [reflexivity|].
    apply Z.log2_spec. lia. }
  destruct (py.digits_be 16 (S (Z.to_nat (Z.log2 x))) x []) as [|d ds];
    [contradiction|].
  exists d, ds. repeat split; assumption.
Qed.

(** [int(format(x, "x"), 16) == x] for every integer, the sign included. *)
Lemma int16_format_x_all x : py.int16 (py.format_x x) = Ok x.
Proof.
  unfold py.format_x, py.int16, py.transform_decimal_and_space,
    py.string_of_digits.
  destruct (Z.ltb_spec x 0) as [Hneg|Hpos].
  - destruct (digits_16 (- x) ltac:(lia)) as (d & ds & -> & Hr & Hv).
    cbn [list_ascii_of_string]. rewrite list_ascii_of_string_of_list_ascii.
    cbn [forallb]. rewrite (digits_ascii _ Hr).
    change (py.is_ascii "-" && true) with true. cbv iota.
    destruct (long_from_string16_digits d ds Hr) as [_ ->].
    rewrite Hv. f_equal; lia.
  - destruct (digits_16 x Hpos) as (d & ds & -> & Hr & Hv).
    rewrite list_ascii_of_string_of_list_ascii, (digits_ascii _ Hr).
    destruct (long_from_string16_digits d ds Hr) as [-> _].
    rewrite Hv. reflexivity.
Qed.

(** [int(format(x, "x"), 16) == x] for a natural number [x]. *)
Lemma int16_format_x x : 0 <= x -> py.int16 (py.format_x x) = Ok x.
Proof. intros _. apply int16_format_x_all. Qed.

Lemma hex_byte b :
  py.hex_value (py.hex_digit (py.Z_of_byte b / 16)) = Some (py.Z_of_byte b / 16)
  /\ py.hex_value (py.hex_digit (py.Z_of_byte b mod 16)) = Some (py.Z_of_byte b mod 16)
  /\ py.byte_of_Z (16 * (py.Z_of_byte b / 16) + py.Z_of_byte b mod 16) = b
  /\ py.isspace (py.hex_digit (py.Z_of_byte b / 16)) = false.
Proof. destruct b; vm_compute; repeat split. Qed.

(** [bytes.fromhex(bs.hex()) == bs] *)
Lemma fromhex_hex bs : py.fromhex (py.hex bs) = Ok bs.
Proof.
  unfold py.fromhex, py.hex. rewrite list_ascii_of_string_of_list_ascii.
  assert (H : py.fromhex_pairs
                (List.flat_map
                   (fun b => [py.hex_digit (py.Z_of_byte b / 16);
                              py.hex_digit (py.Z_of_byte b mod 16)]) bs)
              = Some bs).
  { induction bs as [|b bs IH]; [reflexivity|].
    cbn [List.flat_map app py.fromhex_pairs].
    destruct (hex_byte b) as (-> & -> & -> & ->). rewrite IH. reflexivity. }
  rewrite H. reflexivity.
Qed.

(* ===================================================================== *)
(** * Runs of the channel on a subgroup *)
(* ===================================================================== *)

Section ChannelRuns3.
Context {E : Ed25519}.

Lemma set_balances_loop_step_run pid balance rest acc ch w n :
  subgroup_params (channel.params ch) ->
  usable (pedersen.q (channel.params ch)) (3 + n) (channel.entropy w) = true ->
  exists d tp',
    in_range (channel.params ch) d
    /\ usable (pedersen.q (channel.params ch)) n tp' = true
    /\ channel._set_balances_loop ((pid, balance) :: rest) acc (ch, w)
       = channel._set_balances_loop rest
           (dict.set acc pid
              (slot_proof (channel.params ch) (channel.channel_id ch)
                 (channel.sequence (channel.state ch)) pid balance
                 (fst (fst d)) (snd (fst d)) (snd d)))
           (recommitted pid
              (slot_commitment (channel.params ch) balance (fst (fst d)))
              (slot_opening (fst (fst d))) ch,
            channel.set_entropy tp' w).
Proof.
  intros G U.
  rewrite (set_balances_loop_step pid balance rest acc ch w G). cbv zeta.
  destruct (random_scalar_usable _ G _ _ U) as (r & tp1 & -> & U1 & Hr).
  destruct (random_scalar_usable _ G _ _ U1) as (w_m & tp2 & -> & U2 & _).
  destruct (random_scalar_usable _ G _ _ U2) as (w_r & tp3 & -> & U3 & _).
  exists (r, w_m, w_r), tp3. split; [exact Hr|]. split; [exact U3|]. reflexivity.
Qed.

Lemma open_loop_step_run ps cid pid balance rest cs os prs w n :
  subgroup_params ps ->
  usable (pedersen.q ps) (3 + n) (channel.entropy w) = true ->
  exists d tp',
    in_range ps d
    /\ usable (pedersen.q ps) n tp' = true
    /\ channel.open_loop ps cid ((pid, balance) :: rest) (cs, os, prs) w
       = channel.open_loop ps cid rest
           (dict.set cs pid (slot_commitment ps balance (fst (fst d))),
            dict.set os pid (slot_opening (fst (fst d))),
            dict.set prs pid
              (slot_proof ps cid 0 pid balance (fst (fst d)) (snd (fst d)) (snd d)))
           (channel.set_entropy tp' w).
Proof.
  intros G U.
  rewrite (open_loop_step ps cid pid balance rest cs os prs w G). cbv zeta.
  destruct (random_scalar_usable _ G _ _ U) as (r & tp1 & -> & U1 & Hr).
  destruct (random_scalar_usable _ G _ _ U1) as (w_m & tp2 & -> & U2 & _).
  destruct (random_scalar_usable _ G _ _ U2) as (w_r & tp3 & -> & U3 & _).
  exists (r, w_m, w_r), tp3. split; [exact Hr|]. split; [exact U3|]. reflexivity.
Qed.

(** [_set_balances] on a state of the standard shape, with six usable
    tape entries. *)
Lemma set_balances_run ch w a b n :
  subgroup_params (channel.params ch) ->
  shaped (channel.state ch) ->
  usable (pedersen.q (channel.params ch)) (6 + n) (channel.entropy w) = true ->
  exists da db tp',
    in_range (channel.params ch) da /\ in_range (channel.params ch) db
    /\ usable (pedersen.q (channel.params ch)) n tp' = true
    /\ channel._set_balances [("alice", a); ("bob", b)] (ch, w)
       = (Ok tt,
          (channel.map_state
             (fun _ => proven_state (channel.params ch) (channel.channel_id ch)
                         (channel.sequence (channel.state ch)) a b da db [])
             ch,
           channel.set_entropy tp' w)).
Proof.
  intros G Hst U. unfold channel._set_balances.
  rewrite bind_eq. cbv beta iota delta [channel.set_state modify fst snd].
  rewrite bind_eq.
  match goal with |- context [channel._set_balances_loop _ _ (?c, _)] =>
    set (ch1 := c) end.
  assert (G1 : subgroup_params (channel.params ch1)) by exact G.
  destruct (set_balances_loop_step_run "alice" a [("bob", b)] [] ch1 w (3 + n) G1 U)
    as (da & tp1 & Ra & U1 & ->).
  match goal with |- context [channel._set_balances_loop _ ?acc (?c, ?w')] =>
    set (acc1 := acc); set (ch2 := c); set (w2 := w') end.
  assert (G2 : subgroup_params (channel.params ch2)) by exact G.
  destruct (set_balances_loop_step_run "bob" b [] acc1 ch2 w2 n G2 U1)
    as (db & tp2 & Rb & U2 & ->).
  exists da, db, tp2. split; [exact Ra|]. split; [exact Rb|]. split; [exact U2|].
  cbn [channel._set_balances_loop]. unfold ret.
  rewrite bind_eq. cbv beta iota delta [channel.set_state modify fst snd].
  subst acc1 ch2 w2 ch1.
  destruct ch as [cid ps parts st hist].
  destruct st as [seq bal cms ops prs sgs].
  destruct Hst as ((a0 & b0 & Hb) & (c1 & c2 & Hc) & (o1 & o2 & Ho)).
  cbn in Hb, Hc, Ho. subst bal cms ops.
  destruct da as [[r1 m1] s1], db as [[r2 m2] s2].
  reflexivity.
Qed.

Lemma proven_state_shaped ps cid seq a b da db sigs :
  shaped (proven_state ps cid seq a b da db sigs).
Proof.
  destruct da as [[r1 m1] s1], db as [[r2 m2] s2].
  unfold shaped. cbn. repeat split; eauto.
Qed.

(** The same facts read off a successful run. *)
Lemma set_balances_loop_step_ok pid balance rest acc ch w np s' :
  subgroup_params (channel.params ch) ->
  channel._set_balances_loop ((pid, balance) :: rest) acc (ch, w) = (Ok np, s') ->
  exists d tp',
    in_range (channel.params ch) d
    /\ channel._set_balances_loop rest
         (dict.set acc pid
            (slot_proof (channel.params ch) (channel.channel_id ch)
               (channel.sequence (channel.state ch)) pid balance
               (fst (fst d)) (snd (fst d)) (snd d)))
         (recommitted pid
            (slot_commitment (channel.params ch) balance (fst (fst d)))
            (slot_opening (fst (fst d))) ch,
          channel.set_entropy tp' w)
       = (Ok np, s').
Proof.
  intros G H.
  rewrite (set_balances_loop_step pid balance rest acc ch w G) in H. cbv zeta in H.
  destruct (pedersen.random_scalar (channel.params ch) (channel.entropy w))
    as [[r|e1] tp1] eqn:R1; [|discriminate].
  destruct (pedersen.random_scalar (channel.params ch) tp1)
    as [[w_m|e2] tp2] eqn:R2; [|discriminate].
  destruct (pedersen.random_scalar (channel.params ch) tp2)
    as [[w_r|e3] tp3] eqn:R3; [|discriminate].
  exists (r, w_m, w_r), tp3. split; [|exact H].
  eapply random_scalar_range; [exact G|exact R1].
Qed.

Lemma set_balances_inv ch w a b u s' :
  subgroup_params (channel.params ch) ->
  shaped (channel.state ch) ->
  channel._set_balances [("alice", a); ("bob", b)] (ch, w) = (Ok u, s') ->
  exists da db tp',
    in_range (channel.params ch) da /\ in_range (channel.params ch) db
    /\ s' = (channel.map_state
               (fun _ => proven_state (channel.params ch) (channel.channel_id ch)
                           (channel.sequence (channel.state ch)) a b da db [])
               ch,
             channel.set_entropy tp' w).
Proof.
  intros G Hst H. unfold channel._set_balances in H.
  apply bind_inv_ok in H. destruct H as (u1 & s1 & H1 & H).
  cbv beta iota delta [channel.set_state modify fst snd] in H1.
  injection H1 as _ <-.
  apply bind_inv_ok in H. destruct H as (np & s2 & H2 & H).
  match type of H2 with channel._set_balances_loop _ _ (?c, _) = _ =>
    set (ch1 := c) in * end.
  assert (G1 : subgroup_params (channel.params ch1)) by exact G.
  apply (set_balances_loop_step_ok _ _ _ _ _ _ _ _ G1) in H2.
  destruct H2 as (da & tp1 & Ra & H2).
  match type of H2 with channel._set_balances_loop _ _ (?c, _) = _ =>
    set (ch2 := c) in * end.
  assert (G2 : subgroup_params (channel.params ch2)) by exact G.
  apply (set_balances_loop_step_ok _ _ _ _ _ _ _ _ G2) in H2.
  destruct H2 as (db & tp2 & Rb & H2).
  cbn [channel._set_balances_loop] in H2. unfold ret in H2.
  injection H2 as <- <-.
  apply bind_inv_ok in H. destruct H as (u3 & s3 & H3 & H).
  cbv beta iota delta [channel.set_state modify fst snd] in H3.
  injection H3 as _ <-.
  cbv beta iota delta [channel.set_state modify fst snd] in H.
  injection H as _ <-.
  exists da, db, tp2. split; [exact Ra|]. split; [exact Rb|].
  subst ch2 ch1.
  destruct ch as [cid ps parts st hist].
  destruct st as [seq bal cms ops prs sgs].
  destruct Hst as ((a0 & b0 & Hb) & (c1 & c2 & Hc) & (o1 & o2 & Ho)).
  cbn in Hb, Hc, Ho. subst bal cms ops.
  destruct da as [[r1 m1] s1], db as [[r2 m2] s2].
  reflexivity.
Qed.

(** A payment that passes the three checks is [_set_balances] on the new
    balances, followed by the history entry. *)
Lemma apply_payment_eq ch w payer amount x a b :
  channel.balances (channel.state ch) = [("alice", a); ("bob", b)] ->
  dict.contains (channel.participants ch) payer = true ->
  dict.get (channel.balances (channel.state ch)) payer = Some x ->
  0 < amount <= x ->
  channel.apply_payment payer amount (ch, w)
  = match channel._set_balances
            [("alice", fst (paid payer amount a b));
             ("bob", snd (paid payer amount a b))]
            (channel.map_state
               (fun st => channel.with_sequence (channel.sequence st + 1) st) ch,
             w) with
    | (Ok _, (ch2, w2)) =>
        (Ok (channel.state ch2),
         (channel.map_history (fun hs => hs ++ [channel.clone (channel.state ch2)])
            ch2, w2))
    | (Raise e, s) => (Raise e, s)
    end.
Proof.
  intros Hb Hin Hx Ha.
  unfold channel.apply_payment.
  rewrite bind_eq. cbv beta iota delta [channel.self fst].
  rewrite Hin. cbn [negb].
  destruct (Z.leb_spec amount 0); [lia|].
  rewrite bind_eq. unfold lift, dict.getitem. rewrite Hx.
  destruct (Z.gtb_spec amount x); [lia|].
  rewrite Hb in Hx |- *.
  cbn [dict.get] in Hx.
  assert (Hp : payer = "alice" /\ x = a \/ payer = "bob" /\ x = b).
  { destruct (String.eqb_spec payer "alice") as [-> | Hna].
    - left. split; [reflexivity|congruence].
    - destruct (String.eqb_spec payer "bob") as [-> | Hnb]; [|discriminate].
      right. split; [reflexivity|congruence]. }
  destruct Hp as [[-> ->] | [-> ->]].
  - cbn [channel._other String.eqb Ascii.eqb Bool.eqb].
    rewrite bind_eq. cbn [dict.get dict.set String.eqb Ascii.eqb Bool.eqb].
    rewrite bind_eq. cbn [dict.get dict.set String.eqb Ascii.eqb Bool.eqb].
    rewrite bind_eq. cbn [dict.get dict.set String.eqb Ascii.eqb Bool.eqb].
    rewrite bind_eq. cbv beta iota delta [channel.set_state modify fst snd].
    rewrite bind_eq.
    unfold paid. cbn [String.eqb Ascii.eqb Bool.eqb fst snd].
    destruct (channel._set_balances _ _) as [[u|e] [ch2 w2]]; [|reflexivity].
    rewrite bind_eq. cbv beta iota delta [channel.self fst].
    rewrite bind_eq. cbv beta iota delta [channel.set_history modify fst snd].
    rewrite bind_eq. cbv beta iota delta [channel.self fst ret].
    reflexivity.
  - cbn [channel._other String.eqb Ascii.eqb Bool.eqb].
    rewrite bind_eq. cbn [dict.get dict.set String.eqb Ascii.eqb Bool.eqb].
    rewrite bind_eq. cbn [dict.get dict.set String.eqb Ascii.eqb Bool.eqb].
    rewrite bind_eq. cbn [dict.get dict.set String.eqb Ascii.eqb Bool.eqb].
    rewrite bind_eq. cbv beta iota delta [channel.set_state modify fst snd].
    rewrite bind_eq.
    unfold paid. cbn [String.eqb Ascii.eqb Bool.eqb fst snd].
    destruct (channel._set_balances _ _) as [[u|e] [ch2 w2]]; [|reflexivity].
    rewrite bind_eq. cbv beta iota delta [channel.self fst].
    rewrite bind_eq. cbv beta iota delta [channel.set_history modify fst snd].
    rewrite bind_eq. cbv beta iota delta [channel.self fst ret].
    reflexivity.
Qed.

(** With six usable tape entries the payment goes through. *)
Lemma apply_payment_run ch w payer amount n x a b :
  subgroup_params (channel.params ch) ->
  shaped (channel.state ch) ->
  channel.balances (channel.state ch) = [("alice", a); ("bob", b)] ->
  dict.contains (channel.participants ch) payer = true ->
  dict.get (channel.balances (channel.state ch)) payer = Some x ->
  0 < amount <= x ->
  usable (pedersen.q (channel.params ch)) (6 + n) (channel.entropy w) = true ->
  exists da db tp' st',
    in_range (channel.params ch) da /\ in_range (channel.params ch) db
    /\ usable (pedersen.q (channel.params ch)) n tp' = true
    /\ st' = proven_state (channel.params ch) (channel.channel_id ch)
               (channel.sequence (channel.state ch) + 1)
               (fst (paid payer amount a b)) (snd (paid payer amount a b))
               da db []
    /\ channel.apply_payment payer amount (ch, w)
       = (Ok st',
          (channel.map_history (fun hs => hs ++ [channel.clone st'])
             (channel.map_state (fun _ => st') ch),
           channel.set_entropy tp' w)).
Proof.
  intros G Hst Hb Hin Hx Ha U.
  set (ch1 := channel.map_state
                (fun st => channel.with_sequence (channel.sequence st + 1) st) ch).
  assert (G1 : subgroup_params (channel.params ch1)) by exact G.
  assert (S1 : shaped (channel.state ch1)).
  { destruct Hst as (H1 & H2 & H3). repeat split; assumption. }
  destruct (set_balances_run ch1 w (fst (paid payer amount a b))
              (snd (paid payer amount a b)) n G1 S1 U)
    as (da & db & tp' & Ra & Rb & U' & Hrun).
  exists da, db, tp'. eexists.
  split; [exact Ra|]. split; [exact Rb|]. split; [exact U'|].
  split; [reflexivity|].
  rewrite (apply_payment_eq ch w payer amount x a b Hb Hin Hx Ha).
  fold ch1. rewrite Hrun. reflexivity.
Qed.

(** What a successful payment leaves behind on a standard channel. *)
Lemma apply_payment_inv ch w payer amount st ch' w' :
  subgroup_params (channel.params ch) ->
  shaped (channel.state ch) ->
  channel.apply_payment payer amount (ch, w) = (Ok st, (ch', w')) ->
  exists a b da db,
    channel.balances (channel.state ch) = [("alice", a); ("bob", b)]
    /\ in_range (channel.params ch) da /\ in_range (channel.params ch) db
    /\ st = proven_state (channel.params ch) (channel.channel_id ch)
              (channel.sequence (channel.state ch) + 1)
              (fst (paid payer amount a b)) (snd (paid payer amount a b))
              da db []
    /\ ch' = channel.map_history (fun hs => hs ++ [channel.clone st])
               (channel.map_state (fun _ => st) ch).
Proof.
  intros G Hst H.
  pose proof Hst as ((a & b & Hb) & _).
  destruct (apply_payment_ok _ _ _ _ _ _ _ H)
    as (payee & x & y & Hin & Ha & _ & Hx & _).
  rewrite (apply_payment_eq ch w payer amount x a b Hb Hin Hx Ha) in H.
  set (ch1 := channel.map_state
                (fun st => channel.with_sequence (channel.sequence st + 1) st) ch)
    in *.
  assert (G1 : subgroup_params (channel.params ch1)) by exact G.
  assert (S1 : shaped (channel.state ch1)).
  { destruct Hst as (H1 & H2 & H3). repeat split; assumption. }
  destruct (channel._set_balances _ (ch1, w)) as [[u|e] [ch2 w2]] eqn:Hs;
    [|discriminate].
  apply (set_balances_inv ch1 w _ _ u _ G1 S1) in Hs.
  destruct Hs as (da & db & tp' & Ra & Rb & Hs).
  injection Hs as -> ->. injection H as <- <- <-.
  exists a, b, da, db. split; [exact Hb|]. split; [exact Ra|]. split; [exact Rb|].
  split; reflexivity.
Qed.
End ChannelRuns3.

(* ===================================================================== *)
(** * Opening a channel *)
(* ===================================================================== *)

Section Opening.
Context {E : Ed25519}.

Lemma open_loop_inv ps cid dA dB w tr w' :
  subgroup_params ps ->
  channel.open_loop ps cid [("alice", dA); ("bob", dB)] ([], [], []) w
  = (Ok tr, w') ->
  exists da db tp',
    in_range ps da /\ in_range ps db
    /\ w' = channel.set_entropy tp' w
    /\ tr = (channel.commitments (proven_state ps cid 0 dA dB da db []),
             channel.openings (proven_state ps cid 0 dA dB da db []),
             channel.proofs (proven_state ps cid 0 dA dB da db [])).
Proof.
  intros G H.
  rewrite (open_loop_step ps cid _ _ _ _ _ _ w G) in H. cbv zeta in H.
  destruct (pedersen.random_scalar ps (channel.entropy w)) as [[r1|e] tp1] eqn:R1;
    [|discriminate].
  destruct (pedersen.random_scalar ps tp1) as [[m1|e] tp2] eqn:R2; [|discriminate].
  destruct (pedersen.random_scalar ps tp2) as [[s1|e] tp3] eqn:R3; [|discriminate].
  rewrite (open_loop_step ps cid _ _ _ _ _ _ _ G) in H. cbv zeta in H.
  cbn [channel.entropy channel.set_entropy] in H.
  destruct (pedersen.random_scalar ps tp3) as [[r2|e] tp4] eqn:R4; [|discriminate].
  destruct (pedersen.random_scalar ps tp4) as [[m2|e] tp5] eqn:R5; [|discriminate].
  destruct (pedersen.random_scalar ps tp5) as [[s2|e] tp6] eqn:R6; [|discriminate].
  cbn [channel.open_loop] in H. unfold ret in H. injection H as <- <-.
  exists (r1, m1, s1), (r2, m2, s2), tp6.
  split; [eapply random_scalar_range; [exact G|exact R1]|].
  split; [eapply random_scalar_range; [exact G|exact R4]|].
  split; reflexivity.
Qed.

Lemma open_loop_run ps cid dA dB w n :
  subgroup_params ps ->
  usable (pedersen.q ps) (6 + n) (channel.entropy w) = true ->
  exists da db tp',
    in_range ps da /\ in_range ps db
    /\ usable (pedersen.q ps) n tp' = true
    /\ channel.open_loop ps cid [("alice", dA); ("bob", dB)] ([], [], []) w
       = (Ok (channel.commitments (proven_state ps cid 0 dA dB da db []),
              channel.openings (proven_state ps cid 0 dA dB da db []),
              channel.proofs (proven_state ps cid 0 dA dB da db [])),
          channel.set_entropy tp' w).
Proof.
  intros G U.
  destruct (open_loop_step_run ps cid "alice" dA [("bob", dB)] [] [] [] w (3 + n) G U)
    as (da & tp1 & Ra & U1 & H1).
  destruct (open_loop_step_run ps cid "bob" dB []
              (dict.set [] "alice" (slot_commitment ps dA (fst (fst da))))
              (dict.set [] "alice" (slot_opening (fst (fst da))))
              (dict.set [] "alice"
                 (slot_proof ps cid 0 "alice" dA (fst (fst da)) (snd (fst da))
                    (snd da)))
              (channel.set_entropy tp1 w) n G U1)
    as (db & tp2 & Rb & U2 & H2).
  exists da, db, tp2. split; [exact Ra|]. split; [exact Rb|]. split; [exact U2|].
  etransitivity; [exact H1|]. etransitivity; [exact H2|].
  destruct da as [[r1 m1] s1], db as [[r2 m2] s2]. reflexivity.
Qed.

(** What a successful [open] returns on subgroup parameters. *)
Lemma open_inv dA dB popt cid_opt keys w ch w' :
  match popt with Some ps => subgroup_params ps | None => True end ->
  channel.open dA dB popt cid_opt keys w = (Ok ch, w') ->
  exists ps cid ks da db,
    subgroup_params ps
    /\ match popt with Some ps' => ps = ps' | None => ps = default_params end
    /\ match keys with
       | Some ks' => ks = ks'
       | None => exists ka kb, ks = [("alice", ka); ("bob", kb)]
       end
    /\ 0 <= dA /\ 0 <= dB
    /\ in_range ps da /\ in_range ps db
    /\ ch = channel.Channel_init cid ps (participants_of ks)
              (proven_state ps cid 0 dA dB da db []) [].
Proof.
  intros G H. unfold channel.open in H.
  destruct (Z.ltb_spec dA 0) as [|HA]; [discriminate|].
  destruct (Z.ltb_spec dB 0) as [|HB]; [discriminate|]. cbn [orb] in H.
  apply bind_inv_ok in H. destruct H as (ps & w1 & H1 & H).
  assert (Hps : subgroup_params ps
                /\ match popt with Some ps' => ps = ps' | None => ps = default_params end).
  { destruct popt as [ps'|].
    - injection H1 as <- _. split; [exact G|reflexivity].
    - unfold lift in H1. rewrite default_parameters_eq in H1.
      injection H1 as <- _. split; [exact default_subgroup|reflexivity]. }
  destruct Hps as [Gps Hps].
  apply bind_inv_ok in H. destruct H as (cid & w2 & H2 & H).
  apply bind_inv_ok in H. destruct H as (ks & w3 & H3 & H).
  assert (Hks : match keys with
                | Some ks' => ks = ks'
                | None => exists ka kb, ks = [("alice", ka); ("bob", kb)]
                end).
  { destruct keys as [ks'|].
    - injection H3 as <- _. reflexivity.
    - apply bind_inv_ok in H3. destruct H3 as (ka & w4 & _ & H3).
      apply bind_inv_ok in H3. destruct H3 as (kb & w5 & _ & H3).
      injection H3 as <- _. exists ka, kb. reflexivity. }
  apply bind_inv_ok in H. destruct H as (tr & w4 & H4 & H).
  change (dict.of_items [("alice", dA); ("bob", dB)])
    with [("alice", dA); ("bob", dB)] in H4, H.
  apply (open_loop_inv ps cid dA dB w3 tr w4 Gps) in H4.
  destruct H4 as (da & db & tp' & Ra & Rb & -> & ->).
  cbv beta iota in H. unfold ret in H. injection H as <- _.
  exists ps, cid, ks, da, db.
  split; [exact Gps|]. split; [exact Hps|]. split; [exact Hks|].
  split; [assumption|]. split; [assumption|].
  split; [exact Ra|]. split; [exact Rb|].
  destruct da as [[r1 m1] s1], db as [[r2 m2] s2]. reflexivity.
Qed.

(** [Channel.open(dA, dB)] with everything drawn from the world. *)
Lemma open_run dA dB popt ps w n u us ka kb ks :
  match popt with Some ps' => ps' = ps | None => default_params = ps end ->
  subgroup_params ps ->
  0 <= dA -> 0 <= dB ->
  channel.fresh_uuids w = u :: us ->
  channel.fresh_keys w = ka :: kb :: ks ->
  usable (pedersen.q ps) (6 + n) (channel.entropy w) = true ->
  exists da db tp',
    in_range ps da /\ in_range ps db
    /\ usable (pedersen.q ps) n tp' = true
    /\ channel.open dA dB popt None None w
       = (Ok (channel.Channel_init u ps
                (participants_of [("alice", ka); ("bob", kb)])
                (proven_state ps u 0 dA dB da db []) []),
          {| channel.entropy := tp'; channel.fresh_keys := ks;
             channel.fresh_uuids := us |}).
Proof.
  intros Hps G HA HB Hu Hk U.
  set (w3 := {| channel.entropy := channel.entropy w; channel.fresh_keys := ks;
                channel.fresh_uuids := us |}).
  destruct (open_loop_run ps u dA dB w3 n G U) as (da & db & tp' & Ra & Rb & U' & L).
  exists da, db, tp'. split; [exact Ra|]. split; [exact Rb|]. split; [exact U'|].
  unfold channel.open.
  destruct (Z.ltb_spec dA 0) as [|_]; [lia|].
  destruct (Z.ltb_spec dB 0) as [|_]; [lia|].
  cbn [orb].
  rewrite bind_eq.
  assert (H1 : match popt with
               | Some ps0 => ret ps0
               | None => lift pedersen.default_parameters
               end w = (Ok ps, w)).
  { destruct popt as [ps'|].
    - subst ps'. reflexivity.
    - unfold lift. rewrite default_parameters_eq, Hps. reflexivity. }
  rewrite H1.
  rewrite bind_eq. unfold channel.uuid4_str at 1. rewrite Hu.
  rewrite bind_eq, bind_eq.
  unfold channel.SigningKey_generate at 1. cbn [channel.fresh_keys]. rewrite Hk.
  rewrite bind_eq.
  unfold channel.SigningKey_generate at 1. cbn [channel.fresh_keys].
  unfold ret at 1.
  cbn [channel.entropy channel.fresh_uuids].
  rewrite bind_eq.
  change (dict.of_items [("alice", dA); ("bob", dB)])
    with [("alice", dA); ("bob", dB)].
  fold w3. rewrite L.
  destruct da as [[r1 m1] s1], db as [[r2 m2] s2]. reflexivity.
Qed.
End Opening.

(* ===================================================================== *)
(** * Claims about the channel *)
(* ===================================================================== *)

Section ChannelClaims.
Context {E : Ed25519}.




Lemma conserved_paid total ch payer amount st ch' w w' :
  conserved total ch ->
  channel.apply_payment payer amount (ch, w) = (Ok st, (ch', w')) ->
  conserved total ch'.
Proof.
  intros (a & b & Hb & Hsum) H.
  destruct (apply_payment_ok _ _ _ _ _ _ _ H)
    as (payee & x & y & _ & _ & Ho & Hx & Hy & Hbal & _).
  rewrite Hb in Hx, Hy, Hbal. unfold conserved. rewrite Hbal. clear Hbal H.
  cbn [dict.get] in Hx.
  destruct (String.eqb_spec payer "alice") as [-> | Hna].
  - injection Hx as <-. cbn in Ho. injection Ho as <-.
    cbn in Hy. injection Hy as <-.
    exists (a - amount), (b + amount). split; [reflexivity|lia].
  - destruct (String.eqb_spec payer "bob") as [-> | Hnb]; [|discriminate].
    injection Hx as <-. cbn in Ho. injection Ho as <-.
    cbn in Hy. injection Hy as <-.
    exists (a + amount), (b - amount). split; [reflexivity|lia].
Qed.

Lemma conserved_payments total calls ch w u ch' w' :
  conserved total ch ->
  apply_payments calls (ch, w) = (Ok u, (ch', w')) ->
  conserved total ch'.
Proof.
  revert ch w. induction calls as [|[payer amount] rest IH]; intros ch w C H.
  - cbv in H. injection H as _ <- <-. exact C.
  - unfold apply_payments in H. cbn [for_each] in H.
    apply bind_inv_ok in H. destruct H as (u1 & [ch1 w1] & H1 & H).
    apply bind_inv_ok in H1. destruct H1 as (st & [ch2 w2] & H2 & H1).
    unfold ret in H1. injection H1 as _ <- <-.
    cbn [fst snd] in H2.
    eapply IH; [|exact H]. eapply conserved_paid; eassumption.
Qed.

Lemma open_conserved dA dB popt cid_opt keys w ch w' :
  channel.open dA dB popt cid_opt keys w = (Ok ch, w') ->
  0 <= dA /\ 0 <= dB /\ conserved (dA + dB) ch.
Proof.
  intros H. unfold channel.open in H.
  destruct (Z.ltb_spec dA 0) as [|HA]; [discriminate|].
  destruct (Z.ltb_spec dB 0) as [|HB]; [discriminate|]. cbn [orb] in H.
  apply bind_inv_ok in H. destruct H as (ps & w1 & _ & H).
  apply bind_inv_ok in H. destruct H as (cid & w2 & _ & H).
  apply bind_inv_ok in H. destruct H as (ks & w3 & _ & H).
  apply bind_inv_ok in H. destruct H as ([[cs os] prs] & w4 & _ & H).
  unfold ret in H. injection H as <- _.
  split; [exact HA|]. split; [exact HB|].
  exists dA, dB. split; reflexivity.
Qed.
End ChannelClaims.

(** C1: a channel returned by [Channel.open] for deposits [dA] and [dB]
    (which are then non-negative), followed by any finite sequence of
    [apply_payment] calls that all succeed, holds balances for "alice" and
    "bob" that add up to [dA + dB]. *)
Theorem balance_conservation {E : Ed25519} dA dB popt cid_opt keys w ch w1
    calls u ch' w' :
  channel.open dA dB popt cid_opt keys w = (Ok ch, w1) ->
  apply_payments calls (ch, w1) = (Ok u, (ch', w')) ->
  exists a b,
    dict.get (channel.balances (channel.state ch')) "alice" = Some a
    /\ dict.get (channel.balances (channel.state ch')) "bob" = Some b
    /\ a + b = dA + dB.
Proof.
  intros Ho Hp.
  destruct (open_conserved _ _ _ _ _ _ _ _ Ho) as (_ & _ & C).
  destruct (conserved_payments _ _ _ _ _ _ _ C Hp) as (a & b & Hb & Hsum).
  exists a, b. rewrite Hb. repeat split; [exact Hsum].
Qed.

Lemma balance_conservation_witness :
  exists a b,
    dict.get (channel.balances (channel.state toy_paid_twice)) "alice" = Some a
    /\ dict.get (channel.balances (channel.state toy_paid_twice)) "bob" = Some b
    /\ a + b = 200 + 50.
Proof.
  apply (balance_conservation (E := toy_ed25519) 200 50 (Some toy_params) None
           None toy_world toy_channel toy_world1 [("alice", 25); ("bob", 10)] tt
           toy_paid_twice toy_world3).
  - vm_compute. reflexivity.
  - vm_compute. reflexivity.
Defined.

(** C7: after every successful [apply_payment], whatever the channel and
    its signatures were before, the signatures mapping of the current
    state is empty and [is_fully_signed()] is false. *)
Theorem payment_clears_signatures {E : Ed25519} payer amount ch w st ch' w' :
  channel.apply_payment payer amount (ch, w) = (Ok st, (ch', w')) ->
  channel.signatures (channel.state ch') = []
  /\ channel.signatures st = []
  /\ channel.is_fully_signed ch' = false.
Proof.
  intros H.
  destruct (apply_payment_ok _ _ _ _ _ _ _ H)
    as (payee & x & y & Hin & _ & _ & _ & _ & _ & Hs & _ & _ & Hp & _ & _ & ->).
  split; [exact Hs|]. split; [exact Hs|].
  unfold channel.is_fully_signed. rewrite Hs, Hp.
  unfold dict.contains in Hin.
  destruct (channel.participants ch) as [|[k v] rest]; [discriminate|].
  reflexivity.
Qed.

Lemma payment_clears_signatures_witness :
  channel.is_fully_signed toy_signed = true
  /\ channel.signatures (channel.state toy_paid) = []
  /\ channel.signatures (channel.state toy_paid) = []
  /\ channel.is_fully_signed toy_paid = false.
Proof.
  split; [reflexivity|].
  apply (payment_clears_signatures (E := toy_ed25519) "alice" 25 toy_signed
           toy_world1 (channel.state toy_paid) toy_paid toy_world2).
  vm_compute. reflexivity.
Defined.



(** C5: on the parameters [default_parameters()] returns, the proof
    [prove_opening] builds for a commitment made by [commit], under any
    context and any nonces [w_m], [w_r] in [1, q-1], is accepted by
    [verify_opening_proof] under the same context; hence neither
    [Channel.open] nor [Channel._set_balances] ever raises the
    [ChannelError] that follows their self-check. *)
Theorem opening_proof_complete {E : Ed25519} ps :
  pedersen.default_parameters = Ok ps ->
  (forall m r context w_m w_r rest tp c o tp',
     0 < w_m < pedersen.q ps -> 0 < w_r < pedersen.q ps ->
     pedersen.commit ps m r tp = (Ok (c, o), tp') ->
     exists proof,
       pedersen.prove_opening ps m o c context (w_m :: w_r :: rest)
       = (Ok proof, rest)
       /\ pedersen.verify_opening_proof ps c proof context = Ok true)
  /\ (forall m r context tp c o tp' tp1 proof tp2,
        pedersen.commit ps m r tp = (Ok (c, o), tp') ->
        pedersen.prove_opening ps m o c context tp1 = (Ok proof, tp2) ->
        pedersen.verify_opening_proof ps c proof context = Ok true)
  /\ (forall dA dB popt cid keys w msg w',
        popt = None \/ popt = Some ps ->
        channel.open dA dB popt cid keys w <> (Raise (ChannelError msg), w'))
  /\ (forall balances ch w msg s',
        channel.params ch = ps ->
        channel._set_balances balances (ch, w) <> (Raise (ChannelError msg), s')).
Proof.
  intros H. apply default_parameters_inv in H. subst ps.
  pose proof default_subgroup as G.
  split; [|split; [|split]].
  - intros m r context w_m w_r rest tp c o tp' Hm Hr Hc.
    eapply opening_proof_complete_subgroup; eassumption.
  - intros m r context tp c o tp' tp1 proof tp2 Hc Hp.
    assert (Hco : exists r', c = {| pedersen.value := cval default_params m r' |}
                             /\ o = {| pedersen.randomness := r' |}).
    { destruct r as [r|].
      - rewrite (commit_some _ G) in Hc. injection Hc as <- <- _. eauto.
      - rewrite (commit_none _ G) in Hc.
        destruct (pedersen.random_scalar default_params tp) as [[r'|e] t1];
          [|discriminate].
        injection Hc as <- <- _. eauto. }
    destruct Hco as (r' & -> & ->).
    rewrite (prove_opening_eq _ G) in Hp.
    destruct (pedersen.random_scalar default_params tp1) as [[w_m|e] t1];
      [|discriminate].
    destruct (pedersen.random_scalar default_params t1) as [[w_r|e] t2];
      [|discriminate].
    injection Hp as <- _. apply (proof_for_accepted _ G).
  - intros dA dB popt cid keys w msg w' Hp Ho.
    assert (Gp : match popt with Some ps => subgroup_params ps | None => True end).
    { destruct Hp as [-> | ->]; [exact I|exact G]. }
    destruct (open_error _ _ _ _ _ _ _ _ Gp Ho); discriminate.
  - intros balances ch w msg s' Hps Hs.
    assert (Gc : subgroup_params (channel.params ch)) by (rewrite Hps; exact G).
    pose proof (set_balances_error _ _ _ _ _ Gc Hs). discriminate.
Qed.

Lemma opening_proof_complete_witness :
  (forall m r context w_m w_r rest tp c o tp',
     0 < w_m < pedersen.q default_params -> 0 < w_r < pedersen.q default_params ->
     pedersen.commit default_params m r tp = (Ok (c, o), tp') ->
     exists proof,
       pedersen.prove_opening default_params m o c context (w_m :: w_r :: rest)
       = (Ok proof, rest)
       /\ pedersen.verify_opening_proof default_params c proof context = Ok true)
  /\ (forall m r context tp c o tp' tp1 proof tp2,
        pedersen.commit default_params m r tp = (Ok (c, o), tp') ->
        pedersen.prove_opening default_params m o c context tp1 = (Ok proof, tp2) ->
        pedersen.verify_opening_proof default_params c proof context = Ok true)
  /\ (forall dA dB popt cid keys w msg w',
        popt = None \/ popt = Some default_params ->
        @channel.open toy_ed25519 dA dB popt cid keys w
        <> (Raise (ChannelError msg), w'))
  /\ (forall balances ch w msg s',
        channel.params ch = default_params ->
        @channel._set_balances toy_ed25519 balances (ch, w)
        <> (Raise (ChannelError msg), s')).
Proof.
  apply (opening_proof_complete (E := toy_ed25519) default_params).
  exact default_parameters_eq.
Defined.

(* ===================================================================== *)
(** * The settlement validator *)
(* ===================================================================== *)

Section LedgerClaims.
Context {E : Ed25519}.

Lemma require_record_found l cid record :
  dict.get (ledger._records l) cid = Some record ->
  ledger._require_record cid l = (Ok record, l).
Proof.
  intros H. unfold ledger._require_record.
  rewrite bind_eq. unfold get, dict.contains. rewrite H. cbn [negb].
  unfold lift, dict.getitem. rewrite H. reflexivity.
Qed.

Lemma close_sequence_mismatch l payload cid record :
  pyobj.as_str (pyobj.get payload "channel_id") = Some cid ->
  dict.get (ledger._records l) cid = Some record ->
  pyobj.as_int (pyobj.get payload "sequence") <> Some (ledger.sequence record) ->
  ledger.cooperative_close payload l
  = (Raise (InvalidSettlementError
              (if ledger.closed record then "Channel already settled"
               else "Sequence mismatch during settlement")), l).
Proof.
  intros Hc Hr Hs. unfold ledger.cooperative_close.
  rewrite Hc, bind_eq, (require_record_found l cid record Hr).
  destruct (ledger.closed record); [reflexivity|].
  destruct (pyobj.as_int (pyobj.get payload "sequence")) as [s|]; [|reflexivity].
  destruct (Z.eqb_spec s (ledger.sequence record)) as [->|]; [contradiction|].
  reflexivity.
Qed.
End LedgerClaims.

(** C6: whenever the payload names a channel the ledger has a record of
    and the payload's sequence is not the integer stored in that record,
    [cooperative_close] raises [InvalidSettlementError] and leaves the
    ledger, hence the record's [closed] flag, as it was; for an open
    record the message is the sequence mismatch.  A payload at sequence 0
    against a record at sequence 1 is such a case. *)
Theorem stale_sequence_rejected {E : Ed25519} l payload cid record :
  pyobj.as_str (pyobj.get payload "channel_id") = Some cid ->
  dict.get (ledger._records l) cid = Some record ->
  pyobj.as_int (pyobj.get payload "sequence") <> Some (ledger.sequence record) ->
  (exists msg,
     ledger.cooperative_close payload l = (Raise (InvalidSettlementError msg), l))
  /\ (ledger.closed record = false ->
      ledger.cooperative_close payload l
      = (Raise (InvalidSettlementError "Sequence mismatch during settlement"), l))
  /\ (ledger.sequence record = 1 ->
      pyobj.get payload "sequence" = pyobj.Int 0 ->
      ledger.closed record = false ->
      exists l',
        ledger.cooperative_close payload l
        = (Raise (InvalidSettlementError "Sequence mismatch during settlement"), l')
        /\ dict.get (ledger._records l') cid = Some record).
Proof.
  intros Hc Hr Hs.
  pose proof (close_sequence_mismatch l payload cid record Hc Hr Hs) as H.
  split; [eexists; exact H|]. split.
  - intros Ho. rewrite Ho in H. exact H.
  - intros _ _ Ho. rewrite Ho in H. exists l. split; [exact H|exact Hr].
Qed.

Section Settlement.
Context {E : Ed25519}.
Context {EC : Ed25519Correct E}.

Lemma signature_roundtrip sg :
  signing.Signature_from_hex (pyobj.Str (signing.Signature_to_hex sg)) = Ok sg.
Proof.
  unfold signing.Signature_from_hex, signing.Signature_to_hex. cbn [pyobj.as_str].
  rewrite fromhex_hex. destruct sg. reflexivity.
Qed.

Lemma sign_verify_key sk digest :
  signing.VerifyKey_verify (signing.verify_key sk) digest
    (signing.SigningKey_sign sk digest) = Ok true.
Proof.
  unfold signing.VerifyKey_verify, signing.verify_key, signing.SigningKey_sign,
    nacl_VerifyKey_verify.
  cbn [signing.vk_key signing.value].
  rewrite nacl_sign_length, Nat.eqb_refl, nacl_sign_verify. reflexivity.
Qed.

Lemma opening_roundtrip r :
  0 <= r -> pedersen.int16_of (pyobj.Str (pedersen.serialize_opening (slot_opening r)))
            = Ok r.
Proof.
  intros Hr. unfold pedersen.int16_of, pedersen.serialize_opening, slot_opening.
  cbn [pyobj.as_str pedersen.randomness]. apply int16_format_x. exact Hr.
Qed.

Lemma proof_roundtrip ps m o c context w_m w_r :
  subgroup_params ps ->
  pedersen.deserialize_proof
    (dict.map_values pyobj.Str
       (pedersen.serialize_proof (proof_for ps m o c context w_m w_r)))
  = Ok (proof_for ps m o c context w_m w_r).
Proof.
  intros G. pose proof (modulus_gt_1 ps G) as HP. pose proof (order_pos ps G) as HQ.
  unfold pedersen.deserialize_proof, pedersen.serialize_proof, proof_for.
  cbn [pedersen.t pedersen.response_m pedersen.response_r dict.map_values
       List.map fst snd dict.getitem dict.get String.eqb Ascii.eqb Bool.eqb rbind].
  unfold pedersen.int16_of. cbn [pyobj.as_str].
  rewrite !int16_format_x.
  - reflexivity.
  - apply Z.mod_pos_bound. exact HQ.
  - apply Z.mod_pos_bound. exact HQ.
  - apply (cval_range ps G).
Qed.
End Settlement.

Section Settlement2.
Context {E : Ed25519}.
Context {EC : Ed25519Correct E}.

Lemma check_participant_ok ps cid seq a b da db ka kb pid bal d k closed :
  subgroup_params ps ->
  in_range ps d ->
  (pid = "alice" /\ bal = a /\ d = da /\ k = ka
   \/ pid = "bob" /\ bal = b /\ d = db /\ k = kb) ->
  let st := proven_state ps cid seq a b da db (cosignatures ps cid seq a b da db ka kb) in
  let record := tracked_record ps cid seq a b da db ka kb closed in
  ledger.check_participant ps cid record
    (channel.compute_state_digest cid seq (ledger.commitments record))
    (dict.map_values (fun o => pyobj.Str (pedersen.serialize_opening o))
       (channel.openings st))
    (dict.map_values pyobj.Int (channel.balances st))
    (dict.map_values (fun sg => pyobj.Str (signing.Signature_to_hex sg))
       (channel.signatures st))
    (dict.map_values channel.proof_object (channel.proofs st))
    (pid, signing.verify_key k)
  = Ok tt.
Proof.
  intros G Rd Hpid st record.
  destruct da as [[r1 m1] s1], db as [[r2 m2] s2].
  assert (Hr : 0 <= fst (fst d)) by (unfold in_range in Rd; lia).
  unfold ledger.check_participant. cbn [fst snd].
  destruct Hpid as [(-> & -> & -> & ->) | (-> & -> & -> & ->)].
  - subst st record. unfold proven_state, cosignatures, tracked_record.
    cbn [channel.signatures channel.openings channel.balances channel.proofs
         dict.map_values List.map fst snd pyobj.get dict.get
         String.eqb Ascii.eqb Bool.eqb pyobj.is_none pyobj.as_int pyobj.as_dict
         ledger.commitments ledger.sequence dict.getitem channel.proof_object].
    rewrite signature_roundtrip. cbn [rbind].
    rewrite sign_verify_key. cbn [negb].
    rewrite opening_roundtrip by exact Hr. cbn [rbind fst snd].
    unfold slot_commitment at 1. fold (slot_opening r1).
    unfold slot_opening at 1.
    rewrite (verify_cval ps G), Z.eqb_refl. cbn [rbind negb].
    unfold slot_proof. rewrite (proof_roundtrip _ _ _ _ _ _ _ G). cbn [rbind].
    unfold slot_commitment, slot_opening.
    rewrite (proof_for_accepted ps G). reflexivity.
  - subst st record. unfold proven_state, cosignatures, tracked_record.
    cbn [channel.signatures channel.openings channel.balances channel.proofs
         dict.map_values List.map fst snd pyobj.get dict.get
         String.eqb Ascii.eqb Bool.eqb pyobj.is_none pyobj.as_int pyobj.as_dict
         ledger.commitments ledger.sequence dict.getitem channel.proof_object].
    rewrite signature_roundtrip. cbn [rbind].
    rewrite sign_verify_key. cbn [negb].
    rewrite opening_roundtrip by exact Hr. cbn [rbind fst snd].
    unfold slot_commitment at 1. fold (slot_opening r2).
    unfold slot_opening at 1.
    rewrite (verify_cval ps G), Z.eqb_refl. cbn [rbind negb].
    unfold slot_proof. rewrite (proof_roundtrip _ _ _ _ _ _ _ G). cbn [rbind].
    unfold slot_commitment, slot_opening.
    rewrite (proof_for_accepted ps G). reflexivity.
Qed.
End Settlement2.

Section Settlement3.
Context {E : Ed25519}.
Context {EC : Ed25519Correct E}.

(** [cooperative_close] on the closing payload of a co-signed standard
    channel the ledger tracks at the same sequence. *)
Lemma close_standard ps cid seq a b da db ka kb ch l :
  subgroup_params ps ->
  in_range ps da -> in_range ps db ->
  l = {| ledger.params := ps;
         ledger._records :=
           [(cid, tracked_record ps cid seq a b da db ka kb false)] |} ->
  channel.channel_id ch = cid ->
  channel.state ch
  = proven_state ps cid seq a b da db (cosignatures ps cid seq a b da db ka kb) ->
  ledger.cooperative_close (channel.closing_payload ch) l
  = (Ok [("channel_id", pyobj.Str cid);
         ("sequence", pyobj.Int seq);
         ("settled_balances", pyobj.Dict [("alice", pyobj.Int a); ("bob", pyobj.Int b)]);
         ("verified", pyobj.Bool true)],
     {| ledger.params := ps;
        ledger._records :=
          [(cid, tracked_record ps cid seq a b da db ka kb true)] |}).
Proof.
  intros G Ra Rb -> Hcid Hst.
  pose proof (check_participant_ok ps cid seq a b da db ka kb "alice" a da ka false
                G Ra (or_introl (conj eq_refl (conj eq_refl (conj eq_refl eq_refl)))))
    as Ca.
  pose proof (check_participant_ok ps cid seq a b da db ka kb "bob" b db kb false
                G Rb (or_intror (conj eq_refl (conj eq_refl (conj eq_refl eq_refl)))))
    as Cb.
  cbv zeta in Ca, Cb.
  unfold ledger.cooperative_close, channel.closing_payload.
  rewrite Hcid, Hst.
  cbn [pyobj.get dict.get String.eqb Ascii.eqb Bool.eqb pyobj.as_str].
  rewrite bind_eq.
  rewrite (require_record_found _ cid (tracked_record ps cid seq a b da db ka kb false)).
  2:{ cbn [ledger._records dict.get]. rewrite String.eqb_refl. reflexivity. }
  cbn [tracked_record ledger.closed].
  cbn [pyobj.as_int pyobj.as_dict].
  assert (Hseq : channel.sequence
                   (proven_state ps cid seq a b da db
                      (cosignatures ps cid seq a b da db ka kb)) = seq).
  { destruct da as [[? ?] ?], db as [[? ?] ?]. reflexivity. }
  rewrite Hseq. cbn [ledger.sequence]. rewrite Z.eqb_refl. cbn [negb].
  rewrite bind_eq.
  assert (Hcc : ledger.check_commitments
                  (tracked_record ps cid seq a b da db ka kb false)
                  (dict.map_values
                     (fun c => pyobj.Str (pedersen.serialize_commitment c))
                     (channel.commitments
                        (proven_state ps cid seq a b da db
                           (cosignatures ps cid seq a b da db ka kb))))
                = Ok tt).
  { destruct da as [[r1 m1] s1], db as [[r2 m2] s2].
    unfold ledger.check_commitments, tracked_record, proven_state.
    cbn [ledger.commitments channel.commitments dict.map_values List.map fst snd
         rfor_each pyobj.get dict.get String.eqb Ascii.eqb Bool.eqb pyobj.ne_str].
    rewrite !String.eqb_refl. reflexivity. }
  change (ledger.check_commitments
            {| ledger.channel_id := cid; ledger.sequence := seq;
               ledger.commitments :=
                 [("alice", slot_commitment ps a (fst (fst da)));
                  ("bob", slot_commitment ps b (fst (fst db)))];
               ledger.verify_keys :=
                 [("alice", signing.verify_key ka); ("bob", signing.verify_key kb)];
               ledger.closed := false |})
    with (ledger.check_commitments (tracked_record ps cid seq a b da db ka kb false)).
  unfold lift at 1. rewrite Hcc.
  rewrite bind_eq. unfold get at 1. cbn [ledger.params].
  rewrite bind_eq. unfold lift at 1.
  cbn [ledger.verify_keys rfor_each].
  change {| ledger.channel_id := cid; ledger.sequence := seq;
            ledger.commitments :=
              [("alice", slot_commitment ps a (fst (fst da)));
               ("bob", slot_commitment ps b (fst (fst db)))];
            ledger.verify_keys :=
              [("alice", signing.verify_key ka); ("bob", signing.verify_key kb)];
            ledger.closed := false |}
    with (tracked_record ps cid seq a b da db ka kb false).
  change [("alice", slot_commitment ps a (fst (fst da)));
          ("bob", slot_commitment ps b (fst (fst db)))]
    with (ledger.commitments (tracked_record ps cid seq a b da db ka kb false)).
  change (ledger.sequence (tracked_record ps cid seq a b da db ka kb false))
    with seq.
  change (ledger.verify_keys (tracked_record ps cid seq a b da db ka kb false))
    with [("alice", signing.verify_key ka); ("bob", signing.verify_key kb)].
  cbn [rfor_each].
  rewrite Ca. cbn [rbind]. rewrite Cb. cbn [rbind].
  rewrite bind_eq.
  cbv beta iota delta [ledger.set_records modify].
  cbn [ledger._records ledger.params dict.set]. rewrite String.eqb_refl.
  unfold ret.
  destruct da as [[r1 m1] s1], db as [[r2 m2] s2]. reflexivity.
Qed.
End Settlement3.

Section Settlement4.
Context {E : Ed25519}.
Context {EC : Ed25519Correct E}.

Lemma settlement_scenario ps popt lopt w u us ka kb ks :
  subgroup_params ps ->
  match popt with Some ps' => ps' = ps | None => default_params = ps end ->
  match lopt with Some ps' => ps' = ps | None => default_params = ps end ->
  channel.fresh_uuids w = u :: us ->
  channel.fresh_keys w = ka :: kb :: ks ->
  usable (pedersen.q ps) 12 (channel.entropy w) = true ->
  exists ch0 w1 l0 l1 st ch1 w2 l2 sa ch2 w3 sb ch3 w4 l3,
    channel.open 200 50 popt None None w = (Ok ch0, w1)
    /\ ledger.SimulatedLedger_init lopt = Ok l0
    /\ ledger.register_channel ch0 l0 = (Ok tt, l1)
    /\ channel.apply_payment "alice" 25 (ch0, w1) = (Ok st, (ch1, w2))
    /\ ledger.update_state ch1 l1 = (Ok tt, l2)
    /\ channel.sign_state "alice" (ch1, w2) = (Ok sa, (ch2, w3))
    /\ channel.sign_state "bob" (ch2, w3) = (Ok sb, (ch3, w4))
    /\ channel.is_fully_signed ch3 = true
    /\ ledger.cooperative_close (channel.closing_payload ch3) l2
       = (Ok [("channel_id", pyobj.Str (channel.channel_id ch3));
              ("sequence", pyobj.Int 1);
              ("settled_balances",
                pyobj.Dict [("alice", pyobj.Int 175); ("bob", pyobj.Int 75)]);
              ("verified", pyobj.Bool true)], l3)
    /\ ledger.cooperative_close (channel.closing_payload ch3) l3
       = (Raise (InvalidSettlementError "Channel already settled"), l3).
Proof.
  intros G Hp Hl Hu Hk U.
  destruct (open_run 200 50 popt ps w 6 u us ka kb ks Hp G ltac:(lia) ltac:(lia)
              Hu Hk U)
    as (da0 & db0 & tp1 & Ra0 & Rb0 & U1 & Hopen).
  set (ch0 := channel.Channel_init u ps
                (participants_of [("alice", ka); ("bob", kb)])
                (proven_state ps u 0 200 50 da0 db0 []) []) in *.
  set (w1 := {| channel.entropy := tp1; channel.fresh_keys := ks;
                channel.fresh_uuids := us |}) in *.
  assert (G0 : subgroup_params (channel.params ch0)) by exact G.
  assert (S0 : shaped (channel.state ch0)) by apply proven_state_shaped.
  assert (B0 : channel.balances (channel.state ch0) = [("alice", 200); ("bob", 50)]).
  { subst ch0. destruct da0 as [[? ?] ?], db0 as [[? ?] ?]. reflexivity. }
  assert (I0 : dict.contains (channel.participants ch0) "alice" = true)
    by reflexivity.
  assert (X0 : dict.get (channel.balances (channel.state ch0)) "alice" = Some 200)
    by (rewrite B0; reflexivity).
  destruct (apply_payment_run ch0 w1 "alice" 25 0 200 200 50 G0 S0 B0 I0 X0
              ltac:(lia) U1)
    as (da & db & tp2 & st & Ra & Rb & _ & Hst & Hpay).
  change (channel.params ch0) with ps in Ra, Rb, Hst.
  change (channel.channel_id ch0) with u in Hst.
  assert (Q0 : channel.sequence (channel.state ch0) = 0).
  { subst ch0. destruct da0 as [[? ?] ?], db0 as [[? ?] ?]. reflexivity. }
  rewrite Q0 in Hst.
  change (fst (paid "alice" 25 200 50)) with 175 in Hst.
  change (snd (paid "alice" 25 200 50)) with 75 in Hst.
  change (0 + 1) with 1 in Hst.
  set (ch1 := channel.map_history (fun hs => hs ++ [channel.clone st])
                (channel.map_state (fun _ => st) ch0)) in *.
  set (w2 := channel.set_entropy tp2 w1) in *.
  set (rec0 := tracked_record ps u 0 200 50 da0 db0
                 (channel.signing_key
                    {| channel.participant_id := "alice"; channel.signing_key := ka |})
                 kb false).
  set (l0 := {| ledger.params := ps; ledger._records := [] |}).
  set (l1 := {| ledger.params := ps;
                ledger._records :=
                  [(u, tracked_record ps u 0 200 50 da0 db0 ka kb false)] |}).
  set (l2 := {| ledger.params := ps;
                ledger._records :=
                  [(u, tracked_record ps u 1 175 75 da db ka kb false)] |}).
  set (sigs := cosignatures ps u 1 175 75 da db ka kb).
  set (ch2 := channel.map_state
                (channel.with_signatures [("alice", snd (List.hd ("", {| signing.value := [] |}) sigs))])
                ch1).
  set (ch3 := channel.map_state (channel.with_signatures sigs) ch1).
  exists ch0, w1, l0, l1, st, ch1, w2, l2.
  exists (signing.SigningKey_sign ka
            (channel.compute_state_digest u 1
               [("alice", slot_commitment ps 175 (fst (fst da)));
                ("bob", slot_commitment ps 75 (fst (fst db)))])).
  exists ch2, w2.
  exists (signing.SigningKey_sign kb
            (channel.compute_state_digest u 1
               [("alice", slot_commitment ps 175 (fst (fst da)));
                ("bob", slot_commitment ps 75 (fst (fst db)))])).
  exists ch3, w2.
  exists {| ledger.params := ps;
            ledger._records :=
              [(u, tracked_record ps u 1 175 75 da db ka kb true)] |}.
  split; [exact Hopen|].
  split.
  { unfold ledger.SimulatedLedger_init.
    destruct lopt as [ps'|].
    - subst ps'. reflexivity.
    - rewrite default_parameters_eq, Hl. reflexivity. }
  split.
  { subst ch0 l0 l1.
    destruct da0 as [[r1 m1] s1], db0 as [[r2 m2] s2]. reflexivity. }
  split; [exact Hpay|].
  split.
  { unfold ledger.update_state.
    rewrite bind_eq.
    rewrite (require_record_found l1 (channel.channel_id ch1)
               (tracked_record ps u 0 200 50 da0 db0 ka kb false)).
    2:{ subst l1 ch1 ch0. cbn [ledger._records dict.get channel.channel_id
                               channel.map_history channel.map_state
                               channel.Channel_init].
        rewrite String.eqb_refl. reflexivity. }
    subst ch1 ch0 l1 l2. rewrite Hst.
    destruct da as [[r1 m1] s1], db as [[r2 m2] s2].
    cbn [channel.state channel.map_history channel.map_state channel.sequence
         proven_state ledger.sequence tracked_record Z.ltb Z.compare].
    cbv beta iota delta [ledger.set_records modify].
    cbn [ledger._records ledger.params dict.set channel.channel_id
         channel.map_history channel.map_state channel.Channel_init].
    rewrite String.eqb_refl. reflexivity. }
  split.
  { subst ch2 ch1 ch0 sigs. rewrite Hst.
    destruct da as [[r1 m1] s1], db as [[r2 m2] s2]. reflexivity. }
  split.
  { subst ch3 ch2 ch1 ch0 sigs. rewrite Hst.
    destruct da as [[r1 m1] s1], db as [[r2 m2] s2]. reflexivity. }
  split.
  { subst ch3 ch1 ch0 sigs. reflexivity. }
  split.
  { change (channel.channel_id ch3) with u.
    apply (close_standard ps u 1 175 75 da db ka kb ch3 l2 G Ra Rb eq_refl eq_refl).
    subst ch3 ch1 sigs. rewrite Hst.
    destruct da as [[r1 m1] s1], db as [[r2 m2] s2]. reflexivity. }
  unfold ledger.cooperative_close, channel.closing_payload.
  cbn [pyobj.get dict.get String.eqb Ascii.eqb Bool.eqb pyobj.as_str].
  rewrite bind_eq.
  rewrite (require_record_found _ (channel.channel_id ch3)
             (tracked_record ps u 1 175 75 da db ka kb true)).
  2:{ change (channel.channel_id ch3) with u.
      cbn [ledger._records dict.get]. rewrite String.eqb_refl. reflexivity. }
  reflexivity.
Qed.
End Settlement4.

Lemma bytes_eqb_refl bs : bytes_eqb bs bs = true.
Proof.
  induction bs as [|b bs IH]; [reflexivity|].
  cbn [bytes_eqb]. rewrite IH, andb_true_r.
  destruct b; reflexivity.
Qed.

Lemma toy_ed25519_correct : Ed25519Correct toy_ed25519.
Proof.
  constructor; intros sk message; cbn [nacl_sign nacl_verify nacl_public toy_ed25519].
  - unfold toy_tag. rewrite List.length_firstn. cbn [List.length].
    rewrite List.length_app, List.repeat_length. unfold crypto_sign_BYTES. lia.
  - apply bytes_eqb_refl.
Qed.

(** C4: a channel opened on the default parameters with deposits
    (200, 50) and registered with the validator, after one payment of 25
    from alice, [update_state] and both signatures, closes cooperatively:
    for every tape that yields the twelve scalars drawn, every pair of
    keys and every channel id, [cooperative_close] on the channel's closing
    payload returns settled balances alice 175 and bob 75, sequence 1 and
    [verified] true, and a second [cooperative_close] raises
    [InvalidSettlementError] because the record is already settled. *)
Theorem cooperative_close_settles {E : Ed25519} (EC : Ed25519Correct E)
    ps popt lopt w u us ka kb ks :
  pedersen.default_parameters = Ok ps ->
  popt = None \/ popt = Some ps ->
  lopt = None \/ lopt = Some ps ->
  channel.fresh_uuids w = u :: us ->
  channel.fresh_keys w = ka :: kb :: ks ->
  usable (pedersen.q ps) 12 (channel.entropy w) = true ->
  exists ch0 w1 l0 l1 st ch1 w2 l2 sa ch2 w3 sb ch3 w4 l3,
    channel.open 200 50 popt None None w = (Ok ch0, w1)
    /\ ledger.SimulatedLedger_init lopt = Ok l0
    /\ ledger.register_channel ch0 l0 = (Ok tt, l1)
    /\ channel.apply_payment "alice" 25 (ch0, w1) = (Ok st, (ch1, w2))
    /\ ledger.update_state ch1 l1 = (Ok tt, l2)
    /\ channel.sign_state "alice" (ch1, w2) = (Ok sa, (ch2, w3))
    /\ channel.sign_state "bob" (ch2, w3) = (Ok sb, (ch3, w4))
    /\ channel.is_fully_signed ch3 = true
    /\ ledger.cooperative_close (channel.closing_payload ch3) l2
       = (Ok [("channel_id", pyobj.Str (channel.channel_id ch3));
              ("sequence", pyobj.Int 1);
              ("settled_balances",
                pyobj.Dict [("alice", pyobj.Int 175); ("bob", pyobj.Int 75)]);
              ("verified", pyobj.Bool true)], l3)
    /\ ledger.cooperative_close (channel.closing_payload ch3) l3
       = (Raise (InvalidSettlementError "Channel already settled"), l3).
Proof.
  intros H Hp Hl Hu Hk U.
  apply default_parameters_inv in H. subst ps.
  apply (settlement_scenario default_params popt lopt w u us ka kb ks
           default_subgroup).
  - destruct Hp as [-> | ->]; reflexivity.
  - destruct Hl as [-> | ->]; reflexivity.
  - exact Hu.
  - exact Hk.
  - exact U.
Qed.

Lemma cooperative_close_settles_witness :
  exists ch0 w1 l0 l1 st ch1 w2 l2 sa ch2 w3 sb ch3 w4 l3,
    @channel.open toy_ed25519 200 50 None None None toy_world = (Ok ch0, w1)
    /\ ledger.SimulatedLedger_init None = Ok l0
    /\ ledger.register_channel ch0 l0 = (Ok tt, l1)
    /\ channel.apply_payment "alice" 25 (ch0, w1) = (Ok st, (ch1, w2))
    /\ ledger.update_state ch1 l1 = (Ok tt, l2)
    /\ channel.sign_state "alice" (ch1, w2) = (Ok sa, (ch2, w3))
    /\ channel.sign_state "bob" (ch2, w3) = (Ok sb, (ch3, w4))
    /\ channel.is_fully_signed ch3 = true
    /\ ledger.cooperative_close (channel.closing_payload ch3) l2
       = (Ok [("channel_id", pyobj.Str (channel.channel_id ch3));
              ("sequence", pyobj.Int 1);
              ("settled_balances",
                pyobj.Dict [("alice", pyobj.Int 175); ("bob", pyobj.Int 75)]);
              ("verified", pyobj.Bool true)], l3)
    /\ ledger.cooperative_close (channel.closing_payload ch3) l3
       = (Raise (InvalidSettlementError "Channel already settled"), l3).
Proof.
  apply (cooperative_close_settles (E := toy_ed25519) toy_ed25519_correct
           default_params None None toy_world "6f1c2a9e-toy" []
           {| signing.sk_key := (5 : @nacl_signing_key toy_ed25519) |}
           {| signing.sk_key := (9 : @nacl_signing_key toy_ed25519) |} []).
  - exact default_parameters_eq.
  - left. reflexivity.
  - left. reflexivity.
  - reflexivity.
  - reflexivity.
  - vm_compute. reflexivity.
Defined.

Lemma stale_sequence_rejected_witness :
  (exists msg,
     ledger.cooperative_close (channel.closing_payload toy_channel) toy_ledger
     = (Raise (InvalidSettlementError msg), toy_ledger))
  /\ (ledger.closed toy_record = false ->
      ledger.cooperative_close (channel.closing_payload toy_channel) toy_ledger
      = (Raise (InvalidSettlementError "Sequence mismatch during settlement"),
         toy_ledger))
  /\ (ledger.sequence toy_record = 1 ->
      pyobj.get (channel.closing_payload toy_channel) "sequence" = pyobj.Int 0 ->
      ledger.closed toy_record = false ->
      exists l',
        ledger.cooperative_close (channel.closing_payload toy_channel) toy_ledger
        = (Raise (InvalidSettlementError "Sequence mismatch during settlement"), l')
        /\ dict.get (ledger._records l') "6f1c2a9e-toy" = Some toy_record).
Proof.
  apply (stale_sequence_rejected (E := toy_ed25519) toy_ledger
           (channel.closing_payload toy_channel) "6f1c2a9e-toy" toy_record).
  - reflexivity.
  - reflexivity.
  - vm_compute. discriminate.
Defined.

(* ===================================================================== *)
(** * No input validation; the size of the group *)
(* ===================================================================== *)

Section Totality.
Variable params : pedersen.CommitmentParameters.
Hypothesis G : subgroup_params params.

Lemma add_commitments_total cs :
  exists c, pedersen.add_commitments params cs = Ok c.
Proof.
  unfold pedersen.add_commitments.
  assert (H : forall acc, exists v, pedersen.add_commitments_from params acc cs = Ok v).
  { induction cs as [|c cs IH]; intros acc; cbn [pedersen.add_commitments_from].
    - eexists. reflexivity.
    - rewrite (mod_p params G). cbn [rbind]. apply IH. }
  destruct (H 1) as [v ->]. eexists. reflexivity.
Qed.

Lemma add_messages_total ms : exists m, pedersen.add_messages params ms = Ok m.
Proof.
  unfold pedersen.add_messages. generalize 0.
  induction ms as [|m ms IH]; intros acc; cbn [pedersen.add_messages_from].
  - eexists. reflexivity.
  - rewrite (mod_q params G). cbn [rbind]. apply IH.
Qed.

Lemma add_openings_total os : exists o, pedersen.add_openings params os = Ok o.
Proof.
  unfold pedersen.add_openings.
  assert (H : forall acc, exists v, pedersen.add_openings_from params acc os = Ok v).
  { induction os as [|o os IH]; intros acc; cbn [pedersen.add_openings_from].
    - eexists. reflexivity.
    - rewrite (mod_q params G). cbn [rbind]. apply IH. }
  destruct (H 0) as [v ->]. eexists. reflexivity.
Qed.

Lemma negate_commitment_total c :
  exists c', pedersen.negate_commitment params c = Ok c'.
Proof.
  pose proof (modulus_gt_1 params G) as HP.
  unfold pedersen.negate_commitment, pedersen._pow, py.pow3.
  destruct (Z.eqb_spec (pedersen.p params) 0); [lia|].
  destruct (Z.leb_spec 0 (pedersen.p params - 2)); [|lia].
  eexists. reflexivity.
Qed.

Lemma out_of_range_accepted m r :
  pedersen.verify params
    {| pedersen.value := cval params m r + pedersen.p params |}
    (m + pedersen.q params)
    {| pedersen.randomness := r - pedersen.q params |}
  = Ok true.
Proof.
  rewrite (verify_eq params G). cbn [pedersen.value pedersen.randomness].
  rewrite <- (Z.mul_1_l (pedersen.p params)) at 1.
  rewrite Z_mod_plus_full, cval_mod.
  rewrite (cval_congr params (m + pedersen.q params) m (r - pedersen.q params) r).
  - rewrite Z.eqb_refl. reflexivity.
  - rewrite <- (Z.mul_1_l (pedersen.q params)) at 1. apply Z_mod_plus_full.
  - replace (r - pedersen.q params) with (r + (-1) * pedersen.q params) by lia.
    apply Z_mod_plus_full.
Qed.

Lemma no_validation_subgroup :
  (forall m r tp,
     pedersen.commit params m (Some r) tp
     = (Ok ({| pedersen.value := cval params m r |},
            {| pedersen.randomness := r |}), tp)
     /\ cval params (m mod pedersen.q params) (r mod pedersen.q params)
        = cval params m r)
  /\ (forall c m o,
        pedersen.verify params c m o
        = Ok (pedersen.value c mod pedersen.p params
              =? cval params (m mod pedersen.q params)
                   (pedersen.randomness o mod pedersen.q params)))
  /\ (forall cs, exists c, pedersen.add_commitments params cs = Ok c)
  /\ (forall ms, exists m, pedersen.add_messages params ms = Ok m)
  /\ (forall os, exists o, pedersen.add_openings params os = Ok o)
  /\ (forall c, exists c', pedersen.negate_commitment params c = Ok c')
  /\ (forall c proof context,
        exists b, pedersen.verify_opening_proof params c proof context = Ok b)
  /\ (forall m o c context w_m w_r rest,
        0 < w_m < pedersen.q params -> 0 < w_r < pedersen.q params ->
        exists proof,
          pedersen.prove_opening params m o c context (w_m :: w_r :: rest)
          = (Ok proof, rest)).
Proof.
  split; [|split; [|split; [|split; [|split; [|split; [|split]]]]]].
  - intros m r tp. split; [apply (commit_some params G)|].
    apply cval_congr; apply Zmod_mod.
  - intros c m o. rewrite (verify_eq params G). f_equal. f_equal.
    symmetry. apply cval_congr; apply Zmod_mod.
  - apply add_commitments_total.
  - apply add_messages_total.
  - apply add_openings_total.
  - apply negate_commitment_total.
  - intros c proof context. rewrite (verify_opening_proof_eq params G).
    eexists. reflexivity.
  - intros m o c context w_m w_r rest Hm Hr.
    rewrite (prove_opening_eq params G).
    rewrite (random_scalar_head params G w_m) by assumption.
    rewrite (random_scalar_head params G w_r) by assumption.
    eexists. reflexivity.
Qed.
End Totality.

(** C9, as the code has it: on the parameters [default_parameters()]
    returns no commitment-scheme operation validates its integer inputs or
    raises for them.  [commit], [verify], [add_commitments],
    [add_messages], [add_openings], [negate_commitment] and
    [verify_opening_proof] return a result for all integers, and
    [prove_opening] returns once its two nonces are drawn; messages and
    openings act through their residues modulo [q], commitment values
    through their residue modulo [p]. *)
Theorem no_input_validation ps :
  pedersen.default_parameters = Ok ps ->
  (forall m r tp,
     pedersen.commit ps m (Some r) tp
     = (Ok ({| pedersen.value := cval ps m r |},
            {| pedersen.randomness := r |}), tp)
     /\ cval ps (m mod pedersen.q ps) (r mod pedersen.q ps) = cval ps m r)
  /\ (forall c m o,
        pedersen.verify ps c m o
        = Ok (pedersen.value c mod pedersen.p ps
              =? cval ps (m mod pedersen.q ps)
                   (pedersen.randomness o mod pedersen.q ps)))
  /\ (forall cs, exists c, pedersen.add_commitments ps cs = Ok c)
  /\ (forall ms, exists m, pedersen.add_messages ps ms = Ok m)
  /\ (forall os, exists o, pedersen.add_openings ps os = Ok o)
  /\ (forall c, exists c', pedersen.negate_commitment ps c = Ok c')
  /\ (forall c proof context,
        exists b, pedersen.verify_opening_proof ps c proof context = Ok b)
  /\ (forall m o c context w_m w_r rest,
        0 < w_m < pedersen.q ps -> 0 < w_r < pedersen.q ps ->
        exists proof,
          pedersen.prove_opening ps m o c context (w_m :: w_r :: rest)
          = (Ok proof, rest)).
Proof.
  intros H. apply default_parameters_inv in H. subst ps.
  apply no_validation_subgroup. exact default_subgroup.
Qed.

Lemma no_input_validation_witness :
  (forall m r tp,
     pedersen.commit default_params m (Some r) tp
     = (Ok ({| pedersen.value := cval default_params m r |},
            {| pedersen.randomness := r |}), tp)
     /\ cval default_params (m mod pedersen.q default_params)
          (r mod pedersen.q default_params) = cval default_params m r)
  /\ (forall c m o,
        pedersen.verify default_params c m o
        = Ok (pedersen.value c mod pedersen.p default_params
              =? cval default_params (m mod pedersen.q default_params)
                   (pedersen.randomness o mod pedersen.q default_params)))
  /\ (forall cs, exists c, pedersen.add_commitments default_params cs = Ok c)
  /\ (forall ms, exists m, pedersen.add_messages default_params ms = Ok m)
  /\ (forall os, exists o, pedersen.add_openings default_params os = Ok o)
  /\ (forall c, exists c', pedersen.negate_commitment default_params c = Ok c')
  /\ (forall c proof context,
        exists b, pedersen.verify_opening_proof default_params c proof context = Ok b)
  /\ (forall m o c context w_m w_r rest,
        0 < w_m < pedersen.q default_params -> 0 < w_r < pedersen.q default_params ->
        exists proof,
          pedersen.prove_opening default_params m o c context (w_m :: w_r :: rest)
          = (Ok proof, rest)).
Proof. apply (no_input_validation default_params). exact default_parameters_eq. Defined.

(** C9 fails as stated: [commit] accepts a negative message and a negative
    opening scalar, and [verify] accepts a commitment value above [p], a
    message above [q] and an opening below zero; both return a result
    where the claim expects an [InvalidParameter] failure. *)
Lemma invalid_inputs_accepted :
  exists c o,
    pedersen.commit default_params (-5) (Some (-3)) [] = (Ok (c, o), [])
    /\ pedersen.verify default_params
         {| pedersen.value := pedersen.value c + pedersen.p default_params |}
         (-5 + pedersen.q default_params)
         {| pedersen.randomness := -3 - pedersen.q default_params |}
       = Ok true.
Proof.
  eexists. eexists.
  split; [apply (commit_some default_params default_subgroup)|].
  apply (out_of_range_accepted default_params default_subgroup (-5) (-3)).
Qed.

(** C10, at the code: the modulus [default_parameters()] returns has 768
    bits, not 2048 (the constant is the 768-bit Oakley group 1 prime of
    RFC 2409, while the source's comment and docstring name the 2048-bit
    group 14 of RFC 3526); the other parts of the claim hold:
    [p = 2q + 1], [g = 2], [h = g^s mod p] for the scalar [s] hashed from
    the fixed domain string, and the value is the same at every call. *)
Theorem default_parameters_768_bits :
  exists ps,
    pedersen.default_parameters = Ok ps
    /\ py.bit_length (pedersen.p ps) = 768
    /\ pedersen.p ps < 2 ^ 768
    /\ pedersen.p ps = 2 * pedersen.q ps + 1
    /\ pedersen.g ps = 2
    /\ exists s,
         pedersen._hash_to_scalar (py.encode "pedersen-h-generator") (pedersen.q ps)
         = Ok s
         /\ pedersen._pow (pedersen.g ps) s (pedersen.p ps) = Ok (pedersen.h ps).
Proof.
  exists default_params. split; [exact default_parameters_eq|].
  split; [reflexivity|]. split; [reflexivity|]. split; [reflexivity|].
  split; [reflexivity|].
  exists default_s. split; [exact hash_to_scalar_default|].
  cbn [pedersen.g pedersen.p pedersen.h default_params].
  unfold pedersen._pow, py.pow3.
  replace (default_p =? 0) with false by reflexivity.
  replace (0 <=? default_s) with true by reflexivity.
  rewrite pow_mod_spec by (unfold default_s; lia).
  rewrite default_h_eq. reflexivity.
Qed.

(* ===================================================================== *)
(** * Further properties of the four modules *)
(* ===================================================================== *)

(* ===================================================================== *)
(** * Serialisation *)

(** X1: [deserialize_commitment(serialize_commitment(c))] returns [c] and
    [deserialize_opening(serialize_opening(o))] returns [o], for every
    integer value, the negative ones included. *)
Theorem serialization_round_trip c o :
  pedersen.deserialize_commitment (pedersen.serialize_commitment c) = Ok c
  /\ pedersen.deserialize_opening (pedersen.serialize_opening o) = Ok o.
Proof.
  unfold pedersen.deserialize_commitment, pedersen.serialize_commitment,
    pedersen.deserialize_opening, pedersen.serialize_opening.
  rewrite !int16_format_x_all. destruct c, o. split; reflexivity.
Qed.

Lemma proof_serialization_round_trip_aux pr :
  pedersen.deserialize_proof
    (dict.map_values pyobj.Str (pedersen.serialize_proof pr)) = Ok pr.
Proof.
  unfold pedersen.deserialize_proof, pedersen.serialize_proof, dict.map_values.
  cbn [List.map fst snd dict.getitem dict.get String.eqb Ascii.eqb Bool.eqb rbind].
  unfold pedersen.int16_of. cbn [pyobj.as_str rbind].
  rewrite !int16_format_x_all. destruct pr. reflexivity.
Qed.

(** X2: [deserialize_proof(serialize_proof(proof))] returns [proof],
    whatever the three integers of the proof are. *)
Theorem proof_serialization_round_trip pr :
  pedersen.deserialize_proof
    (dict.map_values pyobj.Str (pedersen.serialize_proof pr)) = Ok pr.
Proof. apply proof_serialization_round_trip_aux. Qed.

(* ===================================================================== *)
(** * Aggregation *)

Section Aggregation.
Variable params : pedersen.CommitmentParameters.
Hypothesis G : subgroup_params params.

Lemma add_commitments_from_cval items M R :
  pedersen.add_commitments_from params (cval params M R)
    (List.map (fun mr => {| pedersen.value := cval params (fst mr) (snd mr) |}) items)
  = Ok (cval params (M + fold_right Z.add 0 (List.map fst items))
          (R + fold_right Z.add 0 (List.map snd items))).
Proof.
  revert M R. induction items as [|[m r] items IH]; intros M R;
    cbn [List.map fold_right fst snd pedersen.add_commitments_from].
  - rewrite !Z.add_0_r. reflexivity.
  - cbn [pedersen.value]. rewrite (mod_p params G). cbn [rbind].
    rewrite (cval_mul params G), IH. rewrite !Z.add_assoc. reflexivity.
Qed.

Lemma add_messages_from_sum total ms :
  exists v,
    pedersen.add_messages_from params total ms = Ok v
    /\ v mod pedersen.q params
       = (total + fold_right Z.add 0 ms) mod pedersen.q params.
Proof.
  revert total. induction ms as [|m ms IH]; intros total;
    cbn [fold_right pedersen.add_messages_from].
  - exists total. rewrite Z.add_0_r. split; reflexivity.
  - rewrite (mod_q params G). cbn [rbind].
    destruct (IH ((total + m) mod pedersen.q params)) as (v & -> & Hv).
    exists v. split; [reflexivity|].
    rewrite Hv, Zplus_mod_idemp_l. f_equal. lia.
Qed.

Lemma add_openings_from_sum total os :
  exists v,
    pedersen.add_openings_from params total os = Ok v
    /\ v mod pedersen.q params
       = (total + fold_right Z.add 0 (List.map pedersen.randomness os))
         mod pedersen.q params.
Proof.
  revert total. induction os as [|o os IH]; intros total;
    cbn [fold_right List.map pedersen.add_openings_from].
  - exists total. rewrite Z.add_0_r. split; reflexivity.
  - rewrite (mod_q params G). cbn [rbind].
    destruct (IH ((total + pedersen.randomness o) mod pedersen.q params))
      as (v & -> & Hv).
    exists v. split; [reflexivity|].
    rewrite Hv, Zplus_mod_idemp_l. f_equal. lia.
Qed.

Lemma commits_of_items tp items cos :
  Forall2 (fun mr co =>
             pedersen.commit params (fst mr) (Some (snd mr)) tp = (Ok co, tp))
    items cos ->
  List.map fst cos
  = List.map (fun mr => {| pedersen.value := cval params (fst mr) (snd mr) |}) items
  /\ List.map pedersen.randomness (List.map snd cos) = List.map snd items.
Proof.
  induction 1 as [|[m r] [c o] items cos H _ IH]; [split; reflexivity|].
  cbn [fst snd] in H. rewrite (commit_some params G) in H.
  injection H as <- <-. destruct IH as [IH1 IH2].
  cbn [List.map fst snd pedersen.randomness]. rewrite IH1, IH2. split; reflexivity.
Qed.

Lemma homomorphism_lists tp items cos :
  Forall2 (fun mr co =>
             pedersen.commit params (fst mr) (Some (snd mr)) tp = (Ok co, tp))
    items cos ->
  exists c m o,
    pedersen.add_commitments params (List.map fst cos) = Ok c
    /\ pedersen.add_messages params (List.map fst items) = Ok m
    /\ pedersen.add_openings params (List.map snd cos) = Ok o
    /\ pedersen.verify params c m o = Ok true.
Proof.
  intros H. destruct (commits_of_items tp items cos H) as [Hc Ho].
  subgroup_facts G.
  destruct (add_messages_from_sum 0 (List.map fst items)) as (m & Hm & Em).
  destruct (add_openings_from_sum 0 (List.map snd cos)) as (r & Hr & Er).
  rewrite Ho in Er.
  exists {| pedersen.value :=
              cval params (0 + fold_right Z.add 0 (List.map fst items))
                (0 + fold_right Z.add 0 (List.map snd items)) |},
         m, {| pedersen.randomness := r |}.
  split; [|split; [exact Hm|split]].
  - unfold pedersen.add_commitments. rewrite Hc.
    rewrite <- (cval_zero params G) at 1.
    rewrite add_commitments_from_cval. reflexivity.
  - unfold pedersen.add_openings. rewrite Hr. reflexivity.
  - rewrite (verify_cval params G).
    rewrite (cval_congr params m (0 + fold_right Z.add 0 (List.map fst items))
               r (0 + fold_right Z.add 0 (List.map snd items)) Em Er).
    rewrite Z.eqb_refl. reflexivity.
Qed.

(** Negation and difference, in a group whose order divides [p - 1]. *)
Hypothesis Hdiv : (pedersen.p params - 1) mod pedersen.q params = 0.

Lemma negate_cval m r :
  pedersen.negate_commitment params {| pedersen.value := cval params m r |}
  = Ok {| pedersen.value := cval params (- m) (- r) |}.
Proof.
  subgroup_facts G.
  unfold pedersen.negate_commitment, pedersen._pow, py.pow3.
  cbn [pedersen.value].
  destruct (Z.eqb_spec (pedersen.p params) 0); [lia|].
  destruct (Z.leb_spec 0 (pedersen.p params - 2)); [|lia].
  rewrite pow_mod_spec by lia. cbn [rbind].
  rewrite (cval_pow params G) by lia.
  assert (E : (pedersen.p params - 2) mod pedersen.q params
              = (- 1) mod pedersen.q params).
  { apply mod_sub_zero. replace (pedersen.p params - 2 - -1)
      with (pedersen.p params - 1) by lia. exact Hdiv. }
  f_equal. f_equal. apply cval_congr.
  - rewrite Zmult_mod, E, <- Zmult_mod. f_equal; lia.
  - rewrite Zmult_mod, E, <- Zmult_mod. f_equal; lia.
Qed.

Lemma difference_opens m1 r1 m2 r2 tp c1 o1 c2 o2 :
  pedersen.commit params m1 (Some r1) tp = (Ok (c1, o1), tp) ->
  pedersen.commit params m2 (Some r2) tp = (Ok (c2, o2), tp) ->
  pedersen.negate_commitment params c2
  = Ok {| pedersen.value := cval params (- m2) (- r2) |}
  /\ pedersen.verify params {| pedersen.value := cval params (- m2) (- r2) |}
       (- m2) {| pedersen.randomness := - r2 |} = Ok true
  /\ exists c,
       pedersen.commitment_difference params c1 c2 = Ok c
       /\ pedersen.verify params c (m1 - m2)
            {| pedersen.randomness :=
                 pedersen.randomness o1 - pedersen.randomness o2 |} = Ok true.
Proof.
  subgroup_facts G.
  rewrite !(commit_some params G). intros H1 H2.
  injection H1 as <- <-. injection H2 as <- <-.
  split; [apply negate_cval|]. split.
  { rewrite (verify_cval params G), Z.eqb_refl. reflexivity. }
  exists {| pedersen.value := cval params (m1 + - m2) (r1 + - r2) |}. split.
  - unfold pedersen.commitment_difference. rewrite negate_cval. cbn [rbind].
    unfold pedersen.add_commitments.
    cbn [pedersen.add_commitments_from pedersen.value].
    rewrite (mod_p params G). cbn [rbind]. rewrite (mod_p params G). cbn [rbind].
    rewrite Z.mul_1_l, (cval_mod params), (cval_mul params G). reflexivity.
  - cbn [pedersen.randomness]. rewrite (verify_cval params G).
    replace (m1 + - m2) with (m1 - m2) by lia.
    replace (r1 + - r2) with (r1 - r2) by lia.
    rewrite Z.eqb_refl. reflexivity.
Qed.
End Aggregation.
(* ===================================================================== *)
(** * Sampling *)

Lemma random_scalar_loop_first fuel params tp k tp' :
  pedersen.random_scalar_loop fuel params tp = (Ok k, tp') ->
  0 < k < pedersen.q params
  /\ exists skipped x,
       tp = skipped ++ x :: tp'
       /\ Forall (fun y => y mod pedersen.q params = 0) skipped
       /\ k = x mod pedersen.q params.
Proof.
  revert tp. induction fuel as [|fuel IH]; intros tp H.
  - cbn in H. discriminate.
  - cbn [pedersen.random_scalar_loop] in H. unfold bind, secrets.randbelow in H.
    destruct (Z.leb_spec (pedersen.q params) 0) as [|HQ]; [discriminate|].
    destruct tp as [|x tp]; [discriminate|].
    pose proof (Z.mod_pos_bound x (pedersen.q params) HQ) as B.
    destruct (Z.eqb_spec (x mod (pedersen.q params)) 0) as [E|E]; cbn [negb] in H.
    + destruct (IH _ H) as (Hk & skipped & y & -> & Hs & ->).
      split; [exact Hk|]. exists (x :: skipped), y.
      split; [reflexivity|]. split; [constructor; assumption|reflexivity].
    + unfold ret in H. injection H as <- <-.
      split; [lia|]. exists [], x. split; [reflexivity|]. split; [constructor|reflexivity].
Qed.

Lemma random_scalar_loop_skip fuel params skipped x rest :
  0 < pedersen.q params ->
  (List.length skipped < fuel)%nat ->
  Forall (fun y => y mod pedersen.q params = 0) skipped ->
  x mod pedersen.q params <> 0 ->
  pedersen.random_scalar_loop fuel params (skipped ++ x :: rest)
  = (Ok (x mod pedersen.q params), rest).
Proof.
  intros HQ Hf Hs Hx. revert fuel Hf.
  induction Hs as [|y skipped Hy _ IH]; intros fuel Hf.
  - destruct fuel as [|fuel]; [cbn in Hf; lia|].
    cbn [app pedersen.random_scalar_loop]. unfold bind, secrets.randbelow.
    destruct (Z.leb_spec (pedersen.q params) 0); [lia|].
    destruct (Z.eqb_spec (x mod pedersen.q params) 0); [contradiction|]. reflexivity.
  - destruct fuel as [|fuel]; [cbn in Hf; lia|].
    cbn [app pedersen.random_scalar_loop]. unfold bind, secrets.randbelow.
    destruct (Z.leb_spec (pedersen.q params) 0); [lia|].
    rewrite Hy. cbn [Z.eqb negb]. apply IH. cbn in Hf. lia.
Qed.

(** X5: [random_scalar] is rejection sampling.  It raises [ValueError]
    at once when [q <= 0].  When it returns [k] then [0 < k < q] and [k] is
    the first draw that is not a multiple of [q], the draws before it
    being discarded; conversely it returns that draw.  For [q = 1] no draw
    is ever accepted, so it never returns. *)
Theorem random_scalar_rejection_sampling params tp :
  (pedersen.q params <= 0 ->
   pedersen.random_scalar params tp = (Raise ValueError, tp))
  /\ (forall k tp',
        pedersen.random_scalar params tp = (Ok k, tp') ->
        0 < k < pedersen.q params
        /\ exists skipped x,
             tp = skipped ++ x :: tp'
             /\ Forall (fun y => y mod pedersen.q params = 0) skipped
             /\ k = x mod pedersen.q params)
  /\ (forall skipped x rest,
        0 < pedersen.q params ->
        tp = skipped ++ x :: rest ->
        Forall (fun y => y mod pedersen.q params = 0) skipped ->
        x mod pedersen.q params <> 0 ->
        pedersen.random_scalar params tp = (Ok (x mod pedersen.q params), rest))
  /\ (pedersen.q params = 1 ->
      forall k tp', pedersen.random_scalar params tp <> (Ok k, tp')).
Proof.
  split; [|split; [|split]].
  - intros HQ. unfold pedersen.random_scalar.
    cbn [pedersen.random_scalar_loop]. unfold bind, secrets.randbelow.
    destruct (Z.leb_spec (pedersen.q params) 0); [reflexivity|lia].
  - intros k tp'. apply random_scalar_loop_first.
  - intros skipped x rest HQ -> Hs Hx. unfold pedersen.random_scalar.
    apply random_scalar_loop_skip; try assumption.
    rewrite length_app. cbn [List.length]. lia.
  - intros HQ k tp' H. apply random_scalar_loop_first in H. lia.
Qed.

(* ===================================================================== *)
(** * The counting loop *)

Lemma count_until_none {A} fuel (body : Z -> result (option A)) i :
  (forall j, i <= j < i + Z.pos fuel -> body j = Ok None) ->
  count_until fuel body i = Ok (inr (i + Z.pos fuel)).
Proof.
  revert i. induction fuel as [f IH | f IH |]; intros i H; cbn [count_until].
  - rewrite (H i) by lia. cbn [rbind].
    rewrite (IH (i + 1)) by (intros; apply H; lia). cbn [rbind].
    rewrite IH by (intros; apply H; lia). f_equal. f_equal. lia.
  - rewrite (IH i) by (intros; apply H; lia). cbn [rbind].
    rewrite IH by (intros; apply H; lia). f_equal. f_equal. lia.
  - rewrite (H i) by lia. reflexivity.
Qed.

Lemma count_until_raise_at {A} fuel (body : Z -> result (option A)) i k e :
  i <= k < i + Z.pos fuel ->
  (forall j, i <= j < k -> body j = Ok None) ->
  body k = Raise e ->
  count_until fuel body i = Raise e.
Proof.
  revert i. induction fuel as [f IH | f IH |]; intros i Hk Hn He;
    cbn [count_until].
  - destruct (Z.eq_dec k i) as [->|Hne].
    + rewrite He. reflexivity.
    + rewrite (Hn i) by lia. cbn [rbind].
      destruct (Z_lt_le_dec k (i + 1 + Z.pos f)) as [Hlt|Hge].
      * rewrite (IH (i + 1)); [reflexivity|lia|intros; apply Hn; lia|exact He].
      * rewrite (count_until_none f body (i + 1)) by (intros; apply Hn; lia).
        cbn [rbind]. apply IH; [lia|intros; apply Hn; lia|exact He].
  - destruct (Z_lt_le_dec k (i + Z.pos f)) as [Hlt|Hge].
    + rewrite (IH i); [reflexivity|lia|intros; apply Hn; lia|exact He].
    + rewrite (count_until_none f body i) by (intros; apply Hn; lia).
      cbn [rbind]. apply IH; [lia|intros; apply Hn; lia|exact He].
  - assert (k = i) as -> by lia. rewrite He. reflexivity.
Qed.

Lemma count_until_stop {A} fuel (body : Z -> result (option A)) i j :
  count_until fuel body i = Ok (inr j) -> j = i + Z.pos fuel.
Proof.
  revert i j. induction fuel as [f IH | f IH |]; intros i j E;
    cbn [count_until] in E.
  - destruct (body i) as [[x|]|e]; cbn [rbind] in E; try discriminate.
    destruct (count_until f body (i + 1)) as [[x|j']|e] eqn:E1;
      cbn [rbind] in E; try discriminate.
    apply IH in E1. subst j'. apply IH in E. lia.
  - destruct (count_until f body i) as [[x|j']|e] eqn:E1;
      cbn [rbind] in E; try discriminate.
    apply IH in E1. subst j'. apply IH in E. lia.
  - destruct (body i) as [[x|]|e]; cbn [rbind] in E; try discriminate.
    injection E as <-. lia.
Qed.

Lemma count_until_found {A} fuel (body : Z -> result (option A)) i a :
  count_until fuel body i = Ok (inl a) ->
  exists j, i <= j < i + Z.pos fuel /\ body j = Ok (Some a).
Proof.
  revert i. induction fuel as [f IH | f IH |]; intros i H; cbn [count_until] in H.
  - destruct (body i) as [[x|]|e] eqn:Eb; cbn [rbind] in H; try discriminate.
    + injection H as ->. exists i. split; [lia|exact Eb].
    + destruct (count_until f body (i + 1)) as [[x|j]|e] eqn:E1;
        cbn [rbind] in H; try discriminate.
      * injection H as ->. destruct (IH _ E1) as (j & Hj & Hb).
        exists j. split; [lia|exact Hb].
      * apply count_until_stop in E1. subst j.
        destruct (IH _ H) as (j & Hj & Hb). exists j. split; [lia|exact Hb].
  - destruct (count_until f body i) as [[x|j]|e] eqn:E1;
      cbn [rbind] in H; try discriminate.
    + injection H as ->. destruct (IH _ E1) as (j & Hj & Hb).
      exists j. split; [lia|exact Hb].
    + apply count_until_stop in E1. subst j.
      destruct (IH _ H) as (j & Hj & Hb). exists j. split; [lia|exact Hb].
  - destruct (body i) as [[x|]|e] eqn:Eb; cbn [rbind] in H; try discriminate.
    injection H as ->. exists i. split; [lia|exact Eb].
Qed.

Lemma to_bytes_4 j :
  0 <= j < 2 ^ 32 -> exists bs, py.to_bytes j 4 = Ok bs.
Proof.
  intros H. unfold py.to_bytes.
  change (2 ^ (8 * Z.of_nat 4)) with (2 ^ 32).
  destruct (Z.ltb_spec j 0); [lia|].
  destruct (Z.leb_spec (2 ^ 32) j); [lia|].
  eexists. reflexivity.
Qed.

Lemma to_bytes_4_inv j bs :
  py.to_bytes j 4 = Ok bs -> 0 <= j < 2 ^ 32.
Proof.
  unfold py.to_bytes. change (2 ^ (8 * Z.of_nat 4)) with (2 ^ 32).
  destruct (Z.ltb_spec j 0); [discriminate|].
  destruct (Z.leb_spec (2 ^ 32) j); [discriminate|]. lia.
Qed.

Lemma to_bytes_4_overflow : py.to_bytes (2 ^ 32) 4 = Raise OverflowError.
Proof. reflexivity. Qed.

(** X6: [_hash_to_scalar(seed, q)] raises [ZeroDivisionError] for
    [q = 0]; a scalar it returns is not zero, is the digest of the seed
    followed by a four-byte attempt counter, reduced modulo [q], and lies
    in [1, q-1] when [q] is positive; for [q = 1] and [q = -1] every attempt
    gives zero and the loop ends with the [OverflowError] of the counter
    [2^32]. *)
Theorem hash_to_scalar_behaviour seed q :
  (q = 0 -> pedersen._hash_to_scalar seed q = Raise ZeroDivisionError)
  /\ (forall s,
        pedersen._hash_to_scalar seed q = Ok s ->
        s <> 0
        /\ (0 < q -> 0 < s < q)
        /\ exists attempt suffix,
             0 <= attempt < 2 ^ 32
             /\ py.to_bytes attempt 4 = Ok suffix
             /\ s = py.from_bytes (hashlib.sha256 (seed ++ suffix)) mod q)
  /\ (q = 1 \/ q = -1 -> pedersen._hash_to_scalar seed q = Raise OverflowError).
Proof.
  unfold pedersen._hash_to_scalar.
  set (body := fun attempt : Z =>
         suffix <~ py.to_bytes attempt 4 ;;
         scalar <~ py.mod_ (py.from_bytes (hashlib.sha256 (seed ++ suffix))) q ;;
         Ok (if negb (scalar =? 0) then Some scalar else None)).
  split; [|split].
  - intros ->.
    rewrite (count_until_raise_at _ body 0 0 ZeroDivisionError); [reflexivity|lia| |].
    + intros j Hj. lia.
    + subst body. cbv beta.
      destruct (to_bytes_4 0) as [bs ->]; [lia|]. reflexivity.
  - intros s H.
    destruct (count_until (2 ^ 32 + 1) body 0) as [[x|j]|e] eqn:Ec;
      cbn [rbind] in H; try discriminate.
    injection H as ->.
    apply count_until_found in Ec. destruct Ec as (j & Hj & Hb).
    subst body. cbv beta in Hb.
    destruct (py.to_bytes j 4) as [suffix|e] eqn:Et; cbn [rbind] in Hb;
      [|discriminate].
    unfold py.mod_ in Hb.
    destruct (Z.eqb_spec q 0) as [|Hq]; [discriminate|]. cbn [rbind] in Hb.
    set (v := py.from_bytes (hashlib.sha256 (seed ++ suffix)) mod q) in *.
    destruct (Z.eqb_spec v 0) as [|Hv]; cbn [negb] in Hb; [discriminate|].
    injection Hb as <-.
    split; [exact Hv|]. split.
    + intros HQ.
      pose proof (Z.mod_pos_bound
                    (py.from_bytes (hashlib.sha256 (seed ++ suffix))) q HQ) as B.
      fold v in B. lia.
    + exists j, suffix. split; [eapply to_bytes_4_inv; exact Et|].
      split; [exact Et|reflexivity].
  - intros Hq.
    rewrite (count_until_raise_at _ body 0 (2 ^ 32) OverflowError);
      [reflexivity|lia| |].
    + intros j Hj. subst body. cbv beta.
      destruct (to_bytes_4 j) as [bs ->]; [lia|]. cbn [rbind].
      unfold py.mod_.
      destruct Hq as [-> | ->]; cbn [Z.eqb rbind].
      * rewrite Z.mod_1_r. reflexivity.
      * replace (py.from_bytes (hashlib.sha256 (seed ++ bs)) mod -1) with 0;
          [reflexivity|].
        symmetry. apply Z.mod_divide; [lia|].
        exists (- py.from_bytes (hashlib.sha256 (seed ++ bs))). lia.
    + subst body. cbv beta. rewrite to_bytes_4_overflow. reflexivity.
Qed.
(* ===================================================================== *)
(** * Fresh commitments, context binding, equivocation *)

Section SubgroupMore.
Variable params : pedersen.CommitmentParameters.
Hypothesis G : subgroup_params params.

Lemma commit_fresh_opens m tp c o tp' :
  pedersen.commit params m None tp = (Ok (c, o), tp') ->
  0 < pedersen.randomness o < pedersen.q params
  /\ pedersen.value c = cval params m (pedersen.randomness o)
  /\ pedersen.verify params c m o = Ok true
  /\ exists skipped, tp = skipped ++ tp'.
Proof.
  rewrite (commit_none params G).
  destruct (pedersen.random_scalar params tp) as [[r|e] tp1] eqn:Er; [|discriminate].
  intros H. injection H as <- <- <-.
  cbn [pedersen.randomness pedersen.value].
  destruct (random_scalar_loop_first _ _ _ _ _ Er) as (Hr & skipped & x & -> & _ & _).
  split; [exact Hr|]. split; [reflexivity|]. split.
  - rewrite (verify_cval params G), Z.eqb_refl. reflexivity.
  - exists (skipped ++ [x]). rewrite <- app_assoc. reflexivity.
Qed.

Lemma commit_fresh_runs m x rest :
  x mod pedersen.q params <> 0 ->
  exists c o, pedersen.commit params m None (x :: rest) = (Ok (c, o), rest).
Proof.
  intros Hx. subgroup_facts G. rewrite (commit_none params G).
  unfold pedersen.random_scalar.
  rewrite (random_scalar_loop_skip _ params [] x rest HQ); try assumption.
  - eexists. eexists. reflexivity.
  - cbn. lia.
  - constructor.
Qed.

Lemma challenge_lt c t_value context :
  1 < pedersen.q params ->
  challenge params c t_value context < pedersen.q params.
Proof.
  intros HQ1. subgroup_facts G.
  unfold challenge, pedersen._compute_challenge, rbind.
  rewrite (mod_p params G).
  destruct (int_to_bytes_ok params G (pedersen.value c)) as [cb ->].
  rewrite (mod_p params G).
  destruct (int_to_bytes_ok params G t_value) as [tb ->].
  rewrite (mod_q params G).
  match goal with |- context [?x mod (pedersen.q params) =? 0] =>
    pose proof (Z.mod_pos_bound x (pedersen.q params) HQ) as B;
    destruct (Z.eqb_spec (x mod (pedersen.q params)) 0) as [E|E] end; lia.
Qed.
End SubgroupMore.

Section PrimeOrderMore.
Variable params : pedersen.CommitmentParameters.
Hypothesis G : prime_order_params params.

(** An element of the subgroup other than the identity has order [q]. *)
Lemma cval_order m r d :
  cval params m r <> 1 ->
  cval params (d * m) (d * r) = 1 ->
  d mod pedersen.q params = 0.
Proof.
  intros Hne H1.
  pose proof (is_subgroup params G) as S0.
  pose proof (modulus_gt_1 params S0) as HP.
  pose proof (order_pos params S0) as HQ.
  pose proof (order_prime params G) as Hprime.
  assert (HQ2 : 1 < pedersen.q params) by (destruct Hprime; assumption).
  destruct (Z.eq_dec (d mod pedersen.q params) 0) as [Hz|Hnz]; [exact Hz|].
  exfalso. apply Hne.
  set (e := d mod pedersen.q params) in *.
  assert (He : 0 <= e < pedersen.q params) by (apply Z.mod_pos_bound; exact HQ).
  set (u := Z.invmod e (pedersen.q params)).
  assert (Hu : 0 <= u).
  { subst u. rewrite <- Z.mod_invmod. apply Z.mod_pos_bound. exact HQ. }
  assert (Hud : (u * e) mod pedersen.q params = 1).
  { subst u. apply Z.invmod_prime; [exact Hprime|].
    rewrite Z.mod_small by lia. exact Hnz. }
  pose proof (cval_pow params S0 (d * m) (d * r) u Hu) as Hp.
  rewrite H1, Z.pow_1_l, Z.mod_1_l in Hp by lia.
  rewrite Hp. apply cval_congr.
  - rewrite Z.mul_assoc, Zmult_mod.
    replace ((u * d) mod pedersen.q params) with 1.
    + rewrite Z.mul_1_l, Zmod_mod. reflexivity.
    + rewrite <- Hud. subst e. rewrite Zmult_mod_idemp_r. reflexivity.
  - rewrite Z.mul_assoc, Zmult_mod.
    replace ((u * d) mod pedersen.q params) with 1.
    + rewrite Z.mul_1_l, Zmod_mod. reflexivity.
    + rewrite <- Hud. subst e. rewrite Zmult_mod_idemp_r. reflexivity.
Qed.

Lemma proof_bound_to_challenge m r context context' w_m w_r :
  let c := {| pedersen.value := cval params m r |} in
  let o := {| pedersen.randomness := r |} in
  let proof := proof_for params m o c context w_m w_r in
  cval params m r <> 1 ->
  challenge params c (pedersen.t proof) context'
  <> challenge params c (pedersen.t proof) context ->
  pedersen.verify_opening_proof params c proof context' = Ok false.
Proof.
  intros c o proof Hne Hch.
  pose proof (is_subgroup params G) as S0.
  pose proof (modulus_gt_1 params S0) as HP.
  pose proof (order_pos params S0) as HQ.
  pose proof (order_prime params G) as Hprime.
  assert (HQ2 : 1 < pedersen.q params) by (destruct Hprime; assumption).
  rewrite (verify_opening_proof_eq params S0).
  f_equal. apply Z.eqb_neq. intros E.
  subst proof. unfold proof_for in E, Hch.
  cbn [pedersen.t pedersen.response_m pedersen.response_r] in E, Hch.
  set (t := cval params w_m w_r) in *.
  set (ch := challenge params c t context) in *.
  set (ch' := challenge params c t context') in *.
  assert (B : 0 < ch < pedersen.q params).
  { split; [apply (challenge_spec params S0)|apply (challenge_lt params S0); exact HQ2]. }
  assert (B' : 0 < ch' < pedersen.q params).
  { split; [apply (challenge_spec params S0)|apply (challenge_lt params S0); exact HQ2]. }
  subst c o. cbn [pedersen.value pedersen.randomness] in E.
  rewrite (cval_mod params), (cval_pow params S0) in E by lia.
  subst t. rewrite (cval_mul params S0) in E.
  rewrite (cval_congr params _ (w_m + ch * m) _ (w_r + ch * r)) in E.
  2:{ rewrite Zmod_mod, <- Zplus_mod_idemp_r, Zmult_mod_idemp_r, Zplus_mod_idemp_r.
      reflexivity. }
  2:{ rewrite Zmod_mod. reflexivity. }
  assert (D : cval params ((ch - ch') * m) ((ch - ch') * r) = 1).
  { replace ((ch - ch') * m) with ((w_m + ch * m) + - (w_m + ch' * m)) by ring.
    replace ((ch - ch') * r) with ((w_r + ch * r) + - (w_r + ch' * r)) by ring.
    rewrite <- (cval_mul params S0), E, (cval_mul params S0).
    replace (w_m + ch' * m + - (w_m + ch' * m)) with 0 by ring.
    replace (w_r + ch' * r + - (w_r + ch' * r)) with 0 by ring.
    apply (cval_zero params S0). }
  apply (cval_order m r (ch - ch') Hne) in D.
  apply Z.mod_divide in D; [|lia]. destruct D as [k Hk].
  assert (k = 0) by nia. subst k. apply Hch. lia.
Qed.
End PrimeOrderMore.

(** The trapdoor: [h] is a known power of [g]. *)
Section Trapdoor.
Variable params : pedersen.CommitmentParameters.
Hypothesis G : subgroup_params params.
Variables s s_inv : Z.
Hypothesis Hs : 0 <= s.
Hypothesis Hh : pedersen.g params ^ s mod pedersen.p params = pedersen.h params.
Hypothesis Hinv : (s * s_inv) mod pedersen.q params = 1.

Lemma gexp_h e :
  gexp params (pedersen.h params) e = gexp params (pedersen.g params) (s * e).
Proof.
  pose proof (modulus_gt_1 params G) as HP.
  pose proof (order_pos params G) as HQ.
  pose proof (g_order params G) as Hg.
  unfold gexp. rewrite <- Hh.
  pose proof (Z.mod_pos_bound e (pedersen.q params) HQ).
  rewrite pow_mod_base by lia.
  rewrite <- Z.pow_mul_r by lia.
  rewrite (pow_reduce (pedersen.p params) (pedersen.q params) (pedersen.g params)
             HP HQ Hg) by nia.
  rewrite Zmult_mod_idemp_r. reflexivity.
Qed.

Lemma cval_trapdoor m r :
  cval params m r = gexp params (pedersen.g params) (m + s * r).
Proof.
  unfold cval. rewrite gexp_h.
  apply (gexp_add params G). apply (g_order params G).
Qed.

Lemma equivocation m r m' :
  cval params m' (r + (m - m') * s_inv) = cval params m r.
Proof.
  rewrite !cval_trapdoor. apply gexp_congr.
  replace (m' + s * (r + (m - m') * s_inv))
    with (m' + s * r + (m - m') * (s * s_inv)) by ring.
  rewrite Zplus_mod, (Zmult_mod (m - m')), Hinv, Z.mul_1_r, Zmod_mod.
  rewrite <- Zplus_mod. f_equal. ring.
Qed.

Lemma equivocation_verify m r m' tp c o :
  pedersen.commit params m (Some r) tp = (Ok (c, o), tp) ->
  pedersen.verify params c m'
    {| pedersen.randomness := r + (m - m') * s_inv |} = Ok true.
Proof.
  rewrite (commit_some params G). intros H. injection H as <- <-.
  rewrite (verify_cval params G), equivocation, Z.eqb_refl. reflexivity.
Qed.
End Trapdoor.

Lemma default_trapdoor_inverse :
  (default_s * Z.invmod default_s default_q) mod default_q = 1.
Proof. vm_compute. reflexivity. Qed.

Lemma default_s_nonneg : 0 <= default_s.
Proof. unfold default_s. lia. Qed.

(** X9: on the default parameters a commitment can be opened to any
    message once the opening may change: [h] is [g^s] for the scalar [s]
    that [_hash_to_scalar] derives from a public string, and the
    commitment [commit] makes to [m] under [r] verifies against every
    other message [m'] under the opening [r + (m - m') * s^-1]. *)
Theorem default_commitments_equivocate ps m r m' tp c o :
  pedersen.default_parameters = Ok ps ->
  pedersen.commit ps m (Some r) tp = (Ok (c, o), tp) ->
  exists s,
    pedersen._hash_to_scalar (py.encode "pedersen-h-generator") (pedersen.q ps)
    = Ok s
    /\ pedersen.verify ps c m'
         {| pedersen.randomness := r + (m - m') * Z.invmod s (pedersen.q ps) |}
       = Ok true.
Proof.
  intros Hps Hc. apply default_parameters_inv in Hps. subst ps.
  exists default_s. split; [exact hash_to_scalar_default|].
  exact (equivocation_verify default_params default_subgroup default_s
           (Z.invmod default_s default_q) default_s_nonneg default_h_eq
           default_trapdoor_inverse m r m' tp c o Hc).
Qed.

(* ===================================================================== *)
(** * Dictionaries *)

Lemma dict_get_set {V} (d : dict.t V) k v k' :
  dict.get (dict.set d k v) k'
  = if String.eqb k' k then Some v else dict.get d k'.
Proof.
  induction d as [|[k0 v0] d IH]; cbn [dict.set dict.get].
  - destruct (String.eqb k' k); reflexivity.
  - destruct (String.eqb_spec k k0) as [->|Hk]; cbn [dict.get].
    + destruct (String.eqb k' k0); reflexivity.
    + rewrite IH. destruct (String.eqb_spec k' k0) as [->|];
        [|reflexivity].
      destruct (String.eqb_spec k0 k); [congruence|reflexivity].
Qed.

Lemma dict_get_map_values {V W} (f : V -> W) (d : dict.t V) k v :
  dict.get d k = Some v -> dict.get (dict.map_values f d) k = Some (f v).
Proof.
  unfold dict.map_values.
  induction d as [|[k0 v0] d IH]; cbn [dict.get List.map fst snd]; [discriminate|].
  destruct (String.eqb k k0); [intros H; injection H as ->; reflexivity|exact IH].
Qed.

Section ChannelInvariant.
Context {E : Ed25519}.

Lemma clone_id (st : channel.ChannelState) : channel.clone st = st.
Proof.
  destruct st as [seq bal cs os prs sigs]. unfold channel.clone.
  cbn [channel.sequence channel.balances channel.commitments channel.openings
       channel.proofs channel.signatures].
  f_equal; unfold dict.map_values.
  - induction bal as [|[k v] l IH]; [reflexivity|cbn; rewrite IH; reflexivity].
  - induction cs as [|[k [v]] l IH]; [reflexivity|cbn; rewrite IH; reflexivity].
  - induction os as [|[k [v]] l IH]; [reflexivity|cbn; rewrite IH; reflexivity].
  - induction prs as [|[k [t m r]] l IH]; [reflexivity|cbn; rewrite IH; reflexivity].
  - induction sigs as [|[k [v]] l IH]; [reflexivity|cbn; rewrite IH; reflexivity].
Qed.

Lemma sign_state_eq pid ch w :
  channel.sign_state pid (ch, w)
  = match dict.get (channel.participants ch) pid with
    | None => (Raise (InvalidParticipantError pid), (ch, w))
    | Some participant =>
        let sg := signing.SigningKey_sign (channel.signing_key participant)
                    (channel.state_digest ch) in
        (Ok sg,
         (channel.map_state
            (fun st => channel.with_signatures
                         (dict.set (channel.signatures st) pid sg) st) ch, w))
    end.
Proof.
  unfold channel.sign_state. rewrite bind_eq.
  cbv beta iota delta [channel.self fst].
  destruct (dict.get (channel.participants ch) pid) as [participant|];
    [|reflexivity].
  rewrite bind_eq. cbv beta iota delta [channel.set_state modify fst snd ret].
  reflexivity.
Qed.

Lemma proven_state_sigs ps cid seq a b da db sigs sigs' :
  channel.with_signatures sigs' (proven_state ps cid seq a b da db sigs)
  = proven_state ps cid seq a b da db sigs'.
Proof. destruct da as [[? ?] ?], db as [[? ?] ?]. reflexivity. Qed.

Lemma proven_state_fields ps cid seq a b da db sigs :
  channel.sequence (proven_state ps cid seq a b da db sigs) = seq
  /\ channel.balances (proven_state ps cid seq a b da db sigs)
     = [("alice", a); ("bob", b)]
  /\ channel.commitments (proven_state ps cid seq a b da db sigs)
     = [("alice", slot_commitment ps a (fst (fst da)));
        ("bob", slot_commitment ps b (fst (fst db)))]
  /\ channel.openings (proven_state ps cid seq a b da db sigs)
     = [("alice", slot_opening (fst (fst da)));
        ("bob", slot_opening (fst (fst db)))]
  /\ channel.proofs (proven_state ps cid seq a b da db sigs)
     = [("alice", slot_proof ps cid seq "alice" a (fst (fst da)) (snd (fst da)) (snd da));
        ("bob", slot_proof ps cid seq "bob" b (fst (fst db)) (snd (fst db)) (snd db))]
  /\ channel.signatures (proven_state ps cid seq a b da db sigs) = sigs.
Proof. destruct da as [[? ?] ?], db as [[? ?] ?]. repeat split. Qed.

Lemma proven_state_inj ps cid seq a b da db sigs seq' a' b' da' db' sigs' :
  proven_state ps cid seq a b da db sigs
  = proven_state ps cid seq' a' b' da' db' sigs' ->
  seq = seq' /\ a = a' /\ b = b' /\ sigs = sigs'.
Proof.
  intros H.
  pose proof (proven_state_fields ps cid seq a b da db sigs) as (S1 & B1 & _ & _ & _ & G1).
  pose proof (proven_state_fields ps cid seq' a' b' da' db' sigs') as (S2 & B2 & _ & _ & _ & G2).
  rewrite H in S1, B1, G1.
  assert (seq' = seq) by congruence. assert (sigs' = sigs) by congruence.
  assert (Hb : [("alice", a'); ("bob", b')] = [("alice", a); ("bob", b)]) by congruence.
  injection Hb as -> ->. subst. auto.
Qed.
End ChannelInvariant.

Section ChannelInvariant2.
Context {E : Ed25519}.

Lemma keys_two {V} (ks : dict.t V) :
  dict.keys ks = ["alice"; "bob"] ->
  exists ka kb, ks = [("alice", ka); ("bob", kb)].
Proof.
  destruct ks as [|[k1 v1] [|[k2 v2] [|? ?]]]; try discriminate.
  cbn. intros K. injection K as -> ->. eexists. eexists. reflexivity.
Qed.

Lemma state_digest_signatures f (ch : channel.Channel) :
  channel.state_digest
    (channel.map_state (fun st => channel.with_signatures (f st) st) ch)
  = channel.state_digest ch.
Proof. reflexivity. Qed.

Lemma coherent_open dA dB popt cid keys w ch w' :
  match popt with Some ps => subgroup_params ps | None => True end ->
  match keys with
  | Some ks => dict.keys ks = ["alice"; "bob"]
  | None => True
  end ->
  channel.open dA dB popt cid keys w = (Ok ch, w') ->
  coherent ch.
Proof.
  intros G K H.
  apply (open_inv _ _ _ _ _ _ _ _ G) in H.
  destruct H as (ps & cid' & ks & da & db & Gps & _ & Hks & HA & HB & Ra & Rb & ->).
  assert (Hk : exists ka kb, ks = [("alice", ka); ("bob", kb)]).
  { destruct keys as [ks'|]; [subst ks'; apply keys_two; exact K|exact Hks]. }
  destruct Hk as (ka & kb & ->).
  exists 0, dA, dB, da, db, [], ka, kb.
  cbn [channel.Channel_init channel.params channel.participants channel.state
       channel.channel_id channel.history].
  rewrite clone_id.
  split; [exact Gps|]. split; [reflexivity|]. split; [reflexivity|].
  split; [exact Ra|]. split; [exact Rb|]. split; [exact HA|]. split; [exact HB|].
  split; [lia|]. split; [reflexivity|]. split; [|split].
  - intros i st Hi. destruct i as [|i]; cbn in Hi.
    + injection Hi as <-. exists dA, dB, da, db. reflexivity.
    + destruct i; discriminate.
  - reflexivity.
  - intros pid sg Hg. discriminate.
Qed.

Lemma coherent_pay ch w payer amount st ch' w' :
  coherent ch ->
  channel.apply_payment payer amount (ch, w) = (Ok st, (ch', w')) ->
  coherent ch'.
Proof.
  intros (seq & a & b & da & db & sigs & ka & kb & G & Hp & Hst & Ra & Rb
          & Ha & Hb & Hseq & Hlen & Hhist & Hlast & Hsig) H.
  pose proof (proven_state_fields (channel.params ch) (channel.channel_id ch)
                seq a b da db sigs) as (F1 & F2 & _).
  assert (S0 : shaped (channel.state ch)).
  { rewrite Hst. apply proven_state_shaped. }
  destruct (apply_payment_ok _ _ _ _ _ _ _ H)
    as (payee & x & y & Hin & Hamt & _ & Hx & _).
  destruct (apply_payment_inv _ _ _ _ _ _ _ G S0 H)
    as (a0 & b0 & da' & db' & Hbal & Ra' & Rb' & -> & ->).
  rewrite Hst, F2 in Hbal. injection Hbal as <- <-.
  rewrite Hst, F1.
  rewrite Hst, F2 in Hx. rewrite Hp in Hin.
  assert (Hpaid : 0 <= fst (paid payer amount a b)
                  /\ 0 <= snd (paid payer amount a b)).
  { unfold paid. cbn [dict.get] in Hx.
    unfold dict.contains, two_party in Hin. cbn [dict.get] in Hin.
    destruct (String.eqb payer "alice").
    - injection Hx as <-. cbn [fst snd]. lia.
    - destruct (String.eqb payer "bob"); [|discriminate].
      injection Hx as <-. cbn [fst snd]. lia. }
  exists (seq + 1), (fst (paid payer amount a b)), (snd (paid payer amount a b)),
         da', db', [], ka, kb.
  cbn [channel.map_history channel.map_state channel.params channel.participants
       channel.state channel.channel_id channel.history].
  rewrite clone_id.
  split; [exact G|]. split; [exact Hp|]. split; [reflexivity|].
  split; [exact Ra'|]. split; [exact Rb'|].
  split; [apply Hpaid|]. split; [apply Hpaid|]. split; [lia|].
  assert (En : Z.to_nat (seq + 1) = S (Z.to_nat seq)).
  { rewrite Z2Nat.inj_add by lia. cbn. lia. }
  split; [|split; [|split]].
  - rewrite length_app, Hlen. cbn [List.length]. lia.
  - intros i st Hi.
    destruct (Nat.lt_ge_cases i (List.length (channel.history ch))) as [Hlt|Hge].
    + rewrite nth_error_app1 in Hi by exact Hlt. apply Hhist. exact Hi.
    + rewrite nth_error_app2 in Hi by exact Hge.
      destruct (i - List.length (channel.history ch))%nat as [|k] eqn:Ek.
      * cbn in Hi. injection Hi as <-.
        assert (i = S (Z.to_nat seq)) by lia. subst i.
        exists (fst (paid payer amount a b)), (snd (paid payer amount a b)), da', db'.
        f_equal. lia.
      * destruct k; discriminate.
  - rewrite En, nth_error_app2 by lia. rewrite Hlen, Nat.sub_diag. reflexivity.
  - intros pid sg Hg. discriminate.
Qed.

Lemma coherent_sign ch w pid sg ch' w' :
  coherent ch ->
  channel.sign_state pid (ch, w) = (Ok sg, (ch', w')) ->
  coherent ch'.
Proof.
  intros (seq & a & b & da & db & sigs & ka & kb & G & Hp & Hst & Ra & Rb
          & Ha & Hb & Hseq & Hlen & Hhist & Hlast & Hsig) H.
  rewrite sign_state_eq in H.
  destruct (dict.get (channel.participants ch) pid) as [participant|] eqn:Eg;
    [|discriminate].
  cbv zeta in H. injection H as <- <- <-.
  pose proof (proven_state_fields (channel.params ch) (channel.channel_id ch)
                seq a b da db sigs) as (_ & _ & _ & _ & _ & F6).
  exists seq, a, b, da, db,
    (dict.set sigs pid
       (signing.SigningKey_sign (channel.signing_key participant)
          (channel.state_digest ch))), ka, kb.
  rewrite state_digest_signatures.
  cbn [channel.map_state channel.params channel.participants
       channel.state channel.channel_id channel.history].
  split; [exact G|]. split; [exact Hp|]. split.
  { rewrite Hst at 2. rewrite proven_state_sigs. rewrite Hst, F6. reflexivity. }
  split; [exact Ra|]. split; [exact Rb|]. split; [exact Ha|]. split; [exact Hb|].
  split; [exact Hseq|]. split; [exact Hlen|]. split; [exact Hhist|].
  split; [exact Hlast|].
  intros pid' sg' Hg. rewrite dict_get_set in Hg.
  destruct (String.eqb_spec pid' pid) as [->|Hne].
  - injection Hg as <-. exists participant. rewrite <- Hp. split; [exact Eg|reflexivity].
  - apply Hsig. exact Hg.
Qed.

Lemma reachable_coherent ch : reachable ch -> coherent ch.
Proof.
  induction 1 as [dA dB popt cid keys w ch w' G K H
                 | ch w payer amount st ch' w' _ IH H
                 | ch w pid sg ch' w' _ IH H].
  - eapply coherent_open; eassumption.
  - eapply coherent_pay; eassumption.
  - eapply coherent_sign; eassumption.
Qed.
End ChannelInvariant2.

Lemma toy_channel_reachable : reachable toy_channel.
Proof.
  apply (reach_open (E := toy_ed25519) 200 50 (Some toy_params) None None
           toy_world toy_channel toy_world1).
  - constructor; reflexivity.
  - exact I.
  - vm_compute. reflexivity.
Qed.

Lemma toy_signed_reachable : reachable toy_signed.
Proof.
  eapply (reach_sign (E := toy_ed25519) _ toy_world1 "bob").
  - eapply (reach_sign (E := toy_ed25519) _ toy_world1 "alice").
    + exact toy_channel_reachable.
    + vm_compute. reflexivity.
  - vm_compute. reflexivity.
Qed.

Lemma toy_paid_reachable : reachable toy_paid.
Proof.
  eapply (reach_pay (E := toy_ed25519) toy_signed toy_world1 "alice" 25).
  - exact toy_signed_reachable.
  - vm_compute. reflexivity.
Qed.

(* ===================================================================== *)
(** * Properties of reachable channels *)

Section ChannelProperties.
Context {E : Ed25519}.

Lemma coherent_slot ch pid balance :
  coherent ch ->
  dict.get (channel.balances (channel.state ch)) pid = Some balance ->
  0 <= balance
  /\ exists r w_m w_r,
       0 < r < pedersen.q (channel.params ch)
       /\ dict.get (channel.commitments (channel.state ch)) pid
          = Some (slot_commitment (channel.params ch) balance r)
       /\ dict.get (channel.openings (channel.state ch)) pid
          = Some (slot_opening r)
       /\ dict.get (channel.proofs (channel.state ch)) pid
          = Some (slot_proof (channel.params ch) (channel.channel_id ch)
                    (channel.sequence (channel.state ch)) pid balance r w_m w_r).
Proof.
  intros (seq & a & b & da & db & sigs & ka & kb & G & Hp & Hst & Ra & Rb
          & Ha & Hb & Hseq & Hlen & Hhist & Hlast & Hsig).
  rewrite Hst.
  destruct da as [[r1 m1] s1], db as [[r2 m2] s2].
  unfold in_range in Ra, Rb. cbn [fst snd] in Ra, Rb.
  cbn [proven_state channel.balances channel.commitments channel.openings
       channel.proofs channel.sequence dict.get].
  destruct (String.eqb_spec pid "alice") as [->|Hna].
  - intros H. injection H as <-. split; [exact Ha|].
    exists r1, m1, s1. repeat split; try reflexivity; lia.
  - destruct (String.eqb_spec pid "bob") as [->|Hnb]; [|discriminate].
    intros H. injection H as <-. split; [exact Hb|].
    exists r2, m2, s2. repeat split; try reflexivity; lia.
Qed.
End ChannelProperties.

(** X13: in every channel reached from [Channel.open] by payments and
    signatures, each balance has a commitment, an opening in [1, q-1] and
    a proof such that [verify] accepts the balance and
    [verify_opening_proof] accepts the proof under the context of the
    current sequence number. *)
Theorem reachable_state_opens {E : Ed25519} ch pid balance :
  reachable ch ->
  dict.get (channel.balances (channel.state ch)) pid = Some balance ->
  exists c o pr,
    dict.get (channel.commitments (channel.state ch)) pid = Some c
    /\ dict.get (channel.openings (channel.state ch)) pid = Some o
    /\ dict.get (channel.proofs (channel.state ch)) pid = Some pr
    /\ 0 < pedersen.randomness o < pedersen.q (channel.params ch)
    /\ pedersen.verify (channel.params ch) c balance o = Ok true
    /\ pedersen.verify_opening_proof (channel.params ch) c pr
         (channel.proof_context (channel.channel_id ch)
            (channel.sequence (channel.state ch)) pid) = Ok true.
Proof.
  intros R H. pose proof (reachable_coherent ch R) as C.
  destruct (coherent_slot ch pid balance C H) as (_ & r & w_m & w_r & Hr & Hc & Ho & Hpr).
  destruct C as (seq & a & b & da & db & sigs & ka & kb & G & _).
  eexists. eexists. eexists.
  split; [exact Hc|]. split; [exact Ho|]. split; [exact Hpr|].
  split; [exact Hr|]. split.
  - unfold slot_commitment, slot_opening.
    rewrite (verify_cval _ G), Z.eqb_refl. reflexivity.
  - unfold slot_proof, slot_commitment, slot_opening.
    apply (proof_for_accepted _ G).
Qed.

Lemma reachable_state_opens_witness :
  exists c o pr,
    dict.get (channel.commitments (channel.state toy_paid)) "bob" = Some c
    /\ dict.get (channel.openings (channel.state toy_paid)) "bob" = Some o
    /\ dict.get (channel.proofs (channel.state toy_paid)) "bob" = Some pr
    /\ 0 < pedersen.randomness o < pedersen.q (channel.params toy_paid)
    /\ pedersen.verify (channel.params toy_paid) c 75 o = Ok true
    /\ pedersen.verify_opening_proof (channel.params toy_paid) c pr
         (channel.proof_context (channel.channel_id toy_paid)
            (channel.sequence (channel.state toy_paid)) "bob") = Ok true.
Proof.
  apply (reachable_state_opens (E := toy_ed25519) toy_paid "bob" 75).
  - exact toy_paid_reachable.
  - reflexivity.
Defined.

(** X14: no balance of a channel reached from [Channel.open] by
    payments and signatures is negative. *)
Theorem balances_never_negative {E : Ed25519} ch pid balance :
  reachable ch ->
  dict.get (channel.balances (channel.state ch)) pid = Some balance ->
  0 <= balance.
Proof.
  intros R H. apply (coherent_slot ch pid balance (reachable_coherent ch R) H).
Qed.

Lemma balances_never_negative_witness : 0 <= 175.
Proof.
  apply (balances_never_negative (E := toy_ed25519) toy_paid "alice" 175).
  - exact toy_paid_reachable.
  - reflexivity.
Defined.

(** X16: the history of a reachable channel has one state per sequence
    number: its length is the current sequence number plus one, entry [i]
    is at sequence [i], and the last entry holds the current balances,
    commitments, openings and proofs. *)
Theorem history_indexed_by_sequence {E : Ed25519} ch :
  reachable ch ->
  0 <= channel.sequence (channel.state ch)
  /\ Z.of_nat (List.length (channel.history ch))
     = channel.sequence (channel.state ch) + 1
  /\ (forall i st,
        nth_error (channel.history ch) i = Some st ->
        channel.sequence st = Z.of_nat i)
  /\ exists last,
       nth_error (channel.history ch)
         (Z.to_nat (channel.sequence (channel.state ch))) = Some last
       /\ channel.balances last = channel.balances (channel.state ch)
       /\ channel.commitments last = channel.commitments (channel.state ch)
       /\ channel.openings last = channel.openings (channel.state ch)
       /\ channel.proofs last = channel.proofs (channel.state ch).
Proof.
  intros R.
  destruct (reachable_coherent ch R)
    as (seq & a & b & da & db & sigs & ka & kb & G & Hp & Hst & Ra & Rb
        & Ha & Hb & Hseq & Hlen & Hhist & Hlast & Hsig).
  pose proof (proven_state_fields (channel.params ch) (channel.channel_id ch)
                seq a b da db sigs) as (F1 & F2 & F3 & F4 & F5 & F6).
  pose proof (proven_state_fields (channel.params ch) (channel.channel_id ch)
                seq a b da db []) as (L1 & L2 & L3 & L4 & L5 & L6).
  rewrite Hst, F1, F2, F3, F4, F5.
  split; [exact Hseq|]. split; [rewrite Hlen; lia|]. split.
  - intros i st Hi. destruct (Hhist i st Hi) as (a' & b' & da' & db' & ->).
    apply proven_state_fields.
  - eexists. split; [exact Hlast|].
    rewrite L2, L3, L4, L5. repeat split.
Qed.

Lemma history_indexed_by_sequence_witness :
  0 <= channel.sequence (channel.state toy_paid)
  /\ Z.of_nat (List.length (channel.history toy_paid))
     = channel.sequence (channel.state toy_paid) + 1
  /\ (forall i st,
        nth_error (channel.history toy_paid) i = Some st ->
        channel.sequence st = Z.of_nat i)
  /\ exists last,
       nth_error (channel.history toy_paid)
         (Z.to_nat (channel.sequence (channel.state toy_paid))) = Some last
       /\ channel.balances last = channel.balances (channel.state toy_paid)
       /\ channel.commitments last = channel.commitments (channel.state toy_paid)
       /\ channel.openings last = channel.openings (channel.state toy_paid)
       /\ channel.proofs last = channel.proofs (channel.state toy_paid).
Proof.
  apply (history_indexed_by_sequence (E := toy_ed25519) toy_paid).
  exact toy_paid_reachable.
Defined.

(** X17: no state in the history of a reachable channel holds a
    signature, also after both participants signed: [history_snapshots()]
    reports an empty signature map for every entry. *)
Theorem history_never_signed {E : Ed25519} ch :
  reachable ch ->
  (forall st, In st (channel.history ch) -> channel.signatures st = [])
  /\ (forall snap,
        In snap (channel.history_snapshots ch) ->
        dict.get snap "signatures" = Some (pyobj.Dict [])).
Proof.
  intros R.
  destruct (reachable_coherent ch R)
    as (seq & a & b & da & db & sigs & ka & kb & G & Hp & Hst & Ra & Rb
        & Ha & Hb & Hseq & Hlen & Hhist & Hlast & Hsig).
  assert (H : forall st, In st (channel.history ch) -> channel.signatures st = []).
  { intros st Hin. apply In_nth_error in Hin. destruct Hin as [i Hi].
    destruct (Hhist i st Hi) as (a' & b' & da' & db' & ->).
    apply proven_state_fields. }
  split; [exact H|].
  intros snap Hin. unfold channel.history_snapshots in Hin.
  apply in_map_iff in Hin. destruct Hin as (st & <- & Hst').
  cbn [dict.get String.eqb Ascii.eqb Bool.eqb].
  rewrite (H st Hst'). reflexivity.
Qed.

Lemma history_never_signed_witness :
  channel.is_fully_signed toy_signed = true
  /\ (forall st, In st (channel.history toy_signed) -> channel.signatures st = [])
  /\ (forall snap,
        In snap (channel.history_snapshots toy_signed) ->
        dict.get snap "signatures" = Some (pyobj.Dict [])).
Proof.
  split; [reflexivity|].
  apply (history_never_signed (E := toy_ed25519) toy_signed).
  exact toy_signed_reachable.
Defined.

Section SignatureProperties.
Context {E : Ed25519}.

Lemma verify_signatures_loop_signed digest sigs items :
  channel.verify_signatures_loop digest sigs items = Ok true ->
  List.forallb (fun pid => dict.contains sigs pid) (dict.keys items) = true.
Proof.
  induction items as [|[pid participant] items IH];
    cbn [channel.verify_signatures_loop dict.keys List.map fst List.forallb];
    [reflexivity|].
  unfold dict.contains at 1.
  destruct (dict.get sigs pid) as [sg|]; [|discriminate].
  destruct (signing.VerifyKey_verify (channel.verify_key participant) digest sg)
    as [[|]|e]; cbn [rbind negb]; [|discriminate|discriminate].
  intros H. cbn [andb]. apply IH. exact H.
Qed.
End SignatureProperties.

(** X18: for every channel, [verify_signatures()] returning true implies
    that [is_fully_signed()] does. *)
Theorem verified_implies_fully_signed {E : Ed25519} (ch : channel.Channel) :
  channel.verify_signatures ch = Ok true -> channel.is_fully_signed ch = true.
Proof.
  unfold channel.verify_signatures, channel.is_fully_signed.
  apply verify_signatures_loop_signed.
Qed.

Lemma verified_implies_fully_signed_witness :
  channel.is_fully_signed toy_signed = true.
Proof.
  apply (verified_implies_fully_signed (E := toy_ed25519) toy_signed).
  vm_compute. reflexivity.
Defined.

Section SignatureInvariant.
Context {E : Ed25519}.
Context {EC : Ed25519Correct E}.

Lemma coherent_signature_valid ch pid sg :
  coherent ch ->
  dict.get (channel.signatures (channel.state ch)) pid = Some sg ->
  exists participant,
    dict.get (channel.participants ch) pid = Some participant
    /\ sg = signing.SigningKey_sign (channel.signing_key participant)
              (channel.state_digest ch)
    /\ signing.VerifyKey_verify (channel.verify_key participant)
         (channel.state_digest ch) sg = Ok true.
Proof.
  intros (seq & a & b & da & db & sigs & ka & kb & G & Hp & Hst & Ra & Rb
          & Ha & Hb & Hseq & Hlen & Hhist & Hlast & Hsig) Hg.
  pose proof (proven_state_fields (channel.params ch) (channel.channel_id ch)
                seq a b da db sigs) as (_ & _ & _ & _ & _ & F6).
  rewrite Hst, F6 in Hg.
  destruct (Hsig pid sg Hg) as (participant & Hpart & ->).
  exists participant. rewrite Hp. split; [exact Hpart|]. split; [reflexivity|].
  unfold channel.verify_key. apply sign_verify_key.
Qed.

Lemma coherent_fully_signed_verifies ch :
  coherent ch ->
  channel.is_fully_signed ch = true -> channel.verify_signatures ch = Ok true.
Proof.
  intros C. pose proof C as C0.
  destruct C as (seq & a & b & da & db & sigs & ka & kb & G & Hp & _).
  unfold channel.is_fully_signed, channel.verify_signatures.
  rewrite Hp. unfold two_party.
  cbn [dict.keys List.map fst List.forallb channel.verify_signatures_loop].
  unfold dict.contains.
  destruct (dict.get (channel.signatures (channel.state ch)) "alice") as [sa|] eqn:Ea;
    [|discriminate].
  destruct (dict.get (channel.signatures (channel.state ch)) "bob") as [sb|] eqn:Eb;
    [|discriminate].
  intros _.
  destruct (coherent_signature_valid ch "alice" sa C0 Ea) as (pa & Hpa & _ & Va).
  destruct (coherent_signature_valid ch "bob" sb C0 Eb) as (pb & Hpb & _ & Vb).
  rewrite Hp in Hpa, Hpb. unfold two_party in Hpa, Hpb.
  cbn [dict.get String.eqb Ascii.eqb Bool.eqb] in Hpa, Hpb.
  injection Hpa as <-. injection Hpb as <-.
  rewrite Va, Vb. reflexivity.
Qed.
End SignatureInvariant.

(** X19: every signature stored in a reachable channel is the
    participant's signature of the current state digest and verifies under
    their key; hence [is_fully_signed()] implies [verify_signatures()]
    (given that PyNaCl's signatures have 64 bytes and verify). *)
Theorem stored_signatures_verify {E : Ed25519} (EC : Ed25519Correct E) ch :
  reachable ch ->
  (forall pid sg,
     dict.get (channel.signatures (channel.state ch)) pid = Some sg ->
     exists participant,
       dict.get (channel.participants ch) pid = Some participant
       /\ sg = signing.SigningKey_sign (channel.signing_key participant)
                 (channel.state_digest ch)
       /\ signing.VerifyKey_verify (channel.verify_key participant)
            (channel.state_digest ch) sg = Ok true)
  /\ (channel.is_fully_signed ch = true -> channel.verify_signatures ch = Ok true).
Proof.
  intros R. pose proof (reachable_coherent ch R) as C. split.
  - intros pid sg. apply coherent_signature_valid. exact C.
  - apply coherent_fully_signed_verifies. exact C.
Qed.

Lemma stored_signatures_verify_witness :
  (forall pid sg,
     dict.get (channel.signatures (channel.state toy_signed)) pid = Some sg ->
     exists participant,
       dict.get (channel.participants toy_signed) pid = Some participant
       /\ sg = signing.SigningKey_sign (channel.signing_key participant)
                 (channel.state_digest toy_signed)
       /\ signing.VerifyKey_verify (channel.verify_key participant)
            (channel.state_digest toy_signed) sg = Ok true)
  /\ (channel.is_fully_signed toy_signed = true ->
      channel.verify_signatures toy_signed = Ok true).
Proof.
  apply (stored_signatures_verify (E := toy_ed25519) toy_ed25519_correct toy_signed).
  exact toy_signed_reachable.
Defined.

(** X15: a successful [apply_payment(payer, amount)] on a reachable
    channel takes [amount] from the payer's balance and adds it to the
    other participant's, raises the sequence number by one, appends the
    new state to the history and returns it; parameters, participants and
    identifier stay. *)
Theorem payment_moves_amount {E : Ed25519} ch w payer amount st ch' w' :
  reachable ch ->
  channel.apply_payment payer amount (ch, w) = (Ok st, (ch', w')) ->
  exists payee x y,
    channel._other payer = Ok payee
    /\ dict.get (channel.balances (channel.state ch)) payer = Some x
    /\ dict.get (channel.balances (channel.state ch)) payee = Some y
    /\ 0 < amount <= x
    /\ dict.get (channel.balances (channel.state ch')) payer = Some (x - amount)
    /\ dict.get (channel.balances (channel.state ch')) payee = Some (y + amount)
    /\ channel.sequence (channel.state ch')
       = channel.sequence (channel.state ch) + 1
    /\ channel.history ch' = channel.history ch ++ [st]
    /\ st = channel.state ch'
    /\ channel.participants ch' = channel.participants ch
    /\ channel.params ch' = channel.params ch
    /\ channel.channel_id ch' = channel.channel_id ch.
Proof.
  intros R H.
  destruct (reachable_coherent ch R)
    as (seq & a & b & da & db & sigs & ka & kb & G & Hp & Hst & Ra & Rb
        & Ha & Hb & Hseq & Hlen & Hhist & Hlast & Hsig).
  pose proof (proven_state_fields (channel.params ch) (channel.channel_id ch)
                seq a b da db sigs) as (F1 & F2 & _).
  destruct (apply_payment_ok _ _ _ _ _ _ _ H)
    as (payee & x & y & Hin & Hamt & Ho & Hx & Hy & Hbal & _ & Hs & Hh & Hpp & Hps
        & Hcid & ->).
  rewrite clone_id in Hh.
  assert (Hb0 : channel.balances (channel.state ch) = [("alice", a); ("bob", b)]).
  { rewrite Hst. exact F2. }
  rewrite Hb0 in Hx, Hy, Hbal. rewrite Hb0.
  rewrite Hp in Hin. unfold dict.contains, two_party in Hin. cbn [dict.get] in Hin.
  exists payee, x.
  unfold channel._other in Ho. cbn [dict.get] in Hx.
  destruct (String.eqb_spec payer "alice") as [->|Hna].
  - injection Ho as <-. injection Hx as <-.
    cbn in Hy. injection Hy as <-.
    exists b. rewrite Hbal. cbn.
    repeat split; try reflexivity; try assumption; lia.
  - destruct (String.eqb_spec payer "bob") as [->|Hnb]; [|discriminate].
    injection Ho as <-. injection Hx as <-.
    cbn in Hy. injection Hy as <-.
    exists a. rewrite Hbal. cbn.
    repeat split; try reflexivity; try assumption; lia.
Qed.

Lemma payment_moves_amount_witness :
  exists payee x y,
    channel._other "alice" = Ok payee
    /\ dict.get (channel.balances (channel.state toy_signed)) "alice" = Some x
    /\ dict.get (channel.balances (channel.state toy_signed)) payee = Some y
    /\ 0 < 25 <= x
    /\ dict.get (channel.balances (channel.state toy_paid)) "alice" = Some (x - 25)
    /\ dict.get (channel.balances (channel.state toy_paid)) payee = Some (y + 25)
    /\ channel.sequence (channel.state toy_paid)
       = channel.sequence (channel.state toy_signed) + 1
    /\ channel.history toy_paid
       = channel.history toy_signed ++ [channel.state toy_paid]
    /\ channel.state toy_paid = channel.state toy_paid
    /\ channel.participants toy_paid = channel.participants toy_signed
    /\ channel.params toy_paid = channel.params toy_signed
    /\ channel.channel_id toy_paid = channel.channel_id toy_signed.
Proof.
  apply (payment_moves_amount (E := toy_ed25519) toy_signed toy_world1 "alice" 25
           (channel.state toy_paid) toy_paid toy_world2).
  - exact toy_signed_reachable.
  - vm_compute. reflexivity.
Defined.

(** X20: on a reachable channel [sign_state] raises
    [InvalidParticipantError] for a name other than alice and bob and
    changes nothing; after alice and bob signed, in either order, the
    channel is fully signed and its signatures verify, while digest,
    sequence, balances and history are those before. *)
Theorem cosigning_completes {E : Ed25519} (EC : Ed25519Correct E) ch w
    first second :
  reachable ch ->
  first = "alice" /\ second = "bob" \/ first = "bob" /\ second = "alice" ->
  (forall pid,
     pid <> "alice" -> pid <> "bob" ->
     channel.sign_state pid (ch, w)
     = (Raise (InvalidParticipantError pid), (ch, w)))
  /\ exists sg1 ch1 sg2 ch2,
       channel.sign_state first (ch, w) = (Ok sg1, (ch1, w))
       /\ channel.sign_state second (ch1, w) = (Ok sg2, (ch2, w))
       /\ channel.is_fully_signed ch2 = true
       /\ channel.verify_signatures ch2 = Ok true
       /\ channel.state_digest ch2 = channel.state_digest ch
       /\ channel.sequence (channel.state ch2) = channel.sequence (channel.state ch)
       /\ channel.balances (channel.state ch2) = channel.balances (channel.state ch)
       /\ channel.history ch2 = channel.history ch.
Proof.
  intros R Horder.
  pose proof (reachable_coherent ch R) as C.
  destruct C as (seq & a & b & da & db & sigs & ka & kb & G & Hp & _).
  split.
  - intros pid Ha Hb. rewrite sign_state_eq, Hp. unfold two_party.
    cbn [dict.get].
    destruct (String.eqb_spec pid "alice"); [contradiction|].
    destruct (String.eqb_spec pid "bob"); [contradiction|]. reflexivity.
  - assert (H1 : exists p1, dict.get (channel.participants ch) first = Some p1).
    { rewrite Hp. destruct Horder as [[-> _]|[-> _]]; eexists; reflexivity. }
    destruct H1 as (p1 & H1).
    assert (H2 : exists p2, dict.get (channel.participants ch) second = Some p2).
    { rewrite Hp. destruct Horder as [[_ ->]|[_ ->]]; eexists; reflexivity. }
    destruct H2 as (p2 & H2).
    pose proof (sign_state_eq first ch w) as S1. rewrite H1 in S1. cbv zeta in S1.
    set (sg1 := signing.SigningKey_sign (channel.signing_key p1)
                  (channel.state_digest ch)) in *.
    set (ch1 := channel.map_state
                  (fun st => channel.with_signatures
                               (dict.set (channel.signatures st) first sg1) st) ch)
      in *.
    pose proof (sign_state_eq second ch1 w) as S2.
    change (channel.participants ch1) with (channel.participants ch) in S2.
    rewrite H2 in S2. cbv zeta in S2.
    set (sg2 := signing.SigningKey_sign (channel.signing_key p2)
                  (channel.state_digest ch1)) in *.
    set (ch2 := channel.map_state
                  (fun st => channel.with_signatures
                               (dict.set (channel.signatures st) second sg2) st) ch1)
      in *.
    exists sg1, ch1, sg2, ch2.
    split; [exact S1|]. split; [exact S2|].
    assert (R2 : reachable ch2).
    { eapply reach_sign; [|exact S2]. eapply reach_sign; [exact R|exact S1]. }
    assert (F : channel.is_fully_signed ch2 = true).
    { unfold channel.is_fully_signed.
      change (channel.participants ch2) with (channel.participants ch).
      rewrite Hp. unfold two_party.
      cbn [dict.keys List.map fst List.forallb]. unfold dict.contains.
      subst ch2 ch1.
      cbn [channel.map_state channel.state channel.with_signatures
           channel.signatures].
      rewrite !dict_get_set.
      destruct Horder as [[-> ->]|[-> ->]]; reflexivity. }
    split; [exact F|]. split.
    + apply (coherent_fully_signed_verifies ch2 (reachable_coherent ch2 R2) F).
    + repeat split; reflexivity.
Qed.

Lemma cosigning_completes_witness :
  (forall pid,
     pid <> "alice" -> pid <> "bob" ->
     channel.sign_state pid (toy_paid, toy_world2)
     = (Raise (InvalidParticipantError pid), (toy_paid, toy_world2)))
  /\ exists sg1 ch1 sg2 ch2,
       channel.sign_state "bob" (toy_paid, toy_world2) = (Ok sg1, (ch1, toy_world2))
       /\ channel.sign_state "alice" (ch1, toy_world2) = (Ok sg2, (ch2, toy_world2))
       /\ channel.is_fully_signed ch2 = true
       /\ channel.verify_signatures ch2 = Ok true
       /\ channel.state_digest ch2 = channel.state_digest toy_paid
       /\ channel.sequence (channel.state ch2)
          = channel.sequence (channel.state toy_paid)
       /\ channel.balances (channel.state ch2)
          = channel.balances (channel.state toy_paid)
       /\ channel.history ch2 = channel.history toy_paid.
Proof.
  apply (cosigning_completes (E := toy_ed25519) toy_ed25519_correct toy_paid
           toy_world2 "bob" "alice").
  - exact toy_paid_reachable.
  - right. split; reflexivity.
Defined.

Section OpenProperties.
Context {E : Ed25519}.

Lemma open_identity dA dB popt cid_opt keys w ch w' :
  channel.open dA dB popt cid_opt keys w = (Ok ch, w') ->
  match cid_opt with
  | Some (String c s) => channel.channel_id ch = String c s
  | _ => exists us, channel.fresh_uuids w = channel.channel_id ch :: us
  end
  /\ match keys with
     | Some ks => channel.participants ch = participants_of ks
     | None =>
         exists ka kb rest,
           channel.fresh_keys w = ka :: kb :: rest
           /\ channel.participants ch = two_party ka kb
     end.
Proof.
  intros H. unfold channel.open in H.
  destruct ((dA <? 0) || (dB <? 0)); [discriminate|].
  apply bind_inv_ok in H. destruct H as (ps & w1 & H1 & H).
  assert (w1 = w) as ->.
  { destruct popt; [injection H1 as _ <-; reflexivity|].
    unfold lift in H1. apply (f_equal snd) in H1. cbn [snd] in H1.
    symmetry. exact H1. }
  apply bind_inv_ok in H. destruct H as (cid & w2 & H2 & H).
  apply bind_inv_ok in H. destruct H as (ks & w3 & H3 & H).
  apply bind_inv_ok in H. destruct H as ([[cs os] prs] & w4 & _ & H).
  unfold ret in H. injection H as <- _.
  cbn [channel.Channel_init channel.channel_id channel.participants].
  split.
  - destruct cid_opt as [[|c s]|].
    + unfold channel.uuid4_str in H2.
      destruct (channel.fresh_uuids w) as [|u us]; [discriminate|].
      injection H2 as <- _. exists us. reflexivity.
    + injection H2 as <- _. reflexivity.
    + unfold channel.uuid4_str in H2.
      destruct (channel.fresh_uuids w) as [|u us]; [discriminate|].
      injection H2 as <- _. exists us. reflexivity.
  - destruct keys as [ks'|].
    + injection H3 as <- _. reflexivity.
    + assert (Hk : channel.fresh_keys w2 = channel.fresh_keys w).
      { destruct cid_opt as [[|c s]|].
        - unfold channel.uuid4_str in H2.
          destruct (channel.fresh_uuids w); [discriminate|].
          injection H2 as _ <-. reflexivity.
        - injection H2 as _ <-. reflexivity.
        - unfold channel.uuid4_str in H2.
          destruct (channel.fresh_uuids w); [discriminate|].
          injection H2 as _ <-. reflexivity. }
      apply bind_inv_ok in H3. destruct H3 as (ka & w5 & H5 & H3).
      apply bind_inv_ok in H3. destruct H3 as (kb & w6 & H6 & H3).
      unfold ret in H3. injection H3 as <- _.
      unfold channel.SigningKey_generate in H5, H6.
      rewrite Hk in H5.
      destruct (channel.fresh_keys w) as [|k1 rest1]; [discriminate|].
      injection H5 as <- <-. cbn [channel.fresh_keys] in H6.
      destruct rest1 as [|k2 rest2]; [discriminate|].
      injection H6 as <- _.
      exists k1, k2, rest2. split; reflexivity.
Qed.

End OpenProperties.



(** X12: a channel returned by [Channel.open] is at sequence 0 with the
    deposits as balances; it holds a commitment, an opening and a proof
    for alice and for bob, no signature, and a history of exactly its
    initial state; it runs on the supplied parameters or the default ones,
    under the supplied non-empty identifier or a fresh one, with the
    supplied keys or two fresh ones. *)
Theorem open_initial_state {E : Ed25519} dA dB popt cid_opt keys w ch w' :
  match popt with Some ps => subgroup_params ps | None => True end ->
  channel.open dA dB popt cid_opt keys w = (Ok ch, w') ->
  0 <= dA /\ 0 <= dB
  /\ channel.sequence (channel.state ch) = 0
  /\ channel.balances (channel.state ch) = [("alice", dA); ("bob", dB)]
  /\ dict.keys (channel.commitments (channel.state ch)) = ["alice"; "bob"]
  /\ dict.keys (channel.openings (channel.state ch)) = ["alice"; "bob"]
  /\ dict.keys (channel.proofs (channel.state ch)) = ["alice"; "bob"]
  /\ channel.signatures (channel.state ch) = []
  /\ channel.history ch = [channel.state ch]
  /\ match popt with
     | Some ps => channel.params ch = ps
     | None => pedersen.default_parameters = Ok (channel.params ch)
     end
  /\ match cid_opt with
     | Some (String c s) => channel.channel_id ch = String c s
     | _ => exists us, channel.fresh_uuids w = channel.channel_id ch :: us
     end
  /\ match keys with
     | Some ks => channel.participants ch = participants_of ks
     | None =>
         exists ka kb rest,
           channel.fresh_keys w = ka :: kb :: rest
           /\ channel.participants ch = two_party ka kb
     end.
Proof.
  intros G H.
  destruct (open_identity _ _ _ _ _ _ _ _ H) as (Hcid & Hkeys).
  apply (open_inv _ _ _ _ _ _ _ _ G) in H.
  destruct H as (ps & cid' & ks & da & db & Gps & Hps & Hks & HA & HB & Ra & Rb & ->).
  cbn [channel.Channel_init channel.params channel.participants channel.state
       channel.channel_id channel.history] in *.
  rewrite clone_id.
  pose proof (proven_state_fields ps cid' 0 dA dB da db [])
    as (F1 & F2 & F3 & F4 & F5 & F6).
  rewrite F1, F2, F3, F4, F5, F6.
  split; [exact HA|]. split; [exact HB|].
  repeat (split; [reflexivity|]).
  split; [|split; [exact Hcid|exact Hkeys]].
  destruct popt as [ps'|]; [exact Hps|].
  subst ps. exact default_parameters_eq.
Qed.

Lemma open_initial_state_witness :
  0 <= 200 /\ 0 <= 50
  /\ channel.sequence (channel.state toy_channel) = 0
  /\ channel.balances (channel.state toy_channel) = [("alice", 200); ("bob", 50)]
  /\ dict.keys (channel.commitments (channel.state toy_channel)) = ["alice"; "bob"]
  /\ dict.keys (channel.openings (channel.state toy_channel)) = ["alice"; "bob"]
  /\ dict.keys (channel.proofs (channel.state toy_channel)) = ["alice"; "bob"]
  /\ channel.signatures (channel.state toy_channel) = []
  /\ channel.history toy_channel = [channel.state toy_channel]
  /\ channel.params toy_channel = toy_params
  /\ (exists us, channel.fresh_uuids toy_world = channel.channel_id toy_channel :: us)
  /\ exists ka kb rest,
       channel.fresh_keys toy_world = ka :: kb :: rest
       /\ channel.participants toy_channel = two_party ka kb.
Proof.
  apply (open_initial_state (E := toy_ed25519) 200 50 (Some toy_params) None None
           toy_world toy_channel toy_world1).
  - constructor; reflexivity.
  - vm_compute. reflexivity.
Defined.

(* ===================================================================== *)
(** * The ledger *)

Section LedgerProperties.
Context {E : Ed25519}.

Lemma require_record_eq cid (l : ledger.SimulatedLedger) :
  ledger._require_record cid l
  = match dict.get (ledger._records l) cid with
    | Some record => (Ok record, l)
    | None => (Raise (UnknownChannelError cid), l)
    end.
Proof.
  unfold ledger._require_record. rewrite bind_eq. unfold get.
  unfold dict.contains, dict.getitem.
  destruct (dict.get (ledger._records l) cid); reflexivity.
Qed.

(** [cooperative_close] as one case analysis. *)
Lemma cooperative_close_eq payload (l : ledger.SimulatedLedger) :
  ledger.cooperative_close payload l
  = match pyobj.as_str (pyobj.get payload "channel_id") with
    | None =>
        (Raise (InvalidSettlementError "Missing channel_id in close payload"), l)
    | Some cid =>
        match dict.get (ledger._records l) cid with
        | None => (Raise (UnknownChannelError cid), l)
        | Some record =>
            if ledger.closed record
            then (Raise (InvalidSettlementError "Channel already settled"), l)
            else
              match pyobj.as_int (pyobj.get payload "sequence") with
              | None =>
                  (Raise (InvalidSettlementError
                            "Sequence mismatch during settlement"), l)
              | Some sequence' =>
                  if negb (sequence' =? ledger.sequence record)
                  then (Raise (InvalidSettlementError
                                 "Sequence mismatch during settlement"), l)
                  else
                    match pyobj.as_dict (pyobj.get payload "commitments"),
                          pyobj.as_dict (pyobj.get payload "openings"),
                          pyobj.as_dict (pyobj.get payload "balances") with
                    | Some commitments_hex, Some openings_hex, Some balances =>
                        match pyobj.as_dict (pyobj.get payload "signatures") with
                        | None =>
                            (Raise (InvalidSettlementError
                                      "Missing signatures in close payload"), l)
                        | Some signatures_hex =>
                            match pyobj.as_dict (pyobj.get payload "proofs") with
                            | None =>
                                (Raise (InvalidSettlementError
                                          "Missing proofs in close payload"), l)
                            | Some proofs_hex =>
                                match ledger.check_commitments record
                                        commitments_hex with
                                | Raise e => (Raise e, l)
                                | Ok _ =>
                                    match rfor_each (ledger.verify_keys record)
                                            (ledger.check_participant
                                               (ledger.params l) cid record
                                               (channel.compute_state_digest cid
                                                  (ledger.sequence record)
                                                  (ledger.commitments record))
                                               openings_hex balances
                                               signatures_hex proofs_hex) with
                                    | Raise e => (Raise e, l)
                                    | Ok _ =>
                                        (Ok [ ("channel_id", pyobj.Str cid);
                                              ("sequence",
                                                pyobj.Int (ledger.sequence record));
                                              ("settled_balances",
                                                pyobj.get payload "balances");
                                              ("verified", pyobj.Bool true) ],
                                         {| ledger.params := ledger.params l;
                                            ledger._records :=
                                              dict.set (ledger._records l) cid
                                                (ledger.with_closed true record) |})
                                    end
                                end
                            end
                        end
                    | _, _, _ =>
                        (Raise (InvalidSettlementError "Malformed close payload"), l)
                    end
              end
        end
    end.
Proof.
  unfold ledger.cooperative_close.
  destruct (pyobj.as_str (pyobj.get payload "channel_id")) as [cid|]; [|reflexivity].
  rewrite bind_eq, require_record_eq.
  destruct (dict.get (ledger._records l) cid) as [record|]; [|reflexivity].
  destruct (ledger.closed record); [reflexivity|].
  destruct (pyobj.as_int (pyobj.get payload "sequence")) as [s|]; [|reflexivity].
  destruct (negb (s =? ledger.sequence record)); [reflexivity|].
  destruct (pyobj.as_dict (pyobj.get payload "commitments")) as [ch|];
    [|reflexivity].
  destruct (pyobj.as_dict (pyobj.get payload "openings")) as [oh|];
    [|reflexivity].
  destruct (pyobj.as_dict (pyobj.get payload "balances")) as [bd|];
    [|reflexivity].
  destruct (pyobj.as_dict (pyobj.get payload "signatures")) as [sh|];
    [|reflexivity].
  destruct (pyobj.as_dict (pyobj.get payload "proofs")) as [ph|];
    [|reflexivity].
  rewrite bind_eq. unfold lift at 1.
  destruct (ledger.check_commitments record ch) as [[]|e]; [|reflexivity].
  rewrite bind_eq. unfold get at 1. rewrite bind_eq. unfold lift at 1.
  destruct (rfor_each (ledger.verify_keys record) _) as [[]|e]; [|reflexivity].
  rewrite bind_eq. reflexivity.
Qed.
End LedgerProperties.

(** X25: [cooperative_close] leaves the ledger unchanged whenever it
    raises; when it returns it has only set the closed flag of the record
    of the payload's channel, which was open and at the payload's
    sequence, and the result reports the payload's own balances. *)
Theorem cooperative_close_atomic {E : Ed25519} payload l r l' :
  ledger.cooperative_close payload l = (r, l') ->
  match r with
  | Raise _ => l' = l
  | Ok res =>
      exists cid record,
        pyobj.as_str (pyobj.get payload "channel_id") = Some cid
        /\ dict.get (ledger._records l) cid = Some record
        /\ ledger.closed record = false
        /\ pyobj.as_int (pyobj.get payload "sequence")
           = Some (ledger.sequence record)
        /\ ledger.params l' = ledger.params l
        /\ ledger._records l'
           = dict.set (ledger._records l) cid (ledger.with_closed true record)
        /\ res = [ ("channel_id", pyobj.Str cid);
                   ("sequence", pyobj.Int (ledger.sequence record));
                   ("settled_balances", pyobj.get payload "balances");
                   ("verified", pyobj.Bool true) ]
  end.
Proof.
  rewrite cooperative_close_eq.
  destruct (pyobj.as_str (pyobj.get payload "channel_id")) as [cid|].
  2:{ intros H. injection H as <- <-. reflexivity. }
  destruct (dict.get (ledger._records l) cid) as [record|] eqn:Er.
  2:{ intros H. injection H as <- <-. reflexivity. }
  destruct (ledger.closed record) eqn:Ec.
  { intros H. injection H as <- <-. reflexivity. }
  destruct (pyobj.as_int (pyobj.get payload "sequence")) as [s|].
  2:{ intros H. injection H as <- <-. reflexivity. }
  destruct (Z.eqb_spec s (ledger.sequence record)) as [->|]; cbn [negb].
  2:{ intros H. injection H as <- <-. reflexivity. }
  destruct (pyobj.as_dict (pyobj.get payload "commitments")) as [ch|].
  2:{ intros H. injection H as <- <-. reflexivity. }
  destruct (pyobj.as_dict (pyobj.get payload "openings")) as [oh|].
  2:{ intros H. injection H as <- <-. reflexivity. }
  destruct (pyobj.as_dict (pyobj.get payload "balances")) as [bd|].
  2:{ intros H. injection H as <- <-. reflexivity. }
  destruct (pyobj.as_dict (pyobj.get payload "signatures")) as [sh|].
  2:{ intros H. injection H as <- <-. reflexivity. }
  destruct (pyobj.as_dict (pyobj.get payload "proofs")) as [ph|].
  2:{ intros H. injection H as <- <-. reflexivity. }
  destruct (ledger.check_commitments record ch) as [[]|e].
  2:{ intros H. injection H as <- <-. reflexivity. }
  destruct (rfor_each (ledger.verify_keys record) _) as [[]|e].
  2:{ intros H. injection H as <- <-. reflexivity. }
  intros H. injection H as <- <-.
  exists cid, record. repeat split; reflexivity || assumption.
Qed.

(** X24: the checks of [cooperative_close] that precede the
    cryptography, in their order: a payload without a string [channel_id],
    an unknown channel ([UnknownChannelError]), a closed record (whatever
    else the payload holds), and, past the sequence test, a payload that
    lacks the commitments, openings or balances dictionary, then the
    signatures dictionary, then the proofs dictionary; the ledger is
    unchanged in each case. *)
Theorem cooperative_close_preconditions {E : Ed25519} payload
    (l : ledger.SimulatedLedger) :
  (pyobj.as_str (pyobj.get payload "channel_id") = None ->
   ledger.cooperative_close payload l
   = (Raise (InvalidSettlementError "Missing channel_id in close payload"), l))
  /\ forall cid,
       pyobj.as_str (pyobj.get payload "channel_id") = Some cid ->
       (dict.get (ledger._records l) cid = None ->
        ledger.cooperative_close payload l = (Raise (UnknownChannelError cid), l))
       /\ forall record,
            dict.get (ledger._records l) cid = Some record ->
            (ledger.closed record = true ->
             ledger.cooperative_close payload l
             = (Raise (InvalidSettlementError "Channel already settled"), l))
            /\ (ledger.closed record = false ->
                pyobj.as_int (pyobj.get payload "sequence")
                = Some (ledger.sequence record) ->
                (pyobj.as_dict (pyobj.get payload "commitments") = None
                 \/ pyobj.as_dict (pyobj.get payload "openings") = None
                 \/ pyobj.as_dict (pyobj.get payload "balances") = None ->
                 ledger.cooperative_close payload l
                 = (Raise (InvalidSettlementError "Malformed close payload"), l))
                /\ (pyobj.as_dict (pyobj.get payload "commitments") <> None ->
                    pyobj.as_dict (pyobj.get payload "openings") <> None ->
                    pyobj.as_dict (pyobj.get payload "balances") <> None ->
                    (pyobj.as_dict (pyobj.get payload "signatures") = None ->
                     ledger.cooperative_close payload l
                     = (Raise (InvalidSettlementError
                                 "Missing signatures in close payload"), l))
                    /\ (pyobj.as_dict (pyobj.get payload "signatures") <> None ->
                        pyobj.as_dict (pyobj.get payload "proofs") = None ->
                        ledger.cooperative_close payload l
                        = (Raise (InvalidSettlementError
                                    "Missing proofs in close payload"), l)))).
Proof.
  rewrite cooperative_close_eq. split.
  - intros ->. reflexivity.
  - intros cid ->. split.
    + intros ->. reflexivity.
    + intros record ->. split.
      * intros ->. reflexivity.
      * intros -> ->. rewrite Z.eqb_refl. cbn [negb]. split.
        -- intros [-> | [-> | ->]].
           ++ reflexivity.
           ++ destruct (pyobj.as_dict (pyobj.get payload "commitments"));
                reflexivity.
           ++ destruct (pyobj.as_dict (pyobj.get payload "commitments"));
                [|reflexivity].
              destruct (pyobj.as_dict (pyobj.get payload "openings"));
                reflexivity.
        -- intros Hc Ho Hb.
           destruct (pyobj.as_dict (pyobj.get payload "commitments"));
             [|contradiction].
           destruct (pyobj.as_dict (pyobj.get payload "openings"));
             [|contradiction].
           destruct (pyobj.as_dict (pyobj.get payload "balances"));
             [|contradiction].
           split.
           ++ intros ->. reflexivity.
           ++ intros Hs ->.
              destruct (pyobj.as_dict (pyobj.get payload "signatures"));
                [reflexivity|contradiction].
Qed.

Section LedgerProperties2.
Context {E : Ed25519}.

Lemma copy_commitments (cs : dict.t pedersen.Commitment) :
  dict.map_values (fun c => {| pedersen.value := pedersen.value c |}) cs = cs.
Proof.
  unfold dict.map_values.
  induction cs as [|[k [v]] cs IH]; [reflexivity|cbn; rewrite IH; reflexivity].
Qed.
End LedgerProperties2.

(** X22: [register_channel] always succeeds: it binds the channel's
    identifier to an open record of its sequence number, commitments and
    verify keys, replacing whatever record was there (a closed one
    included), and leaves the other records; the ledger then tracks the
    channel when it runs on the channel's parameters. *)
Theorem register_channel_resets {E : Ed25519} ch (l : ledger.SimulatedLedger) :
  exists l',
    ledger.register_channel ch l = (Ok tt, l')
    /\ ledger.params l' = ledger.params l
    /\ dict.get (ledger._records l') (channel.channel_id ch)
       = Some {| ledger.channel_id := channel.channel_id ch;
                 ledger.sequence := channel.sequence (channel.state ch);
                 ledger.commitments := channel.commitments (channel.state ch);
                 ledger.verify_keys :=
                   dict.map_values channel.verify_key (channel.participants ch);
                 ledger.closed := false |}
    /\ (forall cid,
          cid <> channel.channel_id ch ->
          dict.get (ledger._records l') cid = dict.get (ledger._records l) cid)
    /\ (ledger.params l = channel.params ch -> tracks l' ch).
Proof.
  unfold ledger.register_channel, ledger.set_records, modify.
  eexists. split; [reflexivity|].
  cbn [ledger.params ledger._records].
  rewrite copy_commitments.
  split; [reflexivity|]. split; [|split].
  - rewrite dict_get_set, String.eqb_refl. reflexivity.
  - intros cid Hne. rewrite dict_get_set.
    destruct (String.eqb_spec cid (channel.channel_id ch)); [contradiction|].
    reflexivity.
  - intros Hps. split; [exact Hps|].
    cbn [ledger._records].
    eexists. split; [rewrite dict_get_set, String.eqb_refl; reflexivity|].
    repeat split; reflexivity.
Qed.

(** X23: [update_state] raises [UnknownChannelError] for a channel that
    is not registered and [InvalidSettlementError] when the channel's
    sequence is below the recorded one, changing nothing; otherwise it
    replaces the sequence and the commitments of the record and keeps its
    verify keys and its closed flag, so that a closed record stays
    closed. *)
Theorem update_state_behaviour {E : Ed25519} ch (l : ledger.SimulatedLedger) :
  (dict.get (ledger._records l) (channel.channel_id ch) = None ->
   ledger.update_state ch l
   = (Raise (UnknownChannelError (channel.channel_id ch)), l))
  /\ forall record,
       dict.get (ledger._records l) (channel.channel_id ch) = Some record ->
       (channel.sequence (channel.state ch) < ledger.sequence record ->
        ledger.update_state ch l
        = (Raise (InvalidSettlementError
                    "Channel sequence regressed; refusing to update"), l))
       /\ (ledger.sequence record <= channel.sequence (channel.state ch) ->
           exists l',
             ledger.update_state ch l = (Ok tt, l')
             /\ ledger.params l' = ledger.params l
             /\ dict.get (ledger._records l') (channel.channel_id ch)
                = Some {| ledger.channel_id := ledger.channel_id record;
                          ledger.sequence := channel.sequence (channel.state ch);
                          ledger.commitments :=
                            channel.commitments (channel.state ch);
                          ledger.verify_keys := ledger.verify_keys record;
                          ledger.closed := ledger.closed record |}
             /\ forall cid,
                  cid <> channel.channel_id ch ->
                  dict.get (ledger._records l') cid
                  = dict.get (ledger._records l) cid).
Proof.
  unfold ledger.update_state. rewrite bind_eq, require_record_eq. split.
  - intros ->. reflexivity.
  - intros record ->. split.
    + intros H. destruct (Z.ltb_spec (channel.sequence (channel.state ch))
                            (ledger.sequence record)); [reflexivity|lia].
    + intros H. destruct (Z.ltb_spec (channel.sequence (channel.state ch))
                            (ledger.sequence record)); [lia|].
      unfold ledger.set_records, modify.
      eexists. split; [reflexivity|].
      cbn [ledger.params ledger._records ledger.with_tracked_state].
      rewrite copy_commitments.
      split; [reflexivity|]. split.
      * rewrite dict_get_set, String.eqb_refl. reflexivity.
      * intros cid Hne. rewrite dict_get_set.
        destruct (String.eqb_spec cid (channel.channel_id ch)); [contradiction|].
        reflexivity.
Qed.

Section Settling.
Context {E : Ed25519}.

Lemma rfor_each_ok {A} (xs : list A) (body : A -> result unit) :
  (forall x, In x xs -> body x = Ok tt) -> rfor_each xs body = Ok tt.
Proof.
  induction xs as [|x xs IH]; intros H; cbn [rfor_each]; [reflexivity|].
  rewrite (H x (or_introl eq_refl)). cbn [rbind].
  apply IH. intros y Hy. apply H. right. exact Hy.
Qed.

Lemma rfor_each_inv {A} (xs : list A) (body : A -> result unit) u :
  rfor_each xs body = Ok u -> forall x, In x xs -> body x = Ok tt.
Proof.
  induction xs as [|x xs IH]; intros H y Hy; [destruct Hy|].
  cbn [rfor_each] in H.
  destruct (body x) as [[]|e] eqn:Eb; cbn [rbind] in H; [|discriminate].
  destruct Hy as [<-|Hy]; [exact Eb|]. apply IH; assumption.
Qed.

Lemma close_accepts payload (l : ledger.SimulatedLedger) cid record
    commitments_hex openings_hex balances signatures_hex proofs_hex :
  pyobj.as_str (pyobj.get payload "channel_id") = Some cid ->
  dict.get (ledger._records l) cid = Some record ->
  ledger.closed record = false ->
  pyobj.as_int (pyobj.get payload "sequence") = Some (ledger.sequence record) ->
  pyobj.as_dict (pyobj.get payload "commitments") = Some commitments_hex ->
  pyobj.as_dict (pyobj.get payload "openings") = Some openings_hex ->
  pyobj.as_dict (pyobj.get payload "balances") = Some balances ->
  pyobj.as_dict (pyobj.get payload "signatures") = Some signatures_hex ->
  pyobj.as_dict (pyobj.get payload "proofs") = Some proofs_hex ->
  ledger.check_commitments record commitments_hex = Ok tt ->
  rfor_each (ledger.verify_keys record)
    (ledger.check_participant (ledger.params l) cid record
       (channel.compute_state_digest cid (ledger.sequence record)
          (ledger.commitments record))
       openings_hex balances signatures_hex proofs_hex) = Ok tt ->
  ledger.cooperative_close payload l
  = (Ok [ ("channel_id", pyobj.Str cid);
          ("sequence", pyobj.Int (ledger.sequence record));
          ("settled_balances", pyobj.get payload "balances");
          ("verified", pyobj.Bool true) ],
     {| ledger.params := ledger.params l;
        ledger._records :=
          dict.set (ledger._records l) cid (ledger.with_closed true record) |}).
Proof.
  intros H1 H2 H3 H4 H5 H6 H7 H8 H9 H10 H11.
  rewrite cooperative_close_eq, H1, H2, H3, H4, Z.eqb_refl.
  cbn [negb]. rewrite H5, H6, H7, H8, H9, H10, H11. reflexivity.
Qed.

Lemma check_participant_accepts ps cid (record : ledger.LedgerRecord) digest
    openings_hex balances signatures_hex proofs_hex pid vk sg r bal c pr :
  pyobj.get signatures_hex pid = pyobj.Str (signing.Signature_to_hex sg) ->
  signing.VerifyKey_verify vk digest sg = Ok true ->
  pyobj.get openings_hex pid
  = pyobj.Str (pedersen.serialize_opening {| pedersen.randomness := r |}) ->
  pyobj.as_int (pyobj.get balances pid) = Some bal ->
  dict.get (ledger.commitments record) pid = Some c ->
  pedersen.verify ps c bal {| pedersen.randomness := r |} = Ok true ->
  pyobj.get proofs_hex pid = channel.proof_object pr ->
  pedersen.verify_opening_proof ps c pr
    (channel.proof_context cid (ledger.sequence record) pid) = Ok true ->
  ledger.check_participant ps cid record digest openings_hex balances
    signatures_hex proofs_hex (pid, vk) = Ok tt.
Proof.
  intros Hs Hv Ho Hb Hc Hver Hp Hpv.
  unfold ledger.check_participant. cbn [fst snd].
  rewrite Hs. cbn [pyobj.is_none].
  rewrite signature_roundtrip. cbn [rbind]. rewrite Hv. cbn [negb].
  rewrite Ho, Hb. cbn [pyobj.is_none].
  unfold pedersen.int16_of at 1. cbn [pyobj.as_str].
  unfold pedersen.serialize_opening. cbn [pedersen.randomness].
  rewrite int16_format_x_all. cbn [rbind].
  unfold dict.getitem. rewrite Hc. cbn [rbind]. rewrite Hver. cbn [rbind negb].
  rewrite Hp. unfold channel.proof_object. cbn [pyobj.as_dict].
  rewrite proof_serialization_round_trip_aux. cbn [rbind].
  rewrite Hpv. reflexivity.
Qed.
End Settling.

Section Settling2.
Context {E : Ed25519}.
Context {EC : Ed25519Correct E}.

(** The closing payload of a co-signed channel whose balances and
    openings were replaced, submitted to a ledger that tracks the channel:
    it settles as soon as the replaced openings open the commitments. *)
Lemma close_doctored ch (l : ledger.SimulatedLedger) bal1 bal2 r1 r2 c1 c2 :
  coherent ch ->
  channel.is_fully_signed ch = true ->
  tracks l ch ->
  channel.commitments (channel.state ch) = [("alice", c1); ("bob", c2)] ->
  pedersen.verify (channel.params ch) c1 bal1 {| pedersen.randomness := r1 |}
  = Ok true ->
  pedersen.verify (channel.params ch) c2 bal2 {| pedersen.randomness := r2 |}
  = Ok true ->
  exists record,
    dict.get (ledger._records l) (channel.channel_id ch) = Some record
    /\ ledger.cooperative_close
         (channel.closing_payload
            (channel.map_state
               (fun st =>
                  channel.with_openings
                    [("alice", {| pedersen.randomness := r1 |});
                     ("bob", {| pedersen.randomness := r2 |})]
                    (channel.with_balances [("alice", bal1); ("bob", bal2)] st))
               ch)) l
       = (Ok [ ("channel_id", pyobj.Str (channel.channel_id ch));
               ("sequence", pyobj.Int (channel.sequence (channel.state ch)));
               ("settled_balances",
                 pyobj.Dict [("alice", pyobj.Int bal1); ("bob", pyobj.Int bal2)]);
               ("verified", pyobj.Bool true) ],
          {| ledger.params := ledger.params l;
             ledger._records :=
               dict.set (ledger._records l) (channel.channel_id ch)
                 (ledger.with_closed true record) |}).
Proof.
  intros C F (Hps & record & Hrec & Hseq & Hcom & Hkeys & Hclosed) Hcs V1 V2.
  exists record. split; [exact Hrec|].
  pose proof C as C0.
  destruct C as (seq & a & b & da & db & sigs & ka & kb & G & Hp & Hst & Ra & Rb
                 & Ha & Hb & Hsq & Hlen & Hhist & Hlast & Hsig).
  pose proof (proven_state_fields (channel.params ch) (channel.channel_id ch)
                seq a b da db sigs) as (F1 & F2 & F3 & F4 & F5 & F6).
  (* the two signatures *)
  unfold channel.is_fully_signed in F. rewrite Hp in F. unfold two_party in F.
  cbn [dict.keys List.map fst List.forallb] in F. unfold dict.contains in F.
  destruct (dict.get (channel.signatures (channel.state ch)) "alice") as [sa|] eqn:Ea;
    [|discriminate].
  destruct (dict.get (channel.signatures (channel.state ch)) "bob") as [sb|] eqn:Eb;
    [|discriminate].
  clear F.
  destruct (coherent_signature_valid ch "alice" sa C0 Ea) as (pa & Hpa & _ & Va).
  destruct (coherent_signature_valid ch "bob" sb C0 Eb) as (pb & Hpb & _ & Vb).
  rewrite Hp in Hpa, Hpb. unfold two_party in Hpa, Hpb.
  cbn [dict.get String.eqb Ascii.eqb Bool.eqb] in Hpa, Hpb.
  injection Hpa as <-. injection Hpb as <-.
  (* the proofs *)
  assert (Hprs : channel.proofs (channel.state ch)
                 = [("alice", slot_proof (channel.params ch) (channel.channel_id ch)
                                seq "alice" a (fst (fst da)) (snd (fst da)) (snd da));
                    ("bob", slot_proof (channel.params ch) (channel.channel_id ch)
                              seq "bob" b (fst (fst db)) (snd (fst db)) (snd db))]).
  { rewrite Hst. exact F5. }
  assert (Hcs' : c1 = slot_commitment (channel.params ch) a (fst (fst da))
                 /\ c2 = slot_commitment (channel.params ch) b (fst (fst db))).
  { rewrite Hst, F3 in Hcs. injection Hcs as <- <-. split; reflexivity. }
  destruct Hcs' as [Hc1 Hc2].
  assert (Hsq' : channel.sequence (channel.state ch) = seq).
  { rewrite Hst. exact F1. }
  set (sigs_hex := dict.map_values
                     (fun sg => pyobj.Str (signing.Signature_to_hex sg))
                     (channel.signatures (channel.state ch))).
  assert (Hga : pyobj.get sigs_hex "alice" = pyobj.Str (signing.Signature_to_hex sa)).
  { subst sigs_hex. unfold pyobj.get.
    rewrite (dict_get_map_values _ _ _ _ Ea). reflexivity. }
  assert (Hgb : pyobj.get sigs_hex "bob" = pyobj.Str (signing.Signature_to_hex sb)).
  { subst sigs_hex. unfold pyobj.get.
    rewrite (dict_get_map_values _ _ _ _ Eb). reflexivity. }
  assert (Hdig : channel.compute_state_digest (channel.channel_id ch)
                   (ledger.sequence record) (ledger.commitments record)
                 = channel.state_digest ch).
  { unfold channel.state_digest. rewrite Hseq, Hcom. reflexivity. }
  set (payload :=
         channel.closing_payload
           (channel.map_state
              (fun st =>
                 channel.with_openings
                   [("alice", {| pedersen.randomness := r1 |});
                    ("bob", {| pedersen.randomness := r2 |})]
                   (channel.with_balances [("alice", bal1); ("bob", bal2)] st))
              ch)).
  rewrite (close_accepts payload l (channel.channel_id ch) record
            (dict.map_values
               (fun c => pyobj.Str (pedersen.serialize_commitment c))
               (channel.commitments (channel.state ch)))
            (dict.map_values
               (fun o => pyobj.Str (pedersen.serialize_opening o))
               [("alice", {| pedersen.randomness := r1 |});
                ("bob", {| pedersen.randomness := r2 |})])
            [("alice", pyobj.Int bal1); ("bob", pyobj.Int bal2)]
            sigs_hex
            (dict.map_values channel.proof_object
               (channel.proofs (channel.state ch)))).
  - rewrite Hseq. reflexivity.
  - reflexivity.
  - exact Hrec.
  - exact Hclosed.
  - cbn. rewrite Hseq. reflexivity.
  - reflexivity.
  - reflexivity.
  - reflexivity.
  - reflexivity.
  - reflexivity.
  - unfold ledger.check_commitments. rewrite Hcom, Hcs.
    cbn [rfor_each dict.map_values List.map fst snd pyobj.get dict.get
         String.eqb Ascii.eqb Bool.eqb pyobj.ne_str rbind].
    rewrite !String.eqb_refl. reflexivity.
  - rewrite Hdig, Hkeys, Hp. unfold two_party.
    cbn [dict.map_values List.map fst snd rfor_each].
    rewrite Hps.
    rewrite (check_participant_accepts (channel.params ch) (channel.channel_id ch)
               record (channel.state_digest ch) _ _ sigs_hex _ "alice" _ sa r1 bal1
               c1 (slot_proof (channel.params ch) (channel.channel_id ch)
                     seq "alice" a (fst (fst da)) (snd (fst da)) (snd da))).
    + cbn [rbind].
      rewrite (check_participant_accepts (channel.params ch) (channel.channel_id ch)
                 record (channel.state_digest ch) _ _ sigs_hex _ "bob" _ sb r2 bal2
                 c2 (slot_proof (channel.params ch) (channel.channel_id ch)
                       seq "bob" b (fst (fst db)) (snd (fst db)) (snd db))).
      * reflexivity.
      * exact Hgb.
      * exact Vb.
      * reflexivity.
      * reflexivity.
      * rewrite Hcom, Hcs. reflexivity.
      * exact V2.
      * rewrite Hprs. reflexivity.
      * rewrite Hseq, Hsq', Hc2. unfold slot_proof, slot_commitment, slot_opening.
        apply (proof_for_accepted _ G).
    + exact Hga.
    + exact Va.
    + reflexivity.
    + reflexivity.
    + rewrite Hcom, Hcs. reflexivity.
    + exact V1.
    + rewrite Hprs. reflexivity.
    + rewrite Hseq, Hsq', Hc1. unfold slot_proof, slot_commitment, slot_opening.
      apply (proof_for_accepted _ G).
Qed.
End Settling2.

Lemma toy_cosigned_reachable : reachable toy_cosigned.
Proof.
  eapply (reach_sign (E := toy_ed25519) _ toy_world2 "bob").
  - eapply (reach_sign (E := toy_ed25519) _ toy_world2 "alice").
    + exact toy_paid_reachable.
    + vm_compute. reflexivity.
  - vm_compute. reflexivity.
Qed.

Lemma toy_ledger_tracks : tracks toy_ledger toy_cosigned.
Proof.
  split; [reflexivity|]. exists toy_record.
  repeat split; vm_compute; reflexivity.
Qed.

Section Settling3.
Context {E : Ed25519}.
Context {EC : Ed25519Correct E}.

Lemma closed_rejects payload (l : ledger.SimulatedLedger) cid record :
  pyobj.as_str (pyobj.get payload "channel_id") = Some cid ->
  ledger.cooperative_close payload
    {| ledger.params := ledger.params l;
       ledger._records :=
         dict.set (ledger._records l) cid (ledger.with_closed true record) |}
  = (Raise (InvalidSettlementError "Channel already settled"),
     {| ledger.params := ledger.params l;
        ledger._records :=
          dict.set (ledger._records l) cid (ledger.with_closed true record) |}).
Proof.
  intros H. rewrite cooperative_close_eq, H. cbn [ledger._records].
  rewrite dict_get_set, String.eqb_refl. reflexivity.
Qed.

Lemma tracked_settles ch (l : ledger.SimulatedLedger) :
  coherent ch ->
  channel.is_fully_signed ch = true ->
  tracks l ch ->
  exists record l',
    dict.get (ledger._records l) (channel.channel_id ch) = Some record
    /\ ledger.cooperative_close (channel.closing_payload ch) l
       = (Ok [ ("channel_id", pyobj.Str (channel.channel_id ch));
               ("sequence", pyobj.Int (channel.sequence (channel.state ch)));
               ("settled_balances",
                 pyobj.Dict (dict.map_values pyobj.Int
                               (channel.balances (channel.state ch))));
               ("verified", pyobj.Bool true) ], l')
    /\ ledger.params l' = ledger.params l
    /\ ledger._records l'
       = dict.set (ledger._records l) (channel.channel_id ch)
           (ledger.with_closed true record)
    /\ ledger.cooperative_close (channel.closing_payload ch) l'
       = (Raise (InvalidSettlementError "Channel already settled"), l').
Proof.
  intros C F T. pose proof C as C0.
  destruct C as (seq & a & b & da & db & sigs & ka & kb & G & Hp & Hst & Ra & Rb
                 & Ha & Hb & Hsq & Hlen & Hhist & Hlast & Hsig).
  pose proof (proven_state_fields (channel.params ch) (channel.channel_id ch)
                seq a b da db sigs) as (F1 & F2 & F3 & F4 & F5 & F6).
  assert (Hbal : channel.balances (channel.state ch) = [("alice", a); ("bob", b)]).
  { rewrite Hst. exact F2. }
  assert (Hcs : channel.commitments (channel.state ch)
                = [("alice", slot_commitment (channel.params ch) a (fst (fst da)));
                   ("bob", slot_commitment (channel.params ch) b (fst (fst db)))]).
  { rewrite Hst. exact F3. }
  assert (Hos : channel.openings (channel.state ch)
                = [("alice", slot_opening (fst (fst da)));
                   ("bob", slot_opening (fst (fst db)))]).
  { rewrite Hst. exact F4. }
  destruct (close_doctored ch l a b (fst (fst da)) (fst (fst db)) _ _ C0 F T Hcs)
    as (record & Hrec & Hclose).
  { unfold slot_commitment. rewrite (verify_cval _ G), Z.eqb_refl. reflexivity. }
  { unfold slot_commitment. rewrite (verify_cval _ G), Z.eqb_refl. reflexivity. }
  exists record. eexists. split; [exact Hrec|].
  assert (Hpay : channel.closing_payload
                   (channel.map_state
                      (fun st =>
                         channel.with_openings
                           [("alice", {| pedersen.randomness := fst (fst da) |});
                            ("bob", {| pedersen.randomness := fst (fst db) |})]
                           (channel.with_balances [("alice", a); ("bob", b)] st))
                      ch)
                 = channel.closing_payload ch).
  { unfold channel.closing_payload.
    cbn [channel.map_state channel.state channel.channel_id channel.with_openings
         channel.with_balances channel.sequence channel.balances
         channel.commitments channel.openings channel.proofs channel.signatures].
    rewrite Hbal, Hos. reflexivity. }
  rewrite Hpay in Hclose. rewrite Hbal. cbn [dict.map_values List.map fst snd].
  split; [exact Hclose|]. split; [reflexivity|]. split; [reflexivity|].
  apply closed_rejects. reflexivity.
Qed.
End Settling3.

(** X28: for every reachable channel that is fully signed and tracked
    by the ledger, [cooperative_close] on its closing payload returns the
    channel's balances at its sequence number with verified true, and a
    second submission raises 'Channel already settled' (given that
    PyNaCl's signatures have 64 bytes and verify). *)
Theorem tracked_channel_settles {E : Ed25519} (EC : Ed25519Correct E) ch l :
  reachable ch ->
  channel.is_fully_signed ch = true ->
  tracks l ch ->
  exists l',
    ledger.cooperative_close (channel.closing_payload ch) l
    = (Ok [ ("channel_id", pyobj.Str (channel.channel_id ch));
            ("sequence", pyobj.Int (channel.sequence (channel.state ch)));
            ("settled_balances",
              pyobj.Dict (dict.map_values pyobj.Int
                            (channel.balances (channel.state ch))));
            ("verified", pyobj.Bool true) ], l')
    /\ ledger.cooperative_close (channel.closing_payload ch) l'
       = (Raise (InvalidSettlementError "Channel already settled"), l').
Proof.
  intros R F T.
  destruct (tracked_settles ch l (reachable_coherent ch R) F T)
    as (record & l' & _ & H1 & _ & _ & H2).
  exists l'. split; assumption.
Qed.

Lemma tracked_channel_settles_witness :
  exists l',
    ledger.cooperative_close (channel.closing_payload toy_cosigned) toy_ledger
    = (Ok [ ("channel_id", pyobj.Str (channel.channel_id toy_cosigned));
            ("sequence", pyobj.Int (channel.sequence (channel.state toy_cosigned)));
            ("settled_balances",
              pyobj.Dict (dict.map_values pyobj.Int
                            (channel.balances (channel.state toy_cosigned))));
            ("verified", pyobj.Bool true) ], l')
    /\ ledger.cooperative_close (channel.closing_payload toy_cosigned) l'
       = (Raise (InvalidSettlementError "Channel already settled"), l').
Proof.
  apply (tracked_channel_settles (E := toy_ed25519) toy_ed25519_correct
           toy_cosigned toy_ledger).
  - exact toy_cosigned_reachable.
  - reflexivity.
  - exact toy_ledger_tracks.
Defined.

(** X27: if the ledger tracks a channel (holds an open record of its
    current sequence, commitments and keys), then after every successful
    payment [update_state] succeeds and the ledger tracks the new state,
    and signing keeps the channel tracked. *)
Theorem tracking_is_maintained {E : Ed25519} (l : ledger.SimulatedLedger) ch :
  tracks l ch ->
  (forall payer amount w st ch' w',
     channel.apply_payment payer amount (ch, w) = (Ok st, (ch', w')) ->
     exists l', ledger.update_state ch' l = (Ok tt, l') /\ tracks l' ch')
  /\ (forall pid w sg ch' w',
        channel.sign_state pid (ch, w) = (Ok sg, (ch', w')) -> tracks l ch').
Proof.
  intros (Hps & record & Hrec & Hseq & Hcom & Hkeys & Hclosed). split.
  - intros payer amount w st ch' w' H.
    destruct (apply_payment_ok _ _ _ _ _ _ _ H)
      as (payee & x & y & _ & _ & _ & _ & _ & _ & _ & Hs & _ & Hpp & Hpr & Hcid & _).
    unfold ledger.update_state. rewrite bind_eq, require_record_eq, Hcid, Hrec.
    destruct (Z.ltb_spec (channel.sequence (channel.state ch'))
                (ledger.sequence record)) as [Hlt|_]; [lia|].
    unfold ledger.set_records, modify. eexists. split; [reflexivity|].
    split; [cbn [ledger.params]; congruence|].
    cbn [ledger._records]. rewrite Hcid.
    eexists. split; [rewrite dict_get_set, String.eqb_refl; reflexivity|].
    cbn [ledger.with_tracked_state ledger.sequence ledger.commitments
         ledger.verify_keys ledger.closed].
    rewrite copy_commitments, Hpp.
    repeat split; try reflexivity; assumption.
  - intros pid w sg ch' w' H. rewrite sign_state_eq in H.
    destruct (dict.get (channel.participants ch) pid); [|discriminate].
    cbv zeta in H. injection H as _ <- _.
    split; [exact Hps|]. exists record.
    cbn [channel.map_state channel.channel_id channel.state channel.participants
         channel.with_signatures channel.sequence channel.commitments].
    repeat split; assumption.
Qed.

Lemma tracking_is_maintained_witness :
  (forall payer amount w st ch' w',
     channel.apply_payment payer amount (toy_cosigned, w) = (Ok st, (ch', w')) ->
     exists l', ledger.update_state ch' toy_ledger = (Ok tt, l') /\ tracks l' ch')
  /\ (forall pid w sg ch' w',
        channel.sign_state pid (toy_cosigned, w) = (Ok sg, (ch', w')) ->
        tracks toy_ledger ch').
Proof.
  apply (tracking_is_maintained (E := toy_ed25519) toy_ledger toy_cosigned).
  split; [reflexivity|]. exists toy_record.
  repeat split; vm_compute; reflexivity.
Defined.

(** X29: settlement does not bind the balances where a discrete
    logarithm [s] of [h] to the base [g] is known, as it is for the
    default parameters: for a tracked co-signed channel and any two
    integers [a'] and [b'], the closing payload in which the balances are
    replaced by [a'] and [b'] and the openings are shifted accordingly is
    accepted and reported as the settled balances; commitments, proofs and
    signatures are the channel's own. *)
Theorem settlement_accepts_any_balances {E : Ed25519} (EC : Ed25519Correct E)
    ch l s a' b' :
  reachable ch ->
  channel.is_fully_signed ch = true ->
  tracks l ch ->
  0 <= s ->
  pedersen.g (channel.params ch) ^ s mod pedersen.p (channel.params ch)
  = pedersen.h (channel.params ch) ->
  (s * Z.invmod s (pedersen.q (channel.params ch)))
  mod pedersen.q (channel.params ch) = 1 ->
  exists openings' l',
    ledger.cooperative_close
      (channel.closing_payload
         (channel.map_state
            (fun st =>
               channel.with_openings openings'
                 (channel.with_balances [("alice", a'); ("bob", b')] st))
            ch)) l
    = (Ok [ ("channel_id", pyobj.Str (channel.channel_id ch));
            ("sequence", pyobj.Int (channel.sequence (channel.state ch)));
            ("settled_balances",
              pyobj.Dict [("alice", pyobj.Int a'); ("bob", pyobj.Int b')]);
            ("verified", pyobj.Bool true) ], l').
Proof.
  intros R F T Hs Hh Hinv.
  pose proof (reachable_coherent ch R) as C. pose proof C as C0.
  destruct C as (seq & a & b & da & db & sigs & ka & kb & G & Hp & Hst & _).
  pose proof (proven_state_fields (channel.params ch) (channel.channel_id ch)
                seq a b da db sigs) as (_ & _ & F3 & _).
  assert (Hcs : channel.commitments (channel.state ch)
                = [("alice", slot_commitment (channel.params ch) a (fst (fst da)));
                   ("bob", slot_commitment (channel.params ch) b (fst (fst db)))]).
  { rewrite Hst. exact F3. }
  set (s_inv := Z.invmod s (pedersen.q (channel.params ch))) in *.
  destruct (close_doctored ch l a' b'
              (fst (fst da) + (a - a') * s_inv) (fst (fst db) + (b - b') * s_inv)
              _ _ C0 F T Hcs)
    as (record & _ & Hclose).
  - unfold slot_commitment. rewrite (verify_cval _ G).
    rewrite (equivocation _ G s s_inv Hs Hh Hinv), Z.eqb_refl. reflexivity.
  - unfold slot_commitment. rewrite (verify_cval _ G).
    rewrite (equivocation _ G s s_inv Hs Hh Hinv), Z.eqb_refl. reflexivity.
  - eexists. eexists. exact Hclose.
Qed.

Lemma settlement_accepts_any_balances_witness :
  exists openings' l',
    ledger.cooperative_close
      (channel.closing_payload
         (channel.map_state
            (fun st =>
               channel.with_openings openings'
                 (channel.with_balances [("alice", 0); ("bob", 1000000)] st))
            toy_cosigned)) toy_ledger
    = (Ok [ ("channel_id", pyobj.Str (channel.channel_id toy_cosigned));
            ("sequence", pyobj.Int (channel.sequence (channel.state toy_cosigned)));
            ("settled_balances",
              pyobj.Dict [("alice", pyobj.Int 0); ("bob", pyobj.Int 1000000)]);
            ("verified", pyobj.Bool true) ], l').
Proof.
  apply (settlement_accepts_any_balances (E := toy_ed25519) toy_ed25519_correct
           toy_cosigned toy_ledger 8 0 1000000).
  - exact toy_cosigned_reachable.
  - reflexivity.
  - exact toy_ledger_tracks.
  - lia.
  - reflexivity.
  - reflexivity.
Defined.

(** The same on the parameters [default_parameters()] returns, where the
    exponent is the scalar the code derives from a public string. *)
Lemma default_settlement_accepts_any_balances {E : Ed25519}
    (EC : Ed25519Correct E) ps ch l a' b' :
  pedersen.default_parameters = Ok ps ->
  channel.params ch = ps ->
  reachable ch ->
  channel.is_fully_signed ch = true ->
  tracks l ch ->
  exists openings' l',
    ledger.cooperative_close
      (channel.closing_payload
         (channel.map_state
            (fun st =>
               channel.with_openings openings'
                 (channel.with_balances [("alice", a'); ("bob", b')] st))
            ch)) l
    = (Ok [ ("channel_id", pyobj.Str (channel.channel_id ch));
            ("sequence", pyobj.Int (channel.sequence (channel.state ch)));
            ("settled_balances",
              pyobj.Dict [("alice", pyobj.Int a'); ("bob", pyobj.Int b')]);
            ("verified", pyobj.Bool true) ], l').
Proof.
  intros Hps Hch R F T. apply default_parameters_inv in Hps. subst ps.
  pose proof (reachable_coherent ch R) as C. pose proof C as C0.
  destruct C as (seq & a & b & da & db & sigs & ka & kb & G & Hp & Hst & _).
  pose proof (proven_state_fields (channel.params ch) (channel.channel_id ch)
                seq a b da db sigs) as (_ & _ & F3 & _).
  assert (Hcs : channel.commitments (channel.state ch)
                = [("alice", slot_commitment (channel.params ch) a (fst (fst da)));
                   ("bob", slot_commitment (channel.params ch) b (fst (fst db)))]).
  { rewrite Hst. exact F3. }
  set (s_inv := Z.invmod default_s default_q).
  assert (Eq : forall m r m',
             cval (channel.params ch) m' (r + (m - m') * s_inv)
             = cval (channel.params ch) m r).
  { rewrite Hch. intros m r m'.
    exact (equivocation default_params default_subgroup default_s s_inv
             default_s_nonneg default_h_eq default_trapdoor_inverse m r m'). }
  destruct (close_doctored ch l a' b'
              (fst (fst da) + (a - a') * s_inv) (fst (fst db) + (b - b') * s_inv)
              _ _ C0 F T Hcs)
    as (record & _ & Hclose).
  - unfold slot_commitment. rewrite (verify_cval _ G), Eq, Z.eqb_refl. reflexivity.
  - unfold slot_commitment. rewrite (verify_cval _ G), Eq, Z.eqb_refl. reflexivity.
  - eexists. eexists. exact Hclose.
Qed.

Section Soundness.
Context {E : Ed25519}.

Lemma check_participant_inv ps cid (record : ledger.LedgerRecord) digest
    openings_hex balances signatures_hex proofs_hex pid vk u :
  ledger.check_participant ps cid record digest openings_hex balances
    signatures_hex proofs_hex (pid, vk) = Ok u ->
  exists sg balance r c blob proof,
    signing.Signature_from_hex (pyobj.get signatures_hex pid) = Ok sg
    /\ signing.VerifyKey_verify vk digest sg = Ok true
    /\ pyobj.as_int (pyobj.get balances pid) = Some balance
    /\ pedersen.int16_of (pyobj.get openings_hex pid) = Ok r
    /\ dict.get (ledger.commitments record) pid = Some c
    /\ pedersen.verify ps c balance {| pedersen.randomness := r |} = Ok true
    /\ pyobj.as_dict (pyobj.get proofs_hex pid) = Some blob
    /\ pedersen.deserialize_proof blob = Ok proof
    /\ pedersen.verify_opening_proof ps c proof
         (channel.proof_context cid (ledger.sequence record) pid) = Ok true.
Proof.
  unfold ledger.check_participant. cbn [fst snd]. intros H.
  destruct (pyobj.is_none (pyobj.get signatures_hex pid)); [discriminate|].
  destruct (signing.Signature_from_hex (pyobj.get signatures_hex pid)) as [sg|e];
    cbn [rbind] in H; [|discriminate].
  destruct (signing.VerifyKey_verify vk digest sg) as [[|]|e] eqn:Ev;
    cbn [rbind negb] in H; try discriminate.
  destruct (pyobj.is_none (pyobj.get openings_hex pid)); [discriminate|].
  destruct (pyobj.as_int (pyobj.get balances pid)) as [balance|]; [|discriminate].
  destruct (pedersen.int16_of (pyobj.get openings_hex pid)) as [r|e];
    cbn [rbind] in H; [|discriminate].
  unfold dict.getitem in H.
  destruct (dict.get (ledger.commitments record) pid) as [c|]; cbn [rbind] in H;
    [|discriminate].
  destruct (pedersen.verify ps c balance {| pedersen.randomness := r |})
    as [[|]|e] eqn:Ever; cbn [rbind negb] in H; try discriminate.
  destruct (pyobj.as_dict (pyobj.get proofs_hex pid)) as [blob|]; [|discriminate].
  destruct (pedersen.deserialize_proof blob) as [proof|e] eqn:Ed;
    cbn [rbind] in H; [|discriminate].
  destruct (pedersen.verify_opening_proof ps c proof
              (channel.proof_context cid (ledger.sequence record) pid))
    as [[|]|e] eqn:Ep; cbn [rbind negb] in H; try discriminate.
  exists sg, balance, r, c, blob, proof. repeat split; reflexivity || assumption.
Qed.

Lemma check_commitments_inv (record : ledger.LedgerRecord) commitments_hex u :
  ledger.check_commitments record commitments_hex = Ok u ->
  forall pid c,
    In (pid, c) (ledger.commitments record) ->
    pyobj.get commitments_hex pid = pyobj.Str (pedersen.serialize_commitment c).
Proof.
  unfold ledger.check_commitments. intros H pid c Hin.
  pose proof (rfor_each_inv _ _ _ H (pid, c) Hin) as Hc. cbn [fst snd] in Hc.
  destruct (pyobj.get commitments_hex pid) as [|b0|z0|s0|d0];
    cbn [pyobj.ne_str] in Hc.
  1-3,5: discriminate.
  destruct (String.eqb s0 (pedersen.serialize_commitment c)) eqn:Es;
    cbn [negb] in Hc; [|discriminate].
  apply String.eqb_eq in Es. rewrite Es. reflexivity.
Qed.
End Soundness.

(** X26: when [cooperative_close] returns, the payload carried, for
    every recorded commitment, its serialisation, and for every recorded
    verify key a signature that verifies over the digest of the recorded
    state, an integer balance and an opening that [verify] accepts for the
    recorded commitment, and a proof that [verify_opening_proof] accepts
    under the context of the recorded sequence. *)
Theorem cooperative_close_sound {E : Ed25519} payload l res l' :
  ledger.cooperative_close payload l = (Ok res, l') ->
  exists cid record commitments_hex openings_hex balances signatures_hex proofs_hex,
    pyobj.as_str (pyobj.get payload "channel_id") = Some cid
    /\ dict.get (ledger._records l) cid = Some record
    /\ pyobj.as_dict (pyobj.get payload "commitments") = Some commitments_hex
    /\ pyobj.as_dict (pyobj.get payload "openings") = Some openings_hex
    /\ pyobj.as_dict (pyobj.get payload "balances") = Some balances
    /\ pyobj.as_dict (pyobj.get payload "signatures") = Some signatures_hex
    /\ pyobj.as_dict (pyobj.get payload "proofs") = Some proofs_hex
    /\ (forall pid c,
          In (pid, c) (ledger.commitments record) ->
          pyobj.get commitments_hex pid
          = pyobj.Str (pedersen.serialize_commitment c))
    /\ (forall pid vk,
          In (pid, vk) (ledger.verify_keys record) ->
          exists sg balance r c blob proof,
            signing.Signature_from_hex (pyobj.get signatures_hex pid) = Ok sg
            /\ signing.VerifyKey_verify vk
                 (channel.compute_state_digest cid (ledger.sequence record)
                    (ledger.commitments record)) sg = Ok true
            /\ pyobj.as_int (pyobj.get balances pid) = Some balance
            /\ pedersen.int16_of (pyobj.get openings_hex pid) = Ok r
            /\ dict.get (ledger.commitments record) pid = Some c
            /\ pedersen.verify (ledger.params l) c balance
                 {| pedersen.randomness := r |} = Ok true
            /\ pyobj.as_dict (pyobj.get proofs_hex pid) = Some blob
            /\ pedersen.deserialize_proof blob = Ok proof
            /\ pedersen.verify_opening_proof (ledger.params l) c proof
                 (channel.proof_context cid (ledger.sequence record) pid)
               = Ok true).
Proof.
  rewrite cooperative_close_eq.
  destruct (pyobj.as_str (pyobj.get payload "channel_id")) as [cid|];
    [|discriminate].
  destruct (dict.get (ledger._records l) cid) as [record|] eqn:Er;
    [|discriminate].
  destruct (ledger.closed record); [discriminate|].
  destruct (pyobj.as_int (pyobj.get payload "sequence")) as [s|]; [|discriminate].
  destruct (negb (s =? ledger.sequence record)); [discriminate|].
  destruct (pyobj.as_dict (pyobj.get payload "commitments")) as [ch|];
    [|discriminate].
  destruct (pyobj.as_dict (pyobj.get payload "openings")) as [oh|];
    [|discriminate].
  destruct (pyobj.as_dict (pyobj.get payload "balances")) as [bd|];
    [|discriminate].
  destruct (pyobj.as_dict (pyobj.get payload "signatures")) as [sh|];
    [|discriminate].
  destruct (pyobj.as_dict (pyobj.get payload "proofs")) as [ph|];
    [|discriminate].
  destruct (ledger.check_commitments record ch) as [[]|e] eqn:Ec; [|discriminate].
  destruct (rfor_each (ledger.verify_keys record) _) as [[]|e] eqn:Ep;
    [|discriminate].
  intros _.
  exists cid, record, ch, oh, bd, sh, ph.
  split; [reflexivity|]. split; [exact Er|].
  repeat (split; [reflexivity|]). split.
  - apply (check_commitments_inv _ _ _ Ec).
  - intros pid vk Hin.
    pose proof (rfor_each_inv _ _ _ Ep (pid, vk) Hin) as Hc.
    apply (check_participant_inv _ _ _ _ _ _ _ _ _ _ _ Hc).
Qed.

Lemma cooperative_close_sound_witness :
  exists cid record commitments_hex openings_hex balances signatures_hex proofs_hex,
    pyobj.as_str (pyobj.get toy_payload_respelled "channel_id")
    = Some cid
    /\ dict.get (ledger._records toy_ledger) cid = Some record
    /\ pyobj.as_dict (pyobj.get toy_payload_respelled "commitments")
       = Some commitments_hex
    /\ pyobj.as_dict (pyobj.get toy_payload_respelled "openings")
       = Some openings_hex
    /\ pyobj.as_dict (pyobj.get toy_payload_respelled "balances")
       = Some balances
    /\ pyobj.as_dict (pyobj.get toy_payload_respelled "signatures")
       = Some signatures_hex
    /\ pyobj.as_dict (pyobj.get toy_payload_respelled "proofs")
       = Some proofs_hex
    /\ (forall pid c,
          In (pid, c) (ledger.commitments record) ->
          pyobj.get commitments_hex pid
          = pyobj.Str (pedersen.serialize_commitment c))
    /\ (forall pid vk,
          In (pid, vk) (ledger.verify_keys record) ->
          exists sg balance r c blob proof,
            signing.Signature_from_hex (pyobj.get signatures_hex pid) = Ok sg
            /\ signing.VerifyKey_verify vk
                 (channel.compute_state_digest cid (ledger.sequence record)
                    (ledger.commitments record)) sg = Ok true
            /\ pyobj.as_int (pyobj.get balances pid) = Some balance
            /\ pedersen.int16_of (pyobj.get openings_hex pid) = Ok r
            /\ dict.get (ledger.commitments record) pid = Some c
            /\ pedersen.verify (ledger.params toy_ledger) c balance
                 {| pedersen.randomness := r |} = Ok true
            /\ pyobj.as_dict (pyobj.get proofs_hex pid) = Some blob
            /\ pedersen.deserialize_proof blob = Ok proof
            /\ pedersen.verify_opening_proof (ledger.params toy_ledger) c proof
                 (channel.proof_context cid (ledger.sequence record) pid)
               = Ok true).
Proof.
  apply (cooperative_close_sound (E := toy_ed25519)
           toy_payload_respelled toy_ledger
           [ ("channel_id", pyobj.Str "6f1c2a9e-toy");
             ("sequence", pyobj.Int 1);
             ("settled_balances",
               pyobj.Dict [("alice", pyobj.Int 175); ("bob", pyobj.Int 75)]);
             ("verified", pyobj.Bool true) ]
           toy_ledger_closed).
  vm_compute. reflexivity.
Defined.

Lemma cooperative_close_atomic_witness :
  exists cid record,
    pyobj.as_str (pyobj.get toy_payload_respelled "channel_id")
    = Some cid
    /\ dict.get (ledger._records toy_ledger) cid = Some record
    /\ ledger.closed record = false
    /\ pyobj.as_int (pyobj.get toy_payload_respelled "sequence")
       = Some (ledger.sequence record)
    /\ ledger.params toy_ledger_closed = ledger.params toy_ledger
    /\ ledger._records toy_ledger_closed
       = dict.set (ledger._records toy_ledger) cid (ledger.with_closed true record)
    /\ [ ("channel_id", pyobj.Str "6f1c2a9e-toy");
         ("sequence", pyobj.Int 1);
         ("settled_balances",
           pyobj.Dict [("alice", pyobj.Int 175); ("bob", pyobj.Int 75)]);
         ("verified", pyobj.Bool true) ]
       = [ ("channel_id", pyobj.Str cid);
           ("sequence", pyobj.Int (ledger.sequence record));
           ("settled_balances",
             pyobj.get toy_payload_respelled "balances");
           ("verified", pyobj.Bool true) ].
Proof.
  apply (cooperative_close_atomic (E := toy_ed25519)
           toy_payload_respelled toy_ledger
           (Ok [ ("channel_id", pyobj.Str "6f1c2a9e-toy");
                 ("sequence", pyobj.Int 1);
                 ("settled_balances",
                   pyobj.Dict [("alice", pyobj.Int 175); ("bob", pyobj.Int 75)]);
                 ("verified", pyobj.Bool true) ])
           toy_ledger_closed).
  vm_compute. reflexivity.
Defined.

(** X3: in a group where [g^q = h^q = 1], for any list of messages and
    openings, the product [add_commitments] forms of the commitments that
    [commit] made verifies against [add_messages] of the messages under
    [add_openings] of the openings; the empty list is included. *)
Theorem homomorphism_n_ary params tp items cos :
  subgroup_params params ->
  Forall2 (fun mr co =>
             pedersen.commit params (fst mr) (Some (snd mr)) tp = (Ok co, tp))
    items cos ->
  exists c m o,
    pedersen.add_commitments params (List.map fst cos) = Ok c
    /\ pedersen.add_messages params (List.map fst items) = Ok m
    /\ pedersen.add_openings params (List.map snd cos) = Ok o
    /\ pedersen.verify params c m o = Ok true.
Proof. intros G. apply homomorphism_lists. exact G. Qed.

Lemma homomorphism_n_ary_witness :
  exists c m o,
    pedersen.add_commitments toy_params
      (List.map fst
         [({| pedersen.value := 6 |}, {| pedersen.randomness := 3 |});
          ({| pedersen.value := 2 |}, {| pedersen.randomness := 5 |});
          ({| pedersen.value := 4 |}, {| pedersen.randomness := 9 |})]) = Ok c
    /\ pedersen.add_messages toy_params (List.map fst [(40, 3); (60, 5); (7, 9)])
       = Ok m
    /\ pedersen.add_openings toy_params
         (List.map snd
            [({| pedersen.value := 6 |}, {| pedersen.randomness := 3 |});
             ({| pedersen.value := 2 |}, {| pedersen.randomness := 5 |});
             ({| pedersen.value := 4 |}, {| pedersen.randomness := 9 |})]) = Ok o
    /\ pedersen.verify toy_params c m o = Ok true.
Proof.
  apply (homomorphism_n_ary toy_params [] [(40, 3); (60, 5); (7, 9)]).
  - exact toy_subgroup.
  - repeat constructor.
Defined.

(** X4: where [q] divides [p - 1], [negate_commitment] of a commitment
    to [m] under [r] verifies against [-m] under [-r], and
    [commitment_difference] of two commitments verifies against the
    difference of the messages under the difference of the openings. *)
Theorem commitment_difference_opens params m1 r1 m2 r2 tp c1 o1 c2 o2 :
  subgroup_params params ->
  (pedersen.p params - 1) mod pedersen.q params = 0 ->
  pedersen.commit params m1 (Some r1) tp = (Ok (c1, o1), tp) ->
  pedersen.commit params m2 (Some r2) tp = (Ok (c2, o2), tp) ->
  (exists n,
     pedersen.negate_commitment params c2 = Ok n
     /\ pedersen.verify params n (- m2)
          {| pedersen.randomness := - pedersen.randomness o2 |} = Ok true)
  /\ exists c,
       pedersen.commitment_difference params c1 c2 = Ok c
       /\ pedersen.verify params c (m1 - m2)
            {| pedersen.randomness :=
                 pedersen.randomness o1 - pedersen.randomness o2 |} = Ok true.
Proof.
  intros G Hdiv H1 H2.
  destruct (difference_opens params G Hdiv m1 r1 m2 r2 tp c1 o1 c2 o2 H1 H2)
    as (Hn & Hv & Hd).
  split; [|exact Hd].
  eexists. split; [exact Hn|].
  rewrite (commit_some params G) in H2. injection H2 as _ <-.
  cbn [pedersen.randomness]. exact Hv.
Qed.

Lemma commitment_difference_opens_witness :
  (exists n,
     pedersen.negate_commitment toy_params {| pedersen.value := 2 |} = Ok n
     /\ pedersen.verify toy_params n (- 60)
          {| pedersen.randomness := - 5 |} = Ok true)
  /\ exists c,
       pedersen.commitment_difference toy_params {| pedersen.value := 6 |}
         {| pedersen.value := 2 |} = Ok c
       /\ pedersen.verify toy_params c (40 - 60)
            {| pedersen.randomness := 3 - 5 |} = Ok true.
Proof.
  apply (commitment_difference_opens toy_params 40 3 60 5 []
           {| pedersen.value := 6 |} {| pedersen.randomness := 3 |}
           {| pedersen.value := 2 |} {| pedersen.randomness := 5 |}).
  - exact toy_subgroup.
  - reflexivity.
  - vm_compute. reflexivity.
  - vm_compute. reflexivity.
Defined.

(** X7: in a group where [g^q = h^q = 1], [commit] without a randomness
    argument draws an opening in [1, q-1], consumes a prefix of the
    entropy and returns a commitment that [verify] accepts for the
    message; it returns as soon as the next draw is not a multiple of
    [q]. *)
Theorem fresh_commitment_opens params m :
  subgroup_params params ->
  (forall tp c o tp',
     pedersen.commit params m None tp = (Ok (c, o), tp') ->
     0 < pedersen.randomness o < pedersen.q params
     /\ pedersen.verify params c m o = Ok true
     /\ exists drawn, tp = drawn ++ tp')
  /\ (forall x rest,
        x mod pedersen.q params <> 0 ->
        exists c o, pedersen.commit params m None (x :: rest) = (Ok (c, o), rest)).
Proof.
  intros G. split.
  - intros tp c o tp' H.
    destruct (commit_fresh_opens params G m tp c o tp' H) as (Hr & _ & Hv & Hd).
    split; [exact Hr|]. split; [exact Hv|exact Hd].
  - intros x rest Hx. apply (commit_fresh_runs params G). exact Hx.
Qed.

Lemma fresh_commitment_opens_witness :
  (forall tp c o tp',
     pedersen.commit toy_params 5 None tp = (Ok (c, o), tp') ->
     0 < pedersen.randomness o < pedersen.q toy_params
     /\ pedersen.verify toy_params c 5 o = Ok true
     /\ exists drawn, tp = drawn ++ tp')
  /\ (forall x rest,
        x mod pedersen.q toy_params <> 0 ->
        exists c o, pedersen.commit toy_params 5 None (x :: rest) = (Ok (c, o), rest)).
Proof. apply (fresh_commitment_opens toy_params 5). exact toy_subgroup. Defined.

(** X8: in a group of prime order, the proof [prove_opening] makes for
    a commitment other than the identity is accepted under its own context
    and rejected under every context for which [_compute_challenge] gives
    another challenge. *)
Theorem proof_bound_to_context params m r tp c o context context' w_m w_r rest
    proof :
  prime_order_params params ->
  pedersen.commit params m (Some r) tp = (Ok (c, o), tp) ->
  pedersen.value c <> 1 ->
  0 < w_m < pedersen.q params -> 0 < w_r < pedersen.q params ->
  pedersen.prove_opening params m o c context (w_m :: w_r :: rest)
  = (Ok proof, rest) ->
  pedersen._compute_challenge params c (pedersen.t proof) context'
  <> pedersen._compute_challenge params c (pedersen.t proof) context ->
  pedersen.verify_opening_proof params c proof context = Ok true
  /\ pedersen.verify_opening_proof params c proof context' = Ok false.
Proof.
  intros G Hc Hne Hwm Hwr Hp Hch.
  pose proof (is_subgroup params G) as S0.
  rewrite (commit_some params S0) in Hc. injection Hc as <- <-.
  cbn [pedersen.value] in Hne.
  rewrite (prove_opening_eq params S0) in Hp.
  rewrite (random_scalar_head params S0 w_m (w_r :: rest) Hwm) in Hp.
  rewrite (random_scalar_head params S0 w_r rest Hwr) in Hp.
  injection Hp as <-.
  split; [apply (proof_for_accepted params S0)|].
  apply (proof_bound_to_challenge params G); [exact Hne|].
  intros E. apply Hch.
  destruct (challenge_spec params S0 {| pedersen.value := cval params m r |}
              (pedersen.t (proof_for params m {| pedersen.randomness := r |}
                             {| pedersen.value := cval params m r |} context
                             w_m w_r)) context') as [-> _].
  destruct (challenge_spec params S0 {| pedersen.value := cval params m r |}
              (pedersen.t (proof_for params m {| pedersen.randomness := r |}
                             {| pedersen.value := cval params m r |} context
                             w_m w_r)) context) as [-> _].
  f_equal. exact E.
Qed.

Lemma proof_bound_to_context_witness :
  pedersen.verify_opening_proof toy_params {| pedersen.value := 8 |}
    {| pedersen.t := 3; pedersen.response_m := 10; pedersen.response_r := 5 |}
    (py.encode "test-channel|0|alice") = Ok true
  /\ pedersen.verify_opening_proof toy_params {| pedersen.value := 8 |}
       {| pedersen.t := 3; pedersen.response_m := 10; pedersen.response_r := 5 |}
       (py.encode "wrong") = Ok false.
Proof.
  apply (proof_bound_to_context toy_params 123 7 [] {| pedersen.value := 8 |}
           {| pedersen.randomness := 7 |} (py.encode "test-channel|0|alice")
           (py.encode "wrong") 4 6 []).
  - exact toy_prime_order.
  - vm_compute. reflexivity.
  - cbn. lia.
  - cbn. lia.
  - cbn. lia.
  - vm_compute. reflexivity.
  - vm_compute. discriminate.
Defined.

Lemma default_commitments_equivocate_witness :
  exists s,
    pedersen._hash_to_scalar (py.encode "pedersen-h-generator")
      (pedersen.q default_params) = Ok s
    /\ pedersen.verify default_params {| pedersen.value := cval default_params 5 7 |}
         9 {| pedersen.randomness :=
                7 + (5 - 9) * Z.invmod s (pedersen.q default_params) |}
       = Ok true.
Proof.
  apply (default_commitments_equivocate default_params 5 7 9 []
           {| pedersen.value := cval default_params 5 7 |}
           {| pedersen.randomness := 7 |}).
  - exact default_parameters_eq.
  - apply (commit_some default_params default_subgroup).
Defined.

(** X10: [Signature.from_hex(sig.to_hex())] returns [sig]; and for the
    key pair [generate_keypair] returns, the signature [sign] makes is
    accepted by [verify], also after a round trip through its hexadecimal
    form (given that PyNaCl's signatures have 64 bytes and verify). *)
Theorem signature_hex_round_trip {E : Ed25519} (EC : Ed25519Correct E) :
  (forall sg,
     signing.Signature_from_hex (pyobj.Str (signing.Signature_to_hex sg)) = Ok sg)
  /\ (forall w sk vk w' message,
        generate_keypair w = (Ok (sk, vk), w') ->
        signing.verify message (signing.sign message sk) vk = Ok true
        /\ exists sg,
             signing.Signature_from_hex
               (pyobj.Str (signing.Signature_to_hex (signing.sign message sk)))
             = Ok sg
             /\ signing.verify message sg vk = Ok true).
Proof.
  split; [apply signature_roundtrip|].
  intros w sk vk w' message H.
  unfold generate_keypair in H. apply bind_inv_ok in H.
  destruct H as (sk0 & w0 & _ & H). unfold ret in H. injection H as <- <- _.
  assert (V : signing.verify message (signing.sign message sk0)
                (signing.verify_key sk0) = Ok true).
  { unfold signing.verify, signing.sign. apply sign_verify_key. }
  split; [exact V|].
  exists (signing.sign message sk0). split; [apply signature_roundtrip|exact V].
Qed.

Lemma signature_hex_round_trip_witness :
  (forall sg,
     signing.Signature_from_hex (pyobj.Str (signing.Signature_to_hex sg)) = Ok sg)
  /\ (forall w sk vk w' message,
        generate_keypair (E := toy_ed25519) w = (Ok (sk, vk), w') ->
        signing.verify message (signing.sign message sk) vk = Ok true
        /\ exists sg,
             signing.Signature_from_hex
               (pyobj.Str (signing.Signature_to_hex (signing.sign message sk)))
             = Ok sg
             /\ signing.verify message sg vk = Ok true).
Proof. exact (signature_hex_round_trip (E := toy_ed25519) toy_ed25519_correct). Defined.


(* ===================================================================== *)
(** * The order of strings and [sorted] *)

Lemma ascii_compare_trans a b c :
  Ascii.compare a b = Lt -> Ascii.compare b c = Lt -> Ascii.compare a c = Lt.
Proof.
  unfold Ascii.compare. rewrite !N.compare_lt_iff. apply N.lt_trans.
Qed.

Lemma string_compare_refl s : String.compare s s = Eq.
Proof.
  induction s as [|a s IH]; [reflexivity|]. cbn.
  replace (Ascii.compare a a) with Eq; [exact IH|].
  symmetry. unfold Ascii.compare. apply N.compare_refl.
Qed.

Lemma string_compare_lt_trans s1 s2 s3 :
  String.compare s1 s2 = Lt -> String.compare s2 s3 = Lt ->
  String.compare s1 s3 = Lt.
Proof.
  revert s2 s3. induction s1 as [|a s1 IH]; intros [|b s2] [|c s3]; cbn;
    try discriminate; try reflexivity.
  destruct (Ascii.compare a b) eqn:Eab; try discriminate.
  - apply Ascii.compare_eq_iff in Eab. subst b.
    destruct (Ascii.compare a c); try discriminate; [apply IH|reflexivity].
  - intros _. destruct (Ascii.compare b c) eqn:Ebc; try discriminate.
    + apply Ascii.compare_eq_iff in Ebc. subst c. rewrite Eab. reflexivity.
    + rewrite (ascii_compare_trans a b c Eab Ebc). reflexivity.
Qed.

Lemma string_leb_trans s1 s2 s3 :
  String.leb s1 s2 = true -> String.leb s2 s3 = true -> String.leb s1 s3 = true.
Proof.
  unfold String.leb.
  destruct (String.compare s1 s2) eqn:E12; try discriminate; intros _.
  - apply String.compare_eq_iff in E12. subst s2. tauto.
  - destruct (String.compare s2 s3) eqn:E23; try discriminate; intros _.
    + apply String.compare_eq_iff in E23. subst s3. rewrite E12. reflexivity.
    + rewrite (string_compare_lt_trans s1 s2 s3 E12 E23). reflexivity.
Qed.

Lemma string_leb_refl s : String.leb s s = true.
Proof. unfold String.leb. rewrite string_compare_refl. reflexivity. Qed.

Lemma string_leb_false s1 s2 : String.leb s1 s2 = false -> String.leb s2 s1 = true.
Proof.
  intros H. destruct (String.leb_total s1 s2) as [E|E]; [congruence|exact E].
Qed.

Lemma insert_sorted_sorted k ks :
  StronglySorted (fun a b => String.leb a b = true) ks ->
  StronglySorted (fun a b => String.leb a b = true) (py.insert_sorted k ks).
Proof.
  induction 1 as [|k' ks Hs IH Hall]; cbn [py.insert_sorted].
  - constructor; constructor.
  - destruct (String.leb k k') eqn:Ek.
    + constructor; [constructor; assumption|].
      constructor; [exact Ek|].
      eapply Forall_impl; [|exact Hall].
      intros x Hx. eapply string_leb_trans; eassumption.
    + constructor; [exact IH|].
      assert (Hin : forall x, In x (py.insert_sorted k ks) -> x = k \/ In x ks).
      { clear. induction ks as [|y ks IH]; cbn [py.insert_sorted]; intros x Hx.
        - destruct Hx as [<-|[]]. left. reflexivity.
        - destruct (String.leb k y).
          + destruct Hx as [<-|Hx]; [left; reflexivity|right; exact Hx].
          + destruct Hx as [<-|Hx]; [right; left; reflexivity|].
            destruct (IH x Hx) as [->|H]; [left; reflexivity|right; right; exact H]. }
      apply Forall_forall. intros x Hx.
      destruct (Hin x Hx) as [->|Hx'].
      * apply string_leb_false. exact Ek.
      * rewrite Forall_forall in Hall. apply Hall. exact Hx'.
Qed.

Lemma sorted_sorted ks :
  StronglySorted (fun a b => String.leb a b = true) (py.sorted ks).
Proof.
  induction ks as [|k ks IH]; [constructor|].
  change (py.sorted (k :: ks)) with (py.insert_sorted k (py.sorted ks)).
  apply insert_sorted_sorted. exact IH.
Qed.

Lemma insert_sorted_comm a b ks :
  StronglySorted (fun x y => String.leb x y = true) ks ->
  py.insert_sorted a (py.insert_sorted b ks)
  = py.insert_sorted b (py.insert_sorted a ks).
Proof.
  induction 1 as [|k ks Hs IH Hall].
  - cbn [py.insert_sorted].
    destruct (String.leb a b) eqn:Eab, (String.leb b a) eqn:Eba; try reflexivity.
    + rewrite (String.leb_antisym a b Eab Eba). reflexivity.
    + apply string_leb_false in Eab. congruence.
  - cbn [py.insert_sorted].
    destruct (String.leb b k) eqn:Ebk, (String.leb a k) eqn:Eak;
      cbn [py.insert_sorted].
    + destruct (String.leb a b) eqn:Eab, (String.leb b a) eqn:Eba;
        rewrite ?Ebk, ?Eak; try reflexivity.
      * rewrite (String.leb_antisym a b Eab Eba). reflexivity.
      * apply string_leb_false in Eab. congruence.
    + assert (Eab : String.leb a b = false).
      { destruct (String.leb a b) eqn:E; [|reflexivity].
        rewrite (string_leb_trans a b k E Ebk) in Eak. discriminate. }
      rewrite Eab, Eak, Ebk. reflexivity.
    + assert (Eba : String.leb b a = false).
      { destruct (String.leb b a) eqn:E; [|reflexivity].
        rewrite (string_leb_trans b a k E Eak) in Ebk. discriminate. }
      rewrite Eba, Ebk, Eak. reflexivity.
    + rewrite Eak, Ebk, IH. reflexivity.
Qed.

Lemma sorted_permutation ks ks' :
  Permutation ks ks' -> py.sorted ks = py.sorted ks'.
Proof.
  induction 1 as [|x l l' _ IH|x y l|l l' l'' _ IH1 _ IH2].
  - reflexivity.
  - change (py.insert_sorted x (py.sorted l) = py.insert_sorted x (py.sorted l')).
    rewrite IH. reflexivity.
  - change (py.insert_sorted y (py.insert_sorted x (py.sorted l))
            = py.insert_sorted x (py.insert_sorted y (py.sorted l))).
    apply insert_sorted_comm. apply sorted_sorted.
  - congruence.
Qed.

Lemma dict_get_in {V} (d : dict.t V) k v :
  NoDup (dict.keys d) -> In (k, v) d -> dict.get d k = Some v.
Proof.
  induction d as [|[k0 v0] d IH]; intros Hnd Hin; [destruct Hin|].
  cbn [dict.keys List.map fst] in Hnd. inversion Hnd as [|? ? Hni Hnd']. subst.
  cbn [dict.get]. destruct Hin as [Heq|Hin].
  - injection Heq as -> ->. rewrite String.eqb_refl. reflexivity.
  - destruct (String.eqb_spec k k0) as [->|Hne].
    + exfalso. apply Hni. change k0 with (fst (k0, v)).
      apply in_map. exact Hin.
    + apply IH; assumption.
Qed.

Lemma dict_get_none {V} (d : dict.t V) k :
  ~ In k (dict.keys d) -> dict.get d k = None.
Proof.
  induction d as [|[k0 v0] d IH]; intros Hni; [reflexivity|].
  cbn [dict.get]. cbn [dict.keys List.map fst In] in Hni.
  destruct (String.eqb_spec k k0) as [->|Hne]; [exfalso; apply Hni; left; reflexivity|].
  apply IH. intros H. apply Hni. right. exact H.
Qed.

Lemma dict_get_permutation {V} (d d' : dict.t V) k :
  NoDup (dict.keys d) -> Permutation d d' -> dict.get d k = dict.get d' k.
Proof.
  intros Hnd Hp.
  assert (Hnd' : NoDup (dict.keys d')).
  { eapply Permutation_NoDup; [|exact Hnd]. apply Permutation_map. exact Hp. }
  destruct (dict.get d k) as [v|] eqn:Eg.
  - symmetry. apply dict_get_in; [exact Hnd'|].
    eapply Permutation_in; [exact Hp|].
    clear -Eg. induction d as [|[k0 v0] d IH]; [discriminate|].
    cbn [dict.get] in Eg. destruct (String.eqb_spec k k0) as [->|].
    + injection Eg as ->. left. reflexivity.
    + right. apply IH. exact Eg.
  - symmetry. apply dict_get_none. intros Hin.
    assert (Hin' : In k (dict.keys d)).
    { eapply Permutation_in; [|exact Hin]. apply Permutation_map.
      apply Permutation_sym. exact Hp. }
    unfold dict.keys in Hin'. apply in_map_iff in Hin'.
    destruct Hin' as ([k1 v1] & Hk & Hin1). cbn in Hk. subst k1.
    rewrite (dict_get_in d k v1 Hnd Hin1) in Eg. discriminate.
Qed.

(** X21: [compute_state_digest] does not depend on the order in which
    the commitments were inserted into the dictionary. *)
Theorem state_digest_order_independent cid seq
    (d d' : dict.t pedersen.Commitment) :
  NoDup (dict.keys d) ->
  Permutation d d' ->
  channel.compute_state_digest cid seq d = channel.compute_state_digest cid seq d'.
Proof.
  intros Hnd Hp. unfold channel.compute_state_digest.
  rewrite (sorted_permutation (dict.keys d) (dict.keys d')).
  2:{ apply Permutation_map. exact Hp. }
  do 3 f_equal. f_equal.
  apply flat_map_ext. intros k. rewrite (dict_get_permutation d d' k Hnd Hp).
  reflexivity.
Qed.

Lemma state_digest_order_independent_witness :
  channel.compute_state_digest "c" 3
    [("alice", {| pedersen.value := 6 |}); ("bob", {| pedersen.value := 2 |})]
  = channel.compute_state_digest "c" 3
      [("bob", {| pedersen.value := 2 |}); ("alice", {| pedersen.value := 6 |})].
Proof.
  apply state_digest_order_independent.
  - repeat constructor; cbn; intuition discriminate.
  - apply perm_swap.
Defined.

